(** * topicnaming: layered cluster construction and evidence selection

    A shallow embedding of [src/topicnaming/topic_naming.py].

    - Python exceptions are values of [exn]; a function that can raise
      returns a [result].
    - NumPy floating point numbers are an abstract type with the
      operations the code uses (class [Numeric]); the instance
      [binary64] runs the definitions on IEEE 754 double precision.
    - Python sets are [gset]s, lists and one-dimensional arrays are
      lists, two-dimensional arrays are [matrix] records.
    - The collaborators that live outside the repository (HDBSCAN
      condensation, scikit-learn distances, NumPy quantiles, the language
      model and its tokenizer) are section variables.

    Part I holds the definitions, Part II the theorems. *)

From Stdlib Require Import ZArith List Lia Bool Floats Ascii String.
From stdpp Require Import gmap strings list sorting.

Set Default Proof Using "Type".
Set Warnings "-inexact-float,-clear-no-such-hyp".

(** * Part I: the program *)

(** ** Exceptions and results *)

Inductive exn : Type :=
  | IndexError
  | ValueError.

Inductive result (A : Type) : Type :=
  | Ok (a : A)
  | Raise (e : exn).
Arguments Ok {A} a.
Arguments Raise {A} e.

#[global] Instance result_ret : MRet result := λ A a, Ok a.
#[global] Instance result_bind : MBind result := λ A B f r,
  match r with
  | Ok a => f a
  | Raise e => Raise e
  end.

(** [l[i]] with the bounds check of a Python list. *)
Definition get {A} (l : list A) (i : nat) : result A :=
  match l !! i with
  | Some x => Ok x
  | None => Raise IndexError
  end.

(** [l[i] = f(l[i])], an in-place update of one slot. *)
Definition update {A} (l : list A) (i : nat) (f : A → A) : result (list A) :=
  x ← get l i; Ok (<[i:=f x]> l).

(** [a[idx]] for a list of indices [idx] (NumPy fancy indexing). *)
Fixpoint take_rows {A} (a : list A) (idx : list nat) : result (list A) :=
  match idx with
  | [] => Ok []
  | j :: idx' => x ← get a j; xs ← take_rows a idx'; Ok (x :: xs)
  end.

(** [a[mask]] for a boolean mask, and the comprehension
    [[x for x, select in zip(a, mask) if select]]. *)
Fixpoint select {A} (mask : list bool) (a : list A) : list A :=
  match mask, a with
  | b :: mask', x :: a' => if b then x :: select mask' a' else select mask' a'
  | _, _ => []
  end.

(** [for x in l: s = body(x, s)], stopping at the first exception. *)
Fixpoint for_each {A S} (l : list A) (body : A → S → result S) (s : S)
  : result S :=
  match l with
  | [] => Ok s
  | x :: l' => s' ← body x s; for_each l' body s'
  end.

(** ** Floating point numbers *)

Class Numeric (F : Type) : Type := {
  fzero : F;
  fadd : F → F → F;
  fmul : F → F → F;
  fdiv : F → F → F;
  fltb : F → F → bool;
}.

(** Python's [a > b]. *)
Definition fgtb `{Numeric F} (a b : F) : bool := fltb b a.
Arguments fgtb : simpl never.

#[global] Instance binary64 : Numeric float := {
  fzero := 0%float;
  fadd := PrimFloat.add;
  fmul := PrimFloat.mul;
  fdiv := PrimFloat.div;
  fltb := PrimFloat.ltb;
}.

(** A two-dimensional array: [shape1] is [a.shape[1]], [rows] its rows. *)
Record matrix (F : Type) : Type := Matrix {
  shape1 : nat;
  rows : list (list F);
}.
Arguments Matrix {F} shape1 rows.
Arguments shape1 {F} m.
Arguments rows {F} m.

(** ** Aggregator: [layer_from_clustering] (lines 26-60) *)

Section Aggregator.
Context `{Numeric F}.

(** [row += s * v] on one row of an array. *)
Definition add_scaled (s : F) (v row : list F) : list F :=
  zip_with fadd row (map (fmul s) v).

(** [row /= w] on one row of an array. *)
Definition div_row (w : F) (row : list F) : list F :=
  map (λ x, fdiv x w) row.

Record accumulators : Type := Accumulators {
  average_vectors : list (list F);
  average_locations : list (list F);
  total_weights : list F;
  pointsets : list (gset nat);
  metaclusters : list (gset Z);
}.

(** [np.zeros] and the list comprehensions of lines 37-41. *)
Definition empty_accumulators (n_clusters d_vec d_loc : nat) : accumulators :=
  {| average_vectors := replicate n_clusters (replicate d_vec fzero);
     average_locations := replicate n_clusters (replicate d_loc fzero);
     total_weights := replicate n_clusters fzero;
     pointsets := replicate n_clusters ∅;
     metaclusters := replicate n_clusters ∅ |}.

Variables (point_vectors point_locations : matrix F).
Variable cluster_label_vector : list Z.
Variable cluster_membership_vector : list F.
Variable base_clusters : list Z.
Variable membership_strength_threshold : F.

(** Line 35: [len(set(cluster_label_vector)) - 1]. *)
Definition n_clusters_of : Z :=
  Z.of_nat (size (list_to_set cluster_label_vector : gset Z)) - 1.

(** Lines 50-54: the pointset and the metacluster set of cluster [c]. *)
Definition record_member (i c : nat) (acc : accumulators)
  : result accumulators :=
  w ← get cluster_membership_vector i;
  if fgtb w membership_strength_threshold then
    ps ← update (pointsets acc) c (λ s, s ∪ {[i]});
    sub_cluster ← get base_clusters i;
    if decide (sub_cluster ≠ (-1)%Z) then
      ms ← update (metaclusters acc) c (λ s, s ∪ {[sub_cluster]});
      Ok {| average_vectors := average_vectors acc;
            average_locations := average_locations acc;
            total_weights := total_weights acc;
            pointsets := ps;
            metaclusters := ms |}
    else
      Ok {| average_vectors := average_vectors acc;
            average_locations := average_locations acc;
            total_weights := total_weights acc;
            pointsets := ps;
            metaclusters := metaclusters acc |}
  else Ok acc.

(** Lines 44-54: one iteration of the loop over the documents. *)
Definition accumulate (i : nat) (acc : accumulators) : result accumulators :=
  cluster_num ← get cluster_label_vector i;
  if decide (0 ≤ cluster_num)%Z then
    let c := Z.to_nat cluster_num in
    w ← get cluster_membership_vector i;
    v ← get (rows point_vectors) i;
    av ← update (average_vectors acc) c (add_scaled w v);
    p ← get (rows point_locations) i;
    al ← update (average_locations acc) c (add_scaled w p);
    tw ← update (total_weights acc) c (λ t, fadd t w);
    record_member i c
      {| average_vectors := av;
         average_locations := al;
         total_weights := tw;
         pointsets := pointsets acc;
         metaclusters := metaclusters acc |}
  else Ok acc.

(** Lines 56-58: one iteration of the normalising loop. *)
Definition normalise (c : nat) (acc : accumulators) : result accumulators :=
  w ← get (total_weights acc) c;
  av ← update (average_vectors acc) c (div_row w);
  al ← update (average_locations acc) c (div_row w);
  Ok {| average_vectors := av;
        average_locations := al;
        total_weights := total_weights acc;
        pointsets := pointsets acc;
        metaclusters := metaclusters acc |}.

(** The whole function.  A negative [n_clusters] makes [np.zeros] raise;
    an index outside an accumulator array, which the compiled code does
    not check, is the guarded branch [Raise IndexError]. *)
Definition layer_from_clustering : result accumulators :=
  let n_clusters := n_clusters_of in
  if decide (n_clusters < 0)%Z then Raise ValueError
  else
    let n := Z.to_nat n_clusters in
    acc ← for_each (seq 0 (length cluster_label_vector)) accumulate
            (empty_accumulators n (shape1 point_vectors)
               (shape1 point_locations));
    for_each (seq 0 n) normalise acc.

End Aggregator.

Arguments accumulators F : clear implicits.

(** ** LayeredClusterBuilder: [build_cluster_layers] (lines 63-140) *)

(** The four parallel lists the function returns, and the flat clustering
    (label vector) each layer was aggregated from, kept as a ghost field. *)
Record cluster_layers (F : Type) : Type := ClusterLayers {
  vector_layers : list (list (list F));
  location_layers : list (list (list F));
  pointset_layers : list (list (list nat));
  metacluster_layers : list (list (list Z));
  label_layers : list (list Z);
}.
Arguments ClusterLayers {F}.
Arguments vector_layers {F} c.
Arguments location_layers {F} c.
Arguments pointset_layers {F} c.
Arguments metacluster_layers {F} c.
Arguments label_layers {F} c.

(** [np.max(a)] of an integer array; an empty array raises. *)
Definition np_max (a : list Z) : result Z :=
  match a with
  | [] => Raise ValueError
  | x :: a' => Ok (foldr Z.max x a')
  end.

Section LayeredClusterBuilder.
Context `{Numeric F}.

(** The clustering collaborator on the fixed dendrogram: the label vector
    and the membership strengths obtained by condensing it at a minimum
    cluster size ([condense_tree], [extract_leaves],
    [get_cluster_label_vector], [get_point_membership_strength_vector]). *)
Variable condense : Z → list Z * list F.

(** [int(np.quantile(sizes, next_cluster_size_quantile))]. *)
Variable int_quantile : list nat → result Z.

Variables (point_vectors point_locations : matrix F).
Variable min_clusters : Z.
Variable base_min_cluster_size : Z.
Variable membership_strength_threshold : F.

(** Lines 101-124: aggregate the current flat clustering against
    [base_clusters], filter a non-base layer, append the layer. *)
Definition next_layer (base_layer : bool) (clusters : list Z)
    (point_probs : list F) (base_clusters : list Z) (acc : cluster_layers F)
  : result (cluster_layers F * list (list nat)) :=
  a ← layer_from_clustering point_vectors point_locations clusters
         point_probs base_clusters membership_strength_threshold;
  let layer_metacluster_selection :=
    map (λ x : gset Z, bool_decide (1 < size x)) (metaclusters a) in
  let keep {A} (l : list A) : list A :=
    if base_layer then l else select layer_metacluster_selection l in
  let layer_pointsets := map elements (keep (pointsets a)) in
  Ok ({| vector_layers := vector_layers acc ++ [keep (average_vectors a)];
         location_layers := location_layers acc ++ [keep (average_locations a)];
         pointset_layers := pointset_layers acc ++ [layer_pointsets];
         metacluster_layers :=
           metacluster_layers acc ++ [map elements (keep (metaclusters a))];
         label_layers := label_layers acc ++ [clusters] |},
      layer_pointsets).

(** Lines 99-137: the [while] loop; [None] when the fuel runs out. *)
Fixpoint build_loop (fuel : nat) (base_layer : bool) (clusters : list Z)
    (point_probs : list F) (base_clusters : list Z)
    (n_clusters_in_layer : Z) (acc : cluster_layers F)
  : option (result (cluster_layers F)) :=
  if decide (min_clusters ≤ n_clusters_in_layer)%Z then
    match fuel with
    | O => None
    | S fuel' =>
        match next_layer base_layer clusters point_probs base_clusters acc with
        | Raise e => Some (Raise e)
        | Ok (acc', layer_pointsets) =>
            match int_quantile (map length layer_pointsets) with
            | Raise e => Some (Raise e)
            | Ok min_cluster_size =>
                let '(clusters', point_probs') := condense min_cluster_size in
                match np_max clusters' with
                | Raise e => Some (Raise e)
                | Ok m =>
                    build_loop fuel' false clusters' point_probs'
                      base_clusters (m + 1)%Z acc'
                end
            end
        end
    end
  else Some (Ok acc).

(** Lines 87-97, then the loop. *)
Definition build_cluster_layers (fuel : nat)
  : option (result (cluster_layers F)) :=
  let '(clusters, point_probs) := condense base_min_cluster_size in
  let cluster_ids : gset Z :=
    list_to_set (filter (λ c, 0 ≤ c)%Z clusters) in
  let base_clusters := clusters in
  build_loop fuel true clusters point_probs base_clusters
    (Z.of_nat (size cluster_ids)) (ClusterLayers [] [] [] [] []).

End LayeredClusterBuilder.

(** ** DiversitySelector: [diversify] (lines 142-160) *)

Section DiversitySelector.
Context `{Numeric F}.

(** One entry of [sklearn.metrics.pairwise_distances(X, Y, metric="cosine")]:
    the cosine distance between a row of [X] and a row of [Y]. *)
Variable cosine_distance : list F → list F → F.

(** Lines 152-156, the [for ... else]: [true] when the inner loop breaks. *)
Definition inner_loop_breaks (alpha d_query : F)
    (retained_neighbor_distances : list F) : bool :=
  existsb (λ d, fgtb (fmul alpha d_query) d) retained_neighbor_distances.

(** Lines 148-158: the loop over [enumerate(candidate_neighbor_vectors[1:], 1)]. *)
Fixpoint diversify_loop (candidate_neighbor_vectors : list (list F))
    (distance_to_query : list F) (alpha : F) (max_candidates : Z)
    (todo : list (nat * list F)) (retained_neighbor_indices : list nat)
  : result (list nat) :=
  match todo with
  | [] => Ok retained_neighbor_indices
  | (i, vector) :: todo' =>
      retained ← take_rows candidate_neighbor_vectors retained_neighbor_indices;
      d_query ← get distance_to_query i;
      let retained_neighbor_distances := map (cosine_distance vector) retained in
      if inner_loop_breaks alpha d_query retained_neighbor_distances then
        diversify_loop candidate_neighbor_vectors distance_to_query alpha
          max_candidates todo' retained_neighbor_indices
      else
        let retained_neighbor_indices := retained_neighbor_indices ++ [i] in
        if decide (max_candidates ≤ Z.of_nat (length retained_neighbor_indices))%Z
        then Ok retained_neighbor_indices
        else
          diversify_loop candidate_neighbor_vectors distance_to_query alpha
            max_candidates todo' retained_neighbor_indices
  end.

(** The whole function; scikit-learn rejects an array without rows. *)
Definition diversify (query_vector : list F)
    (candidate_neighbor_vectors : list (list F)) (alpha : F)
    (max_candidates : Z) : result (list nat) :=
  match candidate_neighbor_vectors with
  | [] => Raise ValueError
  | _ :: rest =>
      let distance_to_query :=
        map (cosine_distance query_vector) candidate_neighbor_vectors in
      diversify_loop candidate_neighbor_vectors distance_to_query alpha
        max_candidates (zip (seq 1 (length rest)) rest) [0]
  end.

(** ** Neighbour table of [TopicNaming.fit_clusters] (lines 431-437) *)

(** [pairwise_distances(layer, metric="cosine")]: the distances of the rows
    of one array to each other; scikit-learn sets the diagonal to zero. *)
Definition pairwise_distances (layer : list (list F)) : list (list F) :=
  imap (λ i x, imap (λ j y, if decide (i = j) then fzero
                             else cosine_distance x y) layer) layer.

(** The order [np.argsort] sorts by: [a] may stand before [b]. *)
Definition key_le (a b : nat * F) : Prop := fltb (snd b) (snd a) = false.

#[global] Instance key_le_dec a b : Decision (key_le a b).
Proof. unfold key_le. apply _. Defined.

(** [np.argsort(row)]: the indices of [row] in ascending order of value. *)
Definition argsort (row : list F) : list nat :=
  map fst (merge_sort key_le (zip (seq 0 (length row)) row)).

(** Lines 431-437 for one layer: [argsort(..., axis=1)[:, :16]]. *)
Definition layer_neighbours (layer : list (list F)) : result (list (list nat)) :=
  match layer with
  | [] => Raise ValueError
  | _ => Ok (map (λ row, take 16 (argsort row)) (pairwise_distances layer))
  end.

(** Lines 431-437: one neighbour table per layer of [vector_layers]. *)
Fixpoint layer_cluster_neighbours (vector_layers : list (list (list F)))
  : result (list (list (list nat))) :=
  match vector_layers with
  | [] => Ok []
  | layer :: layers =>
      t ← layer_neighbours layer;
      ts ← layer_cluster_neighbours layers;
      Ok (t :: ts)
  end.

End DiversitySelector.

(** Scikit-learn's cosine distance on double precision numbers: the rows
    are divided by their Euclidean norm (a zero norm counts as one), and
    one minus their dot product is clipped to the interval from 0 to 2. *)
Definition dot64 (x y : list float) : float :=
  fold_left (λ a p, (a + fst p * snd p)%float) (zip x y) 0%float.

Definition normalize64 (x : list float) : list float :=
  let n := PrimFloat.sqrt (dot64 x x) in
  let n := if PrimFloat.eqb n 0%float then 1%float else n in
  map (λ a, (a / n)%float) x.

Definition clip64 (lo hi x : float) : float :=
  if PrimFloat.ltb x lo then lo else if PrimFloat.ltb hi x then hi else x.

Definition cosine_distance64 (x y : list float) : float :=
  clip64 0%float 2%float (1 - dot64 (normalize64 x) (normalize64 y))%float.

(** ** [longest_keyphrases] (lines 205-216) *)

(** Python's [needle in hay] on strings. *)
Fixpoint starts_with (needle hay : string) : bool :=
  match needle, hay with
  | EmptyString, _ => true
  | String a needle', String b hay' =>
      if decide (a = b) then starts_with needle' hay' else false
  | String _ _, EmptyString => false
  end.

Fixpoint contains (needle hay : string) : bool :=
  starts_with needle hay ||
  match hay with
  | EmptyString => false
  | String _ hay' => contains needle hay'
  end.

(** Line 209: [f" {phrase}" in other or f"{phrase} " in other]. *)
Definition extended_by (phrase other : string) : bool :=
  contains (String " " phrase) other || contains (phrase +:+ " ") other.

Section LongestKeyphrases.
Context {A : Type} `{EqDecision A}.

(** The test of line 209, abstract in the section so that the loop can be
    studied for any relation between phrases. *)
Variable extends : A → A → bool.

(** Lines 208-210: the inner loop over the whole list. *)
Definition scan (candidate_keyphrases : list A) (phrase : A) : A :=
  fold_left (λ phrase other, if extends phrase other then other else phrase)
    candidate_keyphrases phrase.

(** Lines 207-214.  The list is mutated in place: [visited] are the slots
    before index [i] as they are now, [todo] the slots from [i] on.  The
    result pairs the list as the call leaves it with the returned list. *)
Fixpoint longest_keyphrases_loop (visited todo result : list A)
  : list A * list A :=
  match todo with
  | [] => (visited, result)
  | phrase0 :: todo' =>
      let phrase := scan (visited ++ todo) phrase0 in
      if decide (phrase ∈ result)
      then longest_keyphrases_loop (visited ++ [phrase0]) todo' result
      else longest_keyphrases_loop (visited ++ [phrase]) todo' (result ++ [phrase])
  end.

Definition longest_keyphrases_gen (candidate_keyphrases : list A)
  : list A * list A :=
  longest_keyphrases_loop [] candidate_keyphrases [].

End LongestKeyphrases.

(** The function on Python strings: the first component is the argument
    list after the call, the second the returned list. *)
Definition longest_keyphrases (candidate_keyphrases : list string)
  : list string * list string :=
  longest_keyphrases_gen extended_by candidate_keyphrases.

(** ** The Aggregator's result in the words of the specification

    The strength-weighted mean of the documents of a cluster, the
    documents of a cluster whose strength exceeds the threshold, and the
    finer labels of those documents, written as sums and filters over the
    documents of the cluster.  Part II compares them with what
    [layer_from_clustering] accumulates. *)

#[global] Instance numeric_inhabited `{Numeric F} : Inhabited F :=
  populate fzero.

Section AggregatorSpecification.
Context `{Numeric F}.
Variable labels : list Z.
Variable strengths : list F.
Variable base : list Z.
Variable threshold : F.

(** The documents before document [k] whose label is [c], in order. *)
Definition members_upto (k c : nat) : list nat :=
  filter (λ i, labels !! i = Some (Z.of_nat c)) (seq 0 k).

(** The documents whose label is [c]. *)
Definition members (c : nat) : list nat := members_upto (length labels) c.

(** The sum of [strength_i * row_i] over the documents [docs]. *)
Definition weighted_sum (m : matrix F) (docs : list nat) : list F :=
  foldl (λ row i, add_scaled (strengths !!! i) (rows m !!! i) row)
    (replicate (shape1 m) fzero) docs.

(** The sum of the strengths of the documents [docs]. *)
Definition total_strength (docs : list nat) : F :=
  foldl (λ t i, fadd t (strengths !!! i)) fzero docs.

Definition weighted_mean (m : matrix F) (docs : list nat) : list F :=
  div_row (total_strength docs) (weighted_sum m docs).

(** The documents of [docs] whose strength exceeds the threshold. *)
Definition confident (docs : list nat) : list nat :=
  filter (λ i, fgtb (strengths !!! i) threshold = true) docs.

(** The finer-layer labels of the documents [docs], without -1. *)
Definition finer_labels (docs : list nat) : gset Z :=
  list_to_set (filter (λ b, b ≠ (-1)%Z) ((λ i, base !!! i) <$> docs)).

End AggregatorSpecification.

(** ** Prompt construction: [fit_base_level_prompts] (lines 594-628) *)

Section BasePrompts.
(** The language model's tokenizer and context window:
    [llm.tokenize(text.encode('utf-8'))], [llm.detokenize], [llm.n_ctx()]. *)
Context {token : Type}.
Variable tokenize : string → list token.
Variable detokenize : list token → string.
Variable n_ctx : nat.

(** [self.build_base_prompt(cluster_id, layer_id, max_docs_per_cluster,
    max_adjacent_clusters, max_adjacent_docs)] for the fixed layer and
    adjacency arguments of the call. *)
Variable build_base_prompt : nat → Z → string.

(** Lines 323-334. *)
Definition trim_text (text : string) (token_trim_length : nat) : string :=
  detokenize (take token_trim_length (tokenize text)).

(** Lines 618-624: the [while] loop; [None] when the fuel runs out. *)
Fixpoint shrink_loop (fuel : nat) (cluster_id : nat)
    (reduced_docs_per_cluster : Z) (prompt : string) (prompt_length : nat)
  : option string :=
  if decide (n_ctx < prompt_length) then
    match fuel with
    | O => None
    | S fuel' =>
        let reduced_docs_per_cluster := (reduced_docs_per_cluster `div` 2)%Z in
        let prompt := build_base_prompt cluster_id reduced_docs_per_cluster in
        let prompt_length := length (tokenize prompt) in
        let prompt :=
          if decide (reduced_docs_per_cluster < 1)%Z
          then trim_text prompt n_ctx else prompt in
        shrink_loop fuel' cluster_id reduced_docs_per_cluster prompt
          prompt_length
    end
  else Some prompt.

(** Lines 615-625: the prompt of one cluster. *)
Definition base_prompt (fuel : nat) (max_docs_per_cluster : Z)
    (cluster_id : nat) : option string :=
  let prompt := build_base_prompt cluster_id max_docs_per_cluster in
  let prompt_length := length (tokenize prompt) in
  shrink_loop fuel cluster_id max_docs_per_cluster prompt prompt_length.

(** Lines 612-627: [self.base_layer_prompts_]; [fuel] bounds the number of
    iterations of each cluster's [while] loop. *)
Definition fit_base_level_prompts (fuel : nat) (layer_size : nat)
    (max_docs_per_cluster : Z) : option (list string) :=
  mapM (base_prompt fuel max_docs_per_cluster) (seq 0 layer_size).

End BasePrompts.

(** ** Python string methods used on topic names

    Strings are restricted to ASCII: [str.capitalize] changes the case of
    the letters [a]-[z] and [A]-[Z] only. *)

Definition code (c : ascii) : N := N_of_ascii c.

Definition between (lo hi : N) (c : ascii) : bool :=
  (lo <=? code c)%N && (code c <=? hi)%N.

(** The characters [str.split()] splits on. *)
Definition is_space (c : ascii) : bool :=
  between 9 13 c || between 28 32 c.

(** Membership in [string.punctuation + string.whitespace]. *)
Definition is_punctuation_or_whitespace (c : ascii) : bool :=
  between 33 47 c || between 58 64 c || between 91 96 c || between 123 126 c
  || between 9 13 c || (code c =? 32)%N.

Definition upper (c : ascii) : ascii :=
  if between 97 122 c then ascii_of_N (code c - 32) else c.

Definition lower (c : ascii) : ascii :=
  if between 65 90 c then ascii_of_N (code c + 32) else c.

(** [s.lstrip(chars)], [s.rstrip(chars)], [s.strip(chars)], with the set
    [chars] given as a test. *)
Fixpoint lstrip (chars : ascii → bool) (s : list ascii) : list ascii :=
  match s with
  | [] => []
  | c :: s' => if chars c then lstrip chars s' else s
  end.

Definition rstrip (chars : ascii → bool) (s : list ascii) : list ascii :=
  rev (lstrip chars (rev s)).

Definition strip (chars : ascii → bool) (s : list ascii) : list ascii :=
  rstrip chars (lstrip chars s).

(** [s.split()]: the maximal runs of non-space characters; [word] is the
    run being read, in reverse. *)
Fixpoint split_whitespace (word : list ascii) (s : list ascii)
  : list (list ascii) :=
  match s with
  | [] => match word with [] => [] | _ => [rev word] end
  | c :: s' =>
      if is_space c then
        match word with
        | [] => split_whitespace [] s'
        | _ => rev word :: split_whitespace [] s'
        end
      else split_whitespace (c :: word) s'
  end.

(** [w.capitalize()]. *)
Definition capitalize (w : list ascii) : list ascii :=
  match w with
  | [] => []
  | c :: w' => upper c :: map lower w'
  end.

(** [' '.join(words)]. *)
Fixpoint join_spaces (words : list (list ascii)) : list ascii :=
  match words with
  | [] => []
  | [w] => w
  | w :: words' => w ++ " "%char :: join_spaces words'
  end.

(** [string.capwords(s)]. *)
Definition capwords (s : list ascii) : list ascii :=
  join_spaces (map capitalize (split_whitespace [] s)).

(** [s.split("\n")[0]]. *)
Fixpoint first_line (s : list ascii) : list ascii :=
  match s with
  | [] => []
  | c :: s' => if (code c =? 10)%N then [] else c :: first_line s'
  end.

(** Lines 785 and 802:
    [string.capwords(name.strip(string.punctuation + string.whitespace))]. *)
Definition recap (name : string) : string :=
  string_of_list_ascii
    (capwords (strip is_punctuation_or_whitespace (list_ascii_of_string name))).

(** Lines 798-802: the name read off a completion of the language model. *)
Definition name_of_completion (text : string) : string :=
  let s := list_ascii_of_string text in
  let s :=
    if existsb (λ c, (code c =? 10)%N) s
    then first_line (lstrip (λ c, (code c =? 10)%N || (code c =? 32)%N) s)
    else s in
  recap (string_of_list_ascii s).

(** ** Slices and indices of Python lists *)

(** Python's [l[:n]]: a negative [n] counts from the end. *)
Definition slice_to {A} (n : Z) (l : list A) : list A :=
  if decide (0 ≤ n)%Z then take (Z.to_nat n) l
  else take (length l - Z.to_nat (- n)) l.

(** [l[z]] for a Python integer: a negative index counts from the end. *)
Definition get_z {A} (l : list A) (z : Z) : result A :=
  if decide (0 ≤ z)%Z then get l (Z.to_nat z)
  else if decide (- Z.of_nat (length l) ≤ z)%Z
       then get l (length l - Z.to_nat (- z))
       else Raise IndexError.

(** ** EvidenceSelectors: the topical selectors (lines 162-174, 270-283)
    and the remedy prompt (lines 311-321) *)

Section EvidenceSelectors.
Context `{Numeric F}.
Variable cosine_distance : list F → list F → F.

(** The floats 1.0, the default [alpha] of [diversify], and 0.66. *)
Variable alpha_default : F.
Variable alpha_066 : F.

(** [np.mean(a, axis=0)] of the rows of an array. *)
Variable mean_rows : list (list F) → list F.

(** Selector: the test of line 153 for candidate [i] against the retained
    candidate [j]. *)
Definition redundant (query_vector : list F)
    (candidate_neighbor_vectors : list (list F)) (alpha : F) (i j : nat)
  : bool :=
  fgtb (fmul alpha (cosine_distance query_vector
                      (candidate_neighbor_vectors !!! i)))
    (cosine_distance (candidate_neighbor_vectors !!! i)
       (candidate_neighbor_vectors !!! j)).

(** Lines 162-174. *)
Definition topical_sentences_for_cluster (docs : list string)
    (vector_array : list (list F)) (pointset : list nat)
    (centroid_vector : list F) (n_sentence_examples : Z)
  : result (list string) :=
  sentences ← take_rows docs pointset;
  sent_vectors ← take_rows vector_array pointset;
  match sent_vectors with
  | [] => Raise ValueError
  | _ =>
      let candidate_neighbor_indices :=
        argsort (map (cosine_distance centroid_vector) sent_vectors) in
      candidate_neighbors ← take_rows sent_vectors candidate_neighbor_indices;
      retained ← diversify cosine_distance centroid_vector
                   candidate_neighbors alpha_default 16;
      topical_sentence_indices ←
        take_rows candidate_neighbor_indices
          (slice_to n_sentence_examples retained);
      take_rows sentences topical_sentence_indices
  end.

(** [a.shape[0] == 0] for an array given by its rows. *)
Definition no_rows {A} (a : list A) : bool :=
  match a with
  | [] => true
  | _ => false
  end.

(** Lines 270-283.  [np.mean] of a selection without rows is a vector of
    NaN, and [pairwise_distances] raises [ValueError] for an array that
    holds NaN, as it does for an array without rows: the test before the
    ranking.  [selections] are the arrays [doc_vectors[base_layer_pointsets[n]]]. *)
Definition topical_subtopics_for_cluster (metacluster : list Z)
    (pointset : list nat) (doc_vectors : list (list F))
    (base_layer_topic_names : list string)
    (base_layer_pointsets : list (list nat)) (n_subtopics : Z)
  : result (list string) :=
  cluster_vectors ← take_rows doc_vectors pointset;
  let centroid_vector := mean_rows cluster_vectors in
  selections ←
    for_each metacluster
      (λ n sel, ps ← get_z base_layer_pointsets n;
                rows_ ← take_rows doc_vectors ps;
                Ok (sel ++ [rows_])) [];
  let subtopic_vectors := map mean_rows selections in
  if no_rows cluster_vectors || no_rows subtopic_vectors
     || existsb no_rows selections
  then Raise ValueError
  else
    let candidate_neighbor_indices :=
      slice_to (2 * n_subtopics)
        (argsort (map (cosine_distance centroid_vector) subtopic_vectors)) in
    candidate_neighbors ←
      take_rows subtopic_vectors candidate_neighbor_indices;
    retained ← diversify cosine_distance centroid_vector
                 candidate_neighbors alpha_066 n_subtopics;
    topical_subtopic_indices ←
      take_rows candidate_neighbor_indices retained;
    let topical_subtopic_indices :=
      slice_to n_subtopics topical_subtopic_indices in
    for_each topical_subtopic_indices
      (λ i names, n ← get metacluster i;
                  name ← get_z base_layer_topic_names n;
                  Ok (names ++ [name])) [].

(** [TopicNaming.get_topical_layers], lines 450-456: the comprehension over
    the layers and their clusters. *)
Definition get_topical_layers (documents : list string)
    (document_vectors : list (list F)) (c : cluster_layers F)
  : result (list (list (list string))) :=
  for_each (seq 0 (length (pointset_layers c)))
    (λ i layers,
       pointsets ← get (pointset_layers c) i;
       vectors ← get (vector_layers c) i;
       layer ←
         for_each (zip pointsets vectors)
           (λ '(pointset, cluster_vector) sentences,
              s ← topical_sentences_for_cluster documents document_vectors
                    pointset cluster_vector 16;
              Ok (sentences ++ [s])) [];
       Ok (layers ++ [layer])) [].

(** [TopicNaming.fit_subtopic_layers], lines 663-676: the topical
    subtopics of the clusters of the layers above the base layer. *)
Definition topical_subtopic_layers (document_vectors : list (list F))
    (base_layer_topics : list string) (c : cluster_layers F)
  : result (list (list (list string))) :=
  for_each (seq 1 (length (metacluster_layers c) - 1))
    (λ layer_num layers,
       metaclusters ← get (metacluster_layers c) layer_num;
       layer ←
         for_each (seq 0 (length metaclusters))
           (λ cluster_num subtopics,
              metaclusters ← get (metacluster_layers c) layer_num;
              metacluster ← get metaclusters cluster_num;
              pointsets ← get (pointset_layers c) layer_num;
              pointset ← get pointsets cluster_num;
              base_layer_pointsets ← get (pointset_layers c) 0;
              s ← topical_subtopics_for_cluster metacluster pointset
                    document_vectors base_layer_topics base_layer_pointsets
                    32;
              Ok (subtopics ++ [s])) [];
       Ok (layers ++ [layer])) [].

(** The line break character. *)
Definition newline : string := String (ascii_of_N 10) EmptyString.

(** [create_final_remedy_prompt] (lines 311-321).  [choice] is the draw of
    [np.random.choice(sentences, size=min(len(sentences), 64),
    replace=False)]: the selector returns at most 16 sentences, so the draw
    is an arrangement of all of them. *)
Definition create_final_remedy_prompt (choice : list string → list string)
    (original_topic_names : list string) (docs : list string)
    (vector_array : list (list F)) (pointset : list nat)
    (centroid_vector : list F) (doc_type corpus_type : string)
  : result string :=
  sentences ← topical_sentences_for_cluster docs vector_array pointset
                centroid_vector 64;
  let prompt_text :=
    "A set of " +:+ doc_type +:+ " from " +:+ corpus_type +:+
    " was described as having a topic of one of " +:+
    String.concat ", " original_topic_names +:+ "." +:+ newline in
  let prompt_text :=
    prompt_text +:+
    "These topic names were not specific enough and were shared with other different but similar groups of titles." +:+
    newline in
  let prompt_text :=
    prompt_text +:+
    "A sampling of titles from this specific set of titles includes:" +:+
    newline in
  let prompt_text :=
    fold_left (λ text sentence, text +:+ "- " +:+ sentence +:+ newline)
      (choice sentences) prompt_text in
  last_name ← get_z original_topic_names (-1);
  Ok (prompt_text +:+ newline +:+ newline +:+
      "The current name for this topic of these paragraphs is: " +:+
      last_name +:+ newline +:+
      "A better and more specific name that still captures the topic of these article titles is: ").

End EvidenceSelectors.


(** ** TopicDeduplicator: [TopicNaming.clean_topic_names] (lines 767-808) *)

(** What the pass settles for one cluster, the data of the message of line
    806: the layer [n], the cluster [i], the name from generation, the name
    that is committed and [n_attempts]. *)
Record commit : Type := Commit {
  layer : nat;
  cluster : nat;
  raw_name : string;
  committed_name : string;
  attempts : nat;
}.

(** The state of the pass: the set [unique_names], the arrays
    [self.layer_clusters], the number of completions the language model
    has returned, and the log of the clusters settled so far, in
    processing order. *)
Record dedup_state : Type := DedupState {
  unique_names : gset string;
  layer_clusters : list (list string);
  calls : nat;
  committed : list commit;
}.

Section TopicDeduplicator.
Context `{Numeric F}.
Variable cosine_distance : list F → list F → F.

(** The float 1.0, the default [alpha] of [diversify]. *)
Variable alpha_default : F.

(** The text of the completion the language model returns for a prompt, by
    the number of completions it has returned before. *)
Variable llm : nat → string → string.

(** The draw of [np.random.choice] in [create_final_remedy_prompt], by the
    number of completions the language model has returned before. *)
Variable choice : nat → list string → list string.

(** [self.documents], [self.document_vectors],
    [self.cluster_layers_.vector_layers], [self.document_type] and
    [self.corpus_description]. *)
Variable documents : list string.
Variable document_vectors : list (list F).
Variable vector_layers : list (list (list F)).
Variables (document_type corpus_description : string).

(** Lines 788-804: the [while] loop.  [fuel] counts the iterations left
    before [n_attempts] reaches 8.  The prompt is built from the topical
    sentences of the cluster, which raises for a pointset without
    documents, and from the centroid [vector_layers[n][i]]. *)
Fixpoint remedy_loop (fuel : nat) (names : gset string) (n i : nat)
    (indices : list nat) (unique_name : string)
    (original_topic_names : list string) (n_attempts calls : nat)
  : result (string * nat * nat) :=
  match fuel with
  | O => Ok (unique_name, n_attempts, calls)
  | S fuel' =>
      if bool_decide (unique_name ∈ names) && (n_attempts <? 8) then
        layer_vectors ← get vector_layers n;
        centroid_vector ← get layer_vectors i;
        prompt_text ←
          create_final_remedy_prompt cosine_distance alpha_default
            (choice calls) original_topic_names documents document_vectors
            indices centroid_vector document_type corpus_description;
        let unique_name := name_of_completion (llm calls prompt_text) in
        remedy_loop fuel' names n i indices unique_name
          (original_topic_names ++ [unique_name]) (S n_attempts) (S calls)
      else Ok (unique_name, n_attempts, calls)
  end.

(** Line 808: [a[indices] = v]. *)
Definition assign (a : list string) (indices : list nat) (v : string)
  : result (list string) :=
  for_each indices (λ j a, update a j (λ _, v)) a.

(** Lines 782-808: one cluster. *)
Definition clean_cluster (n : nat) (entry : nat * (string * list nat))
    (st : dedup_state) : result dedup_state :=
  let '(i, (name, indices)) := entry in
  let recapped_name := recap name in
  settled ← remedy_loop 8 (unique_names st) n i indices recapped_name
              [recapped_name] 0 (calls st);
  let '(unique_name, n_attempts, calls') := settled in
  labels ← get (layer_clusters st) n;
  labels ← assign labels indices unique_name;
  Ok {| unique_names := unique_names st ∪ {[unique_name]};
        layer_clusters := <[n:=labels]> (layer_clusters st);
        calls := calls';
        committed :=
          committed st ++ [Commit n i name unique_name n_attempts] |}.

(** Lines 779-808: one layer. *)
Definition clean_layer (topic_name_layers : list (list string))
    (pointset_layers : list (list (list nat))) (n : nat) (st : dedup_state)
  : result dedup_state :=
  names ← get topic_name_layers n;
  pointsets ← get pointset_layers n;
  let entries := zip names pointsets in
  for_each (zip (seq 0 (length entries)) entries) (clean_cluster n) st.

(** Lines 777-808, once [topic_name_layers_] exists; [n_docs] is
    [document_map.shape[0]]. *)
Definition clean_topic_names (n_docs : nat)
    (topic_name_layers : list (list string))
    (pointset_layers : list (list (list nat))) : result dedup_state :=
  let n_layers := length topic_name_layers in
  for_each (rev (seq 0 n_layers))
    (clean_layer topic_name_layers pointset_layers)
    {| unique_names := ∅;
       layer_clusters := replicate n_layers (replicate n_docs "Unlabelled");
       calls := 0;
       committed := [] |}.

End TopicDeduplicator.

(** ** Concrete collaborators and inputs

    Small instances of the collaborators, on which the definitions above
    are run in Part II. *)

(** [float(n)]. *)
Definition f64 (n : nat) : float :=
  PrimFloat.of_uint63 (Uint63.of_Z (Z.of_nat n)).

(** [int(np.quantile(sizes, 0.8))] with NumPy's default linear
    interpolation, computed in exact arithmetic: the value at position
    [0.8 * (n - 1)] of the sorted sizes, truncated. *)
Definition int_quantile_80 (sizes : list nat) : result Z :=
  match sizes with
  | [] => Raise ValueError
  | _ =>
      let sorted := merge_sort Nat.le sizes in
      let n := length sorted in
      let lo := (4 * (n - 1)) `div` 5 in
      let r := (4 * (n - 1)) `mod` 5 in
      let a := Z.of_nat (sorted !!! lo) in
      let b := Z.of_nat (sorted !!! Nat.min (lo + 1) (n - 1)) in
      Ok ((5 * a + (b - a) * Z.of_nat r) `div` 5)%Z
  end.

(** Twenty-five documents on a line; document [d] has the vector and the
    location [[d]]. *)
Definition line_points : matrix float :=
  Matrix 1 (map (λ d, [f64 d]) (seq 0 25)).

(** Documents 0 to 23 in groups of [width] consecutive documents, the last
    document unassigned. *)
Definition grouped (width : nat) : list Z :=
  map (λ d, Z.of_nat (d `div` width)) (seq 0 24) ++ [(-1)%Z].

(** A nested hierarchy: eight clusters of three documents, merging in
    pairs as the minimum cluster size grows; all strengths are one. *)
Definition nested_condense (min_cluster_size : Z) : list Z * list float :=
  let labels :=
    if decide (min_cluster_size ≤ 1)%Z then grouped 3
    else if decide (min_cluster_size ≤ 3)%Z then grouped 6
    else if decide (min_cluster_size ≤ 6)%Z then grouped 12
    else grouped 24 in
  (labels, replicate 25 1%float).

(** The same hierarchy with four clusters from size 2 and two clusters from
    size 3 on; in the two-cluster clustering only documents 0, 3, 12 and 15
    have a strength above the threshold. *)
Definition sparse_condense (min_cluster_size : Z) : list Z * list float :=
  if decide (min_cluster_size ≤ 1)%Z then (grouped 3, replicate 25 1%float)
  else if decide (min_cluster_size ≤ 2)%Z then (grouped 6, replicate 25 1%float)
  else if decide (min_cluster_size ≤ 5)%Z then
    (grouped 12,
     map (λ d, if bool_decide (d ∈ [0; 3; 12; 15]) then 1%float
               else 0.125%float) (seq 0 25))
  else (grouped 24, replicate 25 1%float).

(** The builder on these collaborators, with [min_clusters=2],
    [base_min_cluster_size=1] and the default threshold 0.2. *)
Definition nested_run (fuel : nat) : option (result (cluster_layers float)) :=
  build_cluster_layers nested_condense int_quantile_80 line_points
    line_points 2 1 0.2%float fuel.

Definition sparse_run (fuel : nat) : option (result (cluster_layers float)) :=
  build_cluster_layers sparse_condense int_quantile_80 line_points
    line_points 2 1 0.2%float fuel.

(** Two documents on a line, both assigned: cluster 0 and cluster 1. *)
Definition two_points : matrix float := Matrix 1 [[1%float]; [3%float]].

(** The scenario of the diversity selector: the query, three candidates
    (the first equal to the query), [alpha=1.0]. *)
Definition scenario_query : list float := [1%float; 0%float].

Definition scenario_candidates : list (list float) :=
  [[1%float; 0%float]; [0.99%float; 0.01%float]; [(-1)%float; 0%float]].


(** A language model that answers every remedy prompt with the same name,
    and one that answers with a fresh name. *)
Definition stubborn_llm (calls : nat) (prompt : string) : string :=
  "Research".

Definition helpful_llm (calls : nat) (prompt : string) : string :=
  "research methods".

(** The draw that keeps the sentences in their order. *)
Definition in_order (calls : nat) (sentences : list string) : list string :=
  sentences.

(** One layer of two clusters, both named Research by generation, over two
    documents. *)
Definition research_layers : list (list string) := [["Research"; "Research"]].

Definition research_pointsets : list (list (list nat)) := [[[0]; [1]]].

Definition research_documents : list string :=
  ["Methods of research"; "Research in practice"].

Definition research_vectors : list (list float) :=
  [[1%float; 0%float]; [0%float; 1%float]].

Definition research_centroids : list (list (list float)) :=
  [[[1%float; 0%float]; [0%float; 1%float]]].

(** A tokenizer with one token per character, and a prompt builder whose
    text grows by one line per document; without any document the prompt
    has sixteen characters. *)
Definition char_tokenize (text : string) : list ascii :=
  list_ascii_of_string text.

Definition char_detokenize (tokens : list ascii) : string :=
  string_of_list_ascii tokens.

Fixpoint doc_lines (n : nat) : string :=
  match n with
  | O => EmptyString
  | S n' => " - doc" +:+ doc_lines n'
  end.

Definition line_prompt (cluster_id : nat) (max_docs_per_cluster : Z) : string :=
  "Name this group:" +:+ doc_lines (Z.to_nat max_docs_per_cluster).

(** The layers the two runs return (three iterations of the loop). *)
Definition no_layers : cluster_layers float := ClusterLayers [] [] [] [] [].

Definition nested_result : cluster_layers float :=
  Eval vm_compute in
    match nested_run 3 with Some (Ok c) => c | _ => no_layers end.

Definition sparse_result : cluster_layers float :=
  Eval vm_compute in
    match sparse_run 3 with Some (Ok c) => c | _ => no_layers end.

(** Three candidates that the selector retains for the query [[1, 1]]. *)
Definition spread_query : list float := [1%float; 1%float].

Definition spread_candidates : list (list float) :=
  [[1%float; 0%float]; [0%float; 1%float]; [1%float; 1%float]].

(** Four titles, their vectors, and a pointset of three of them. *)
Definition title_docs : list string :=
  ["on cats"; "on dogs"; "on birds"; "on fish"].

Definition title_vectors : list (list float) :=
  [[1%float; 0%float]; [0%float; 1%float]; [1%float; 1%float];
   [(-1)%float; 0%float]].

Definition title_pointset : list nat := [2; 0; 1].

(** [np.mean(a, axis=0)] on binary64 rows. *)
Definition mean_rows64 (a : list (list float)) : list float :=
  match a with
  | [] => []
  | row :: rows_ =>
      map (λ x, (x / PrimFloat.of_uint63 (Uint63.of_Z (Z.of_nat (length a))))%float)
        (foldl (zip_with PrimFloat.add) row rows_)
  end.

(** Three base topics over the four titles, and a cluster that holds all
    of them. *)
Definition animal_topics : list string := ["Cats"; "Dogs"; "Wildlife"].

Definition animal_pointsets : list (list nat) := [[0]; [1]; [2; 3]].

Definition animal_metacluster : list Z := [0; 1; 2]%Z.

Definition animal_pointset : list nat := [0; 1; 2; 3].

(** The 25 documents of the line, named by the letters A to Y. *)
Definition line_documents : list string :=
  map (λ d, String (ascii_of_nat (65 + d)) EmptyString) (seq 0 25).

(** Names for the eight base clusters of the nested hierarchy. *)
Definition group_topics : list string :=
  ["Topic A"; "Topic B"; "Topic C"; "Topic D"; "Topic E"; "Topic F";
   "Topic G"; "Topic H"].

(** ** Predicates used in Part II

    Invariants of the loops above and the properties the theorems state. *)

(** Aggregator: every member of a metacluster set is a label of
    [base_clusters] other than -1. *)
Definition from_base {F} (base_clusters : list Z) (acc : accumulators F)
  : Prop :=
  Forall (λ s : gset Z, ∀ m, m ∈ s → m ∈ base_clusters ∧ m ≠ (-1)%Z)
    (metaclusters acc).

(** Aggregator: the accumulators after the documents before [k]; slot [c]
    holds the sums over the documents of cluster [c] seen so far. *)
Definition aggregated `{Numeric F} (point_vectors point_locations : matrix F)
    (labels : list Z) (strengths : list F) (base : list Z) (threshold : F)
    (n k : nat) (acc : accumulators F) : Prop :=
  ∀ c, c < n →
    average_vectors acc !! c
      = Some (weighted_sum strengths point_vectors (members_upto labels k c)) ∧
    average_locations acc !! c
      = Some (weighted_sum strengths point_locations
                (members_upto labels k c)) ∧
    total_weights acc !! c
      = Some (total_strength strengths (members_upto labels k c)) ∧
    pointsets acc !! c
      = Some (list_to_set
                (confident strengths threshold (members_upto labels k c))) ∧
    metaclusters acc !! c
      = Some (finer_labels base
                (confident strengths threshold (members_upto labels k c))).

(** Builder: what the loop keeps true of the layers built so far.  The
    metacluster sets hold labels of [base_clusters], those of the layers
    after the first have two members or more, and the first layer was
    aggregated from [base_clusters]. *)
Definition refer_to_base {F} (base_clusters : list Z) (c : cluster_layers F)
  : Prop :=
  Forall (Forall (Forall (λ m, m ∈ base_clusters ∧ m ≠ (-1)%Z)))
    (metacluster_layers c).

Definition coarse_merge {F} (c : cluster_layers F) : Prop :=
  Forall (Forall (λ cluster : list Z, 2 ≤ length cluster ∧ NoDup cluster))
    (drop 1 (metacluster_layers c)).

Definition builder_invariant {F} (base_clusters : list Z) (base_layer : bool)
    (clusters : list Z) (c : cluster_layers F) : Prop :=
  (if base_layer
   then clusters = base_clusters ∧ metacluster_layers c = [] ∧
        label_layers c = []
   else metacluster_layers c ≠ [] ∧ head (label_layers c) = Some base_clusters)
  ∧ refer_to_base base_clusters c ∧ coarse_merge c.

(** Selector: what the loop keeps true of the retained indices before it
    looks at candidate [k]. *)
Definition retained_ok (k : nat) (retained : list nat) : Prop :=
  head retained = Some 0 ∧ StronglySorted lt retained ∧
  Forall (λ j, j < k) retained.

(** Keyphrases: what the outer loop keeps true.  The returned phrases are
    distinct, stand in the visited part of the list, and are extended by
    no phrase of the list as it is now. *)
Definition keyphrase_invariant {A} (extends : A → A → bool)
    (visited todo result : list A) : Prop :=
  NoDup result ∧
  (∀ r, r ∈ result → r ∈ visited) ∧
  (∀ r o, r ∈ result → o ∈ visited ++ todo → extends r o = false).

(** Deduplicator: what the pass guarantees for one cluster, given the set
    [names] of the names committed before it. *)
Definition commit_ok (names : gset string) (e : commit) : Prop :=
  attempts e ≤ 8 ∧
  (attempts e < 8 → committed_name e ∉ names) ∧
  (recap (raw_name e) ∈ names → 1 ≤ attempts e) ∧
  (recap (raw_name e) ∉ names →
   committed_name e = recap (raw_name e) ∧ attempts e = 0).

(** The names in use after the clusters of a log have been settled. *)
Definition names_after (names : gset string) (log : list commit)
  : gset string :=
  names ∪ list_to_set (committed_name <$> log).

(** Every entry of a log is right for the names in use when it was made. *)
Fixpoint log_ok (names : gset string) (log : list commit) : Prop :=
  match log with
  | [] => True
  | e :: log' =>
      commit_ok names e ∧ log_ok (names ∪ {[committed_name e]}) log'
  end.

(** The arrays [self.layer_clusters]: one per layer, one slot per
    document. *)
Definition labels_ok (n_layers n_docs : nat) (st : dedup_state) : Prop :=
  length (layer_clusters st) = n_layers ∧
  Forall (λ a, length a = n_docs) (layer_clusters st).

(** The clusters of layer [n] in the order the pass visits them, and the
    entries it logs for them. *)
Definition layer_entries (names : list string) (pointsets : list (list nat))
  : list (nat * (string * list nat)) :=
  zip (seq 0 (length (zip names pointsets))) (zip names pointsets).

Definition logged (n : nat) (entries : list (nat * (string * list nat)))
    (log : list commit) : Prop :=
  Forall2 (λ entry e, layer e = n ∧ cluster e = entry.1 ∧
                      raw_name e = entry.2.1) entries log.

(** Aggregator: the five accumulator arrays have [n] slots. *)
Definition sized {F} (n : nat) (acc : accumulators F) : Prop :=
  length (average_vectors acc) = n ∧ length (average_locations acc) = n ∧
  length (total_weights acc) = n ∧ length (pointsets acc) = n ∧
  length (metaclusters acc) = n.

(** Builder: layer by layer, the four lists describe the same number of
    clusters. *)
Definition aligned {F} (c : cluster_layers F) : Prop :=
  length <$> vector_layers c = length <$> metacluster_layers c ∧
  length <$> location_layers c = length <$> metacluster_layers c ∧
  length <$> pointset_layers c = length <$> metacluster_layers c.



(** Deduplicator: what a remedy prompt for cluster [i] of layer [n] needs.
    The pointset has a document, its documents are rows of the document
    arrays, and the layer has a centroid for the cluster. *)
Definition remedy_ready {F} (documents : list string)
    (document_vectors : list (list F)) (vector_layers : list (list (list F)))
    (n i : nat) (indices : list nat) : Prop :=
  indices ≠ [] ∧
  Forall (λ d, d < length documents) indices ∧
  Forall (λ d, d < length document_vectors) indices ∧
  is_Some (vector_layers !! n ≫= (.!! i)).

(** ** Further functions of the file *)

(** Aggregator: the members of a pointset carry the cluster's label and a
    strength above the threshold, and the members of a metacluster set are
    the finer labels of documents of the pointset. *)
Definition members_sound `{Numeric F} (labels : list Z) (strengths : list F)
    (base : list Z) (threshold : F) (acc : accumulators F) : Prop :=
  (∀ c s i, pointsets acc !! c = Some s → i ∈ s →
     labels !! i = Some (Z.of_nat c) ∧
     ∃ w, strengths !! i = Some w ∧ fgtb w threshold = true) ∧
  (∀ c ms m, metaclusters acc !! c = Some ms → m ∈ ms →
     m ≠ (-1)%Z ∧
     ∃ ps i, pointsets acc !! c = Some ps ∧ i ∈ ps ∧ base !! i = Some m).

(** Builder: the pointsets of one layer belong to clusters with increasing
    labels [ids] of the flat clustering [labels]; each lists documents
    with that label, without repetition. *)
Definition layer_pointsets_ok (labels : list Z) (layer : list (list nat))
  : Prop :=
  ∃ ids : list nat,
    StronglySorted lt ids ∧
    Forall2 (λ c ps, NoDup ps ∧ ∀ d, d ∈ ps → labels !! d = Some (Z.of_nat c))
      ids layer.

(** ** [TopicNaming.fit_clusters] (lines 417-438) *)

Section FitClusters.
Context `{Numeric F}.
Variable condense : Z → list Z * list F.
Variable int_quantile : list nat → result Z.
Variable cosine_distance : list F → list F → F.
Variables (document_vectors document_map : matrix F).

(** The default [membership_strength_threshold=0.2] of
    [build_cluster_layers]. *)
Variable default_threshold : F.

(** The layers and [layer_cluster_neighbours], the fields of the
    [ClusterLayers] object the method stores; [None] when the builder's
    loop runs out of fuel. *)
Definition fit_clusters (base_min_cluster_size min_clusters : Z)
    (fuel : nat)
  : option (result (cluster_layers F * list (list (list nat)))) :=
  match
    build_cluster_layers condense int_quantile document_vectors document_map
      min_clusters base_min_cluster_size default_threshold fuel
  with
  | None => None
  | Some (Raise e) => Some (Raise e)
  | Some (Ok c) =>
      Some (neighbours ←
              layer_cluster_neighbours cosine_distance (vector_layers c);
            Ok (c, neighbours))
  end.

End FitClusters.

(** Builder: the pointset of a cluster lists documents, and is not empty
    when the metacluster of the cluster is not. *)
Definition evidence_ok {F} (n_points : nat) (c : cluster_layers F) : Prop :=
  Forall2 (Forall2 (λ (ps : list nat) (ms : list Z),
                      Forall (λ d, d < n_points) ps ∧ (ms ≠ [] → ps ≠ [])))
    (pointset_layers c) (metacluster_layers c).

(** Builder: every label of [base_clusters] that is not negative is the
    number of a cluster of the first layer. *)
Definition base_in_range {F} (base_clusters : list Z) (c : cluster_layers F)
  : Prop :=
  ∀ base_pointsets, pointset_layers c !! 0 = Some base_pointsets →
    Forall (λ m, (0 ≤ m)%Z → Z.to_nat m < length base_pointsets)
      base_clusters.

(** ** TopicDeduplicator: reading the log and the labels *)

(** The pointset of the cluster that an entry of the log stands for. *)
Definition indices_of (pointset_layers : list (list (list nat))) (e : commit)
  : list nat :=
  default [] (pointset_layers !! layer e ≫= (.!! cluster e)).

(** The label of document [d] in layer [n] according to a log: the name of
    the last logged cluster of the layer that holds the document. *)
Definition label_of (pointset_layers : list (list (list nat)))
    (log : list commit) (n d : nat) : string :=
  foldl (λ label e,
           if bool_decide (layer e = n ∧ d ∈ indices_of pointset_layers e)
           then committed_name e else label)
    "Unlabelled" log.

(** A name that [string.capwords] leaves as it is. *)
Definition normalised (name : string) : Prop :=
  capwords (list_ascii_of_string name) = list_ascii_of_string name.

(** A word as [str.split()] returns it. *)
Definition word (w : list ascii) : Prop :=
  w ≠ [] ∧ Forall (λ c, is_space c = false) w.

(** ** [TopicNaming.get_topic_name] (lines 630-642) *)

(** [llm] gives the text of a completion by the number of completions
    returned before, as in the deduplicator. *)
Definition get_topic_name (llm : nat → string → string) (calls : nat)
    (prompt_layer : list string) : list string :=
  imap (λ i prompt, name_of_completion (llm (calls + i) prompt)) prompt_layer.

(** Aggregator: the pointsets list rows of the document arrays. *)
Definition pointsets_in_rows {F} (n_points : nat) (acc : accumulators F)
  : Prop :=
  Forall (λ s : gset nat, ∀ i, i ∈ s → i < n_points) (pointsets acc).

(** * Part II: properties *)

(** ** Loops, lookups and updates *)

Section Combinators.
Context {A S : Type}.

Lemma get_Ok (l : list A) i x : get l i = Ok x ↔ l !! i = Some x.
Proof. unfold get. destruct (l !! i); split; congruence. Qed.

Lemma get_Raise (l : list A) i e :
  get l i = Raise e ↔ length l ≤ i ∧ e = IndexError.
Proof.
  unfold get. destruct (l !! i) eqn:E.
  - apply lookup_lt_Some in E. split; [congruence | lia].
  - apply lookup_ge_None in E.
    split; [intros [= <-]; auto | intros [_ ->]; auto].
Qed.

Lemma update_Ok (l l' : list A) i f :
  update l i f = Ok l' ↔ ∃ x, l !! i = Some x ∧ l' = <[i:=f x]> l.
Proof.
  unfold update, get. destruct (l !! i); simpl.
  - split; [intros [= <-]; eauto | intros (? & [= <-] & ->); auto].
  - split; [discriminate | intros (? & ? & _); discriminate].
Qed.

Lemma update_Raise (l : list A) i f e :
  update l i f = Raise e ↔ length l ≤ i ∧ e = IndexError.
Proof.
  unfold update. destruct (get l i) eqn:E; simpl.
  - apply get_Ok, lookup_lt_Some in E. split; [discriminate | lia].
  - apply get_Raise in E as [? ->].
    split; [intros [= <-]; auto | intros [_ ->]; auto].
Qed.

Lemma update_length (l l' : list A) i f :
  update l i f = Ok l' → length l' = length l.
Proof. intros (x & _ & ->)%update_Ok. apply length_insert. Qed.

Lemma for_each_cons (x : A) (l : list A) (body : A → S → result S) s :
  for_each (x :: l) body s = (s' ← body x s; for_each l body s').
Proof. reflexivity. Qed.

Lemma for_each_app (l1 l2 : list A) (body : A → S → result S) s :
  for_each (l1 ++ l2) body s = (s' ← for_each l1 body s; for_each l2 body s').
Proof.
  revert s. induction l1 as [|x l1 IH]; intros s; simpl; [done|].
  destruct (body x s); simpl; auto.
Qed.

(** An invariant that every iteration keeps holds after the loop. *)
Lemma for_each_invariant (P : S → Prop) (l : list A) body s s' :
  (∀ x t t', x ∈ l → P t → body x t = Ok t' → P t') →
  P s → for_each l body s = Ok s' → P s'.
Proof.
  revert s. induction l as [|x l IH]; intros s Hstep Hs; simpl.
  - by intros [= <-].
  - destruct (body x s) as [t|] eqn:E; simpl; [|discriminate].
    apply IH; [|eapply Hstep; eauto; left].
    intros y u u' Hy. apply Hstep. by right.
Qed.

(** If some iteration must fail under the invariant, and [e] is the only
    exception an iteration can raise, the loop raises [e]. *)
Lemma for_each_raises (P : S → Prop) (l : list A) body s e :
  (∀ x t t', x ∈ l → P t → body x t = Ok t' → P t') →
  (∀ x t e', body x t = Raise e' → e' = e) →
  (∃ x, x ∈ l ∧ ∀ t, P t → body x t = Raise e) →
  P s → for_each l body s = Raise e.
Proof.
  revert s. induction l as [|x l IH]; intros s Hstep Hexn (y & Hy & Hfail) Hs.
  - by apply elem_of_nil in Hy.
  - simpl. destruct (body x s) as [t|e'] eqn:E; simpl.
    + apply elem_of_cons in Hy as [->|Hy].
      * rewrite (Hfail s Hs) in E. discriminate.
      * apply IH; eauto.
        -- intros z u u' Hz. apply Hstep. by right.
        -- eapply Hstep; eauto. left.
    + f_equal. eauto.
Qed.

End Combinators.

(** Inversion of a bind in the [result] monad. *)
Lemma bind_Ok {A B} (r : result A) (f : A → result B) b :
  (x ← r; f x) = Ok b ↔ ∃ a, r = Ok a ∧ f a = Ok b.
Proof.
  unfold mbind, result_bind. destruct r as [a|e]; simpl; split.
  - eauto.
  - by intros (a' & [= <-] & ?).
  - discriminate.
  - by intros (? & ? & _).
Qed.

Lemma bind_Raise {A B} (r : result A) (f : A → result B) e :
  (x ← r; f x) = Raise e ↔ r = Raise e ∨ ∃ a, r = Ok a ∧ f a = Raise e.
Proof.
  unfold mbind, result_bind. destruct r as [a|e']; simpl; split.
  - eauto.
  - by intros [?|(a' & [= <-] & ?)].
  - intros [= ->]. by left.
  - intros [[= ->]|(? & ? & _)]; [done | discriminate].
Qed.

(** ** Aggregator *)

(** Case analysis on the next lookup or update of a monadic body. *)
Ltac step_result :=
  match goal with
  | |- context [get ?l ?i] =>
      let E := fresh "E" in destruct (get l i) eqn:E; simpl
  | |- context [update ?l ?i ?f] =>
      let E := fresh "E" in destruct (update l i f) eqn:E; simpl
  | |- context [decide ?P] => destruct (decide P); simpl
  | |- context [fgtb ?a ?b] =>
      let E := fresh "E" in destruct (fgtb a b) eqn:E; simpl
  end.

Ltac index_error :=
  match goal with
  | H : get _ _ = Raise _ |- _ => apply get_Raise in H as [? ->]
  | H : update _ _ _ = Raise _ |- _ => apply update_Raise in H as [? ->]
  end.

Section AggregatorFacts.
Context `{Numeric F}.
Variables (point_vectors point_locations : matrix F).
Variable cluster_label_vector : list Z.
Variable cluster_membership_vector : list F.
Variable base_clusters : list Z.
Variable membership_strength_threshold : F.

Local Notation "'accumulate_'" :=
  (accumulate point_vectors point_locations cluster_label_vector
     cluster_membership_vector base_clusters membership_strength_threshold).

(** [IndexError] is the only exception an iteration raises. *)
Lemma accumulate_exn i acc e : accumulate_ i acc = Raise e → e = IndexError.
Proof.
  unfold accumulate, record_member.
  repeat step_result; intros [= <-]; repeat index_error; done.
Qed.

(** An iteration keeps the size of the accumulator arrays. *)
Lemma accumulate_length i acc acc' :
  accumulate_ i acc = Ok acc' →
  length (average_vectors acc') = length (average_vectors acc).
Proof.
  unfold accumulate, record_member.
  repeat step_result; intros [= <-]; simpl; eauto using update_length.
Qed.

(** A document whose label does not index the accumulator arrays stops the
    loop. *)
Lemma accumulate_out_of_bounds i c acc :
  cluster_label_vector !! i = Some c → (0 ≤ c)%Z →
  length (average_vectors acc) ≤ Z.to_nat c →
  accumulate_ i acc = Raise IndexError.
Proof.
  intros Hi Hc Hlen. unfold accumulate.
  apply get_Ok in Hi. rewrite Hi. simpl.
  destruct (decide (0 ≤ c)%Z); [|done].
  repeat step_result; repeat index_error; try done.
  match goal with
  | Hu : update (average_vectors acc) _ _ = Ok _ |- _ =>
      apply update_Ok in Hu as (? & ?%lookup_lt_Some & _); lia
  end.
Qed.

End AggregatorFacts.

(** Among [k] distinct natural numbers one is at least [k - 1]. *)
Lemma size_le_bound (s : gset Z) (n : nat) :
  (∀ c, c ∈ s → (0 ≤ c < Z.of_nat n)%Z) → size s ≤ n.
Proof.
  intros Hs.
  assert (Hsub : s ⊆ list_to_set (Z.of_nat <$> seq 0 n)).
  { intros c Hc. apply elem_of_list_to_set, list_elem_of_fmap.
    exists (Z.to_nat c). destruct (Hs c Hc).
    split; [lia | apply elem_of_seq; lia]. }
  apply subseteq_size in Hsub.
  rewrite size_list_to_set in Hsub.
  - by rewrite length_fmap, length_seq in Hsub.
  - apply NoDup_fmap; [apply _ | apply NoDup_seq].
Qed.

Lemma label_beyond_count (labels : list Z) :
  labels ≠ [] → Forall (λ c, (0 ≤ c)%Z) labels →
  ∃ i c, labels !! i = Some c ∧ (n_clusters_of labels ≤ c)%Z.
Proof.
  intros Hne Hpos. unfold n_clusters_of.
  set (s := list_to_set labels : gset Z).
  destruct (decide (Exists (λ c, (Z.of_nat (size s) - 1 ≤ c)%Z) labels))
    as [Hex|Hall].
  - apply Exists_exists in Hex as (c & Hc & Hle).
    apply list_elem_of_lookup in Hc as [i Hi]. eauto.
  - apply not_Exists_Forall in Hall; [|intros; apply _].
    exfalso. assert (size s ≠ 0).
    { destruct labels as [|c labels]; [done|].
      apply size_non_empty_iff. intros Hs.
      apply (not_elem_of_empty (C:=gset Z) c). rewrite <- Hs.
      apply elem_of_list_to_set. left. }
    assert (size s ≤ size s - 1); [|lia].
    apply size_le_bound. intros c Hc. subst s.
    apply elem_of_list_to_set in Hc.
    rewrite Forall_forall in Hall, Hpos.
    specialize (Hall c Hc). specialize (Hpos c Hc). simpl in Hall. lia.
Qed.

(** C10: [n_clusters] is the number of distinct labels minus one, so when
    every document is assigned (no label is negative) the accumulator
    arrays have one slot less than there are clusters: some document's
    label is at least [n_clusters], and the loop reaches the out-of-bounds
    write, the branch [Raise IndexError].  (Without any document the array
    size is negative and [np.zeros] raises.) *)
Theorem all_assigned_out_of_bounds `{Numeric F}
    (point_vectors point_locations : matrix F) (labels : list Z)
    (strengths : list F) (base_clusters : list Z) (threshold : F) :
  Forall (λ c, (0 ≤ c)%Z) labels →
  n_clusters_of labels
    = (Z.of_nat (size (list_to_set labels : gset Z)) - 1)%Z ∧
  (labels ≠ [] →
   ∃ i c, labels !! i = Some c ∧ (n_clusters_of labels ≤ c)%Z) ∧
  layer_from_clustering point_vectors point_locations labels strengths
    base_clusters threshold
  = Raise (match labels with [] => ValueError | _ => IndexError end).
Proof.
  intros Hpos. split; [done|]. split; [intros; by apply label_beyond_count|].
  unfold layer_from_clustering.
  destruct labels as [|c0 labels']; [done|].
  set (labels := c0 :: labels') in *.
  destruct (label_beyond_count labels) as (i & c & Hi & Hc); [done..|].
  destruct (decide (n_clusters_of labels < 0)%Z) as [Hneg|Hn].
  { exfalso. unfold n_clusters_of in Hneg.
    assert (size (list_to_set labels : gset Z) ≠ 0); [|lia].
    apply size_non_empty_iff. intros Hs.
    apply (not_elem_of_empty (C:=gset Z) c0). rewrite <- Hs.
    apply elem_of_list_to_set. left. }
  erewrite (for_each_raises
    (λ acc, length (average_vectors acc) = Z.to_nat (n_clusters_of labels)));
    [done|..].
  - intros x t t' _ Ht Hx. apply accumulate_length in Hx. congruence.
  - intros x t e'. apply accumulate_exn.
  - exists i. split.
    + apply elem_of_seq. apply lookup_lt_Some in Hi. lia.
    + intros t Ht. eapply accumulate_out_of_bounds; eauto.
      * rewrite Forall_forall in Hpos. apply Hpos.
        eapply list_elem_of_lookup_2; eauto.
      * lia.
  - simpl. by rewrite length_replicate.
Qed.

(** The theorem at two documents in clusters 0 and 1. *)
Lemma all_assigned_out_of_bounds_witness :
  Forall (λ c, (0 ≤ c)%Z) [0; 1]%Z ∧
  layer_from_clustering two_points two_points [0; 1]%Z [1; 1]%float
    [0; 1]%Z 0.2%float = Raise IndexError.
Proof.
  assert (Hpos : Forall (λ c, (0 ≤ c)%Z) [0; 1]%Z)
    by (repeat constructor; lia).
  split; [exact Hpos|].
  exact (proj2 (proj2 (all_assigned_out_of_bounds two_points two_points
    [0; 1]%Z [1; 1]%float [0; 1]%Z 0.2%float Hpos))).
Defined.

(** C1, the failing input: two documents, both assigned, in clusters 0 and
    1.  The arrays get one slot and the write for cluster 1 is out of
    bounds, so no centroid is returned. *)
Theorem aggregator_fails_without_noise :
  layer_from_clustering two_points two_points [0; 1]%Z [1; 1]%float
    [0; 1]%Z 0.2%float = Raise IndexError.
Proof. vm_compute. reflexivity. Qed.

(** ** The Aggregator computes the weighted means of the specification *)

Lemma update_lookup_Some {A} (l : list A) i f x :
  l !! i = Some x → update l i f = Ok (<[i:=f x]> l).
Proof. intros Hx. unfold update. apply get_Ok in Hx. by rewrite Hx. Qed.

Lemma get_lookup_total `{Inhabited A} (l : list A) i :
  i < length l → get l i = Ok (l !!! i).
Proof. intros Hi. apply get_Ok. by apply list_lookup_lookup_total_lt. Qed.

Section AggregatorMeans.
Context `{Numeric F}.
Variables (point_vectors point_locations : matrix F).
Variable labels : list Z.
Variable strengths : list F.
Variable base : list Z.
Variable threshold : F.

Local Notation "'members_upto_'" := (members_upto labels).
Local Notation "'weighted_sum_'" := (weighted_sum strengths).
Local Notation "'total_strength_'" := (total_strength strengths).
Local Notation "'confident_'" := (confident strengths threshold).
Local Notation "'finer_labels_'" := (finer_labels base).
Local Notation "'aggregated_'" :=
  (aggregated point_vectors point_locations labels strengths base threshold).

Lemma members_upto_S k c :
  members_upto_ (S k) c
  = members_upto_ k c ++
    (if decide (labels !! k = Some (Z.of_nat c)) then [k] else []).
Proof.
  unfold members_upto. by rewrite seq_S, filter_app, filter_cons, filter_nil.
Qed.

Lemma weighted_sum_snoc m docs i :
  weighted_sum_ m (docs ++ [i])
  = add_scaled (strengths !!! i) (rows m !!! i) (weighted_sum_ m docs).
Proof. unfold weighted_sum. by rewrite foldl_snoc. Qed.

Lemma total_strength_snoc docs i :
  total_strength_ (docs ++ [i])
  = fadd (total_strength_ docs) (strengths !!! i).
Proof. unfold total_strength. by rewrite foldl_snoc. Qed.

Lemma confident_snoc docs i :
  confident_ (docs ++ [i])
  = confident_ docs ++
    (if fgtb (strengths !!! i) threshold then [i] else []).
Proof.
  unfold confident. rewrite filter_app, filter_cons, filter_nil.
  destruct (fgtb _ _); [by rewrite decide_True|by rewrite decide_False].
Qed.

Lemma finer_labels_snoc docs i :
  finer_labels_ (docs ++ [i])
  = finer_labels_ docs ∪
    (if decide (base !!! i ≠ (-1)%Z) then {[base !!! i]} else ∅).
Proof.
  unfold finer_labels. rewrite fmap_app, filter_app, list_to_set_app_L.
  f_equal. simpl. rewrite filter_cons, filter_nil.
  destruct (decide _); simpl; set_solver.
Qed.

Hypothesis strengths_length : length strengths = length labels.
Hypothesis vectors_length : length (rows point_vectors) = length labels.
Hypothesis locations_length : length (rows point_locations) = length labels.
Hypothesis base_length : length base = length labels.

Lemma aggregated_empty n :
  aggregated_ n 0
    (empty_accumulators n (shape1 point_vectors) (shape1 point_locations)).
Proof using Type.
  intros c Hc. unfold empty_accumulators. simpl.
  rewrite !lookup_replicate_2 by done. done.
Qed.

Lemma accumulate_aggregated n k acc :
  Forall (λ c, (c < Z.of_nat n)%Z) labels →
  k < length labels →
  aggregated_ n k acc →
  ∃ acc',
    accumulate point_vectors point_locations labels strengths base threshold
      k acc = Ok acc' ∧
    aggregated_ n (S k) acc'.
Proof using strengths_length vectors_length locations_length base_length.
  intros Hlabels Hk Hacc.
  destruct (lookup_lt_is_Some_2 labels k Hk) as [cl Hcl].
  unfold accumulate. apply get_Ok in Hcl as Hg. rewrite Hg. simpl.
  destruct (decide (0 ≤ cl)%Z) as [Hpos|Hneg].
  2:{ exists acc. split; [done|]. intros c Hc.
      rewrite members_upto_S, decide_False, app_nil_r; [by apply Hacc|].
      rewrite Hcl. intros [= ->]. lia. }
  assert (Hc0 : Z.to_nat cl < n).
  { rewrite Forall_forall in Hlabels.
    specialize (Hlabels cl (list_elem_of_lookup_2 _ _ _ Hcl)). lia. }
  set (c0 := Z.to_nat cl) in *.
  destruct (Hacc c0 Hc0) as (Hav & Hal & Htw & Hps & Hms).
  rewrite !get_lookup_total by lia. simpl.
  rewrite (update_lookup_Some _ _ _ _ Hav). simpl.
  rewrite (update_lookup_Some _ _ _ _ Hal). simpl.
  rewrite (update_lookup_Some _ _ _ _ Htw). simpl.
  unfold record_member. rewrite !get_lookup_total by lia. simpl.
  assert (Hmember : ∀ c, c < n →
    members_upto_ (S k) c
    = if decide (c = c0) then members_upto_ k c ++ [k]
      else members_upto_ k c).
  { intros c Hc. rewrite members_upto_S, Hcl.
    destruct (decide (c = c0)) as [->|Hne].
    - rewrite decide_True; [done|]. f_equal. subst c0. lia.
    - rewrite decide_False, app_nil_r; [done|].
      intros [= ->]. apply Hne. subst c0. lia. }
  destruct (fgtb (strengths !!! k) threshold) eqn:Hconf; simpl.
  - rewrite (update_lookup_Some _ _ _ _ Hps). simpl.
    destruct (decide (base !!! k ≠ (-1)%Z)) as [Hsub|Hsub]; simpl.
    + rewrite (update_lookup_Some _ _ _ _ Hms). simpl.
      eexists. split; [done|]. intros c Hc. simpl.
      rewrite (Hmember c Hc). destruct (decide (c = c0)) as [->|Hne].
      * rewrite !list_lookup_insert_eq by (by eapply lookup_lt_Some).
        rewrite !weighted_sum_snoc, total_strength_snoc, confident_snoc,
          Hconf, finer_labels_snoc, list_to_set_snoc_L, decide_True by done.
        done.
      * rewrite !list_lookup_insert_ne by done. by apply Hacc.
    + eexists. split; [done|]. intros c Hc. simpl.
      rewrite (Hmember c Hc). destruct (decide (c = c0)) as [->|Hne].
      * rewrite !list_lookup_insert_eq by (by eapply lookup_lt_Some).
        rewrite !weighted_sum_snoc, total_strength_snoc, confident_snoc,
          Hconf, finer_labels_snoc, list_to_set_snoc_L, decide_False by done.
        rewrite Hms. repeat split; try done. f_equal. set_solver.
      * rewrite !list_lookup_insert_ne by done. by apply Hacc.
  - eexists. split; [done|]. intros c Hc. simpl.
    rewrite (Hmember c Hc). destruct (decide (c = c0)) as [->|Hne].
    + rewrite !list_lookup_insert_eq by (by eapply lookup_lt_Some).
      rewrite !weighted_sum_snoc, total_strength_snoc, confident_snoc,
        Hconf, app_nil_r.
      done.
    + rewrite !list_lookup_insert_ne by done. by apply Hacc.
Qed.

Lemma accumulate_loop n k :
  Forall (λ c, (c < Z.of_nat n)%Z) labels →
  k ≤ length labels →
  ∃ acc,
    for_each (seq 0 k)
      (accumulate point_vectors point_locations labels strengths base
         threshold)
      (empty_accumulators n (shape1 point_vectors) (shape1 point_locations))
    = Ok acc ∧
    aggregated_ n k acc.
Proof using strengths_length vectors_length locations_length base_length.
  intros Hlabels. induction k as [|k IH]; intros Hk.
  - eexists. split; [done|]. apply aggregated_empty.
  - destruct IH as (acc & Hloop & Hacc); [lia|].
    destruct (accumulate_aggregated n k acc Hlabels) as (acc' & Hstep & Hacc');
      [lia|done|].
    exists acc'. split; [|done].
    rewrite seq_S, for_each_app, Hloop. simpl. by rewrite Hstep.
Qed.

End AggregatorMeans.

Section NormaliseFacts.
Context `{Numeric F}.

(** The normalising loop divides the first [m] sums by their weights. *)
Lemma normalise_loop m (acc : accumulators F) :
  (∀ c, c < m → is_Some (average_vectors acc !! c) ∧
                is_Some (average_locations acc !! c) ∧
                is_Some (total_weights acc !! c)) →
  ∃ acc',
    for_each (seq 0 m) normalise acc = Ok acc' ∧
    total_weights acc' = total_weights acc ∧
    pointsets acc' = pointsets acc ∧
    metaclusters acc' = metaclusters acc ∧
    ∀ c,
      average_vectors acc' !! c
        = (if decide (c < m)
           then div_row (total_weights acc !!! c) <$> average_vectors acc !! c
           else average_vectors acc !! c) ∧
      average_locations acc' !! c
        = (if decide (c < m)
           then div_row (total_weights acc !!! c)
                  <$> average_locations acc !! c
           else average_locations acc !! c).
Proof using Type.
  induction m as [|m IH]; intros Hsome.
  - exists acc. repeat split; done.
  - destruct IH as (acc1 & Hloop & Htw & Hps & Hms & Hav); [intros; apply Hsome; lia|].
    destruct (Hsome m) as ([v Hv] & [p Hp] & [w Hw]); [lia|].
    rewrite seq_S, for_each_app, Hloop. simpl.
    unfold normalise. rewrite Htw.
    apply get_Ok in Hw as Hgw. rewrite Hgw. simpl.
    destruct (Hav m) as [Hv1 Hp1]. rewrite decide_False in Hv1, Hp1 by lia.
    rewrite Hv in Hv1. rewrite Hp in Hp1.
    rewrite (update_lookup_Some _ _ _ _ Hv1). simpl.
    rewrite (update_lookup_Some _ _ _ _ Hp1). simpl.
    eexists. split; [done|]. simpl. do 3 (split; [done|]).
    intros c. destruct (Hav c) as [Hvc Hpc].
    destruct (decide (c = m)) as [->|Hne].
    + rewrite !list_lookup_insert_eq by (by eapply lookup_lt_Some).
      rewrite !decide_True by lia. rewrite Hv, Hp. simpl.
      by rewrite (list_lookup_total_correct _ _ _ Hw).
    + rewrite !list_lookup_insert_ne by done. rewrite Hvc, Hpc.
      destruct (decide (c < m)); [rewrite !decide_True by lia|
                                   rewrite !decide_False by lia]; done.
Qed.

End NormaliseFacts.

(** X1 ([layer_from_clustering], lines 26-60): the Aggregator on a flat
    clustering whose labels are below [n_clusters] (as when the clusters
    are numbered from 0 and some document is unassigned): it returns, and
    for every cluster [c] the
    centroid vector and location are the strength-weighted means of the
    documents labelled [c], the pointset holds the documents labelled [c]
    whose strength exceeds the threshold, and the metacluster set holds
    their finer-layer labels other than -1. *)
Theorem aggregator_weighted_means `{Numeric F}
    (point_vectors point_locations : matrix F) (labels : list Z)
    (strengths : list F) (base_clusters : list Z) (threshold : F) :
  (0 ≤ n_clusters_of labels)%Z →
  Forall (λ c, (c < n_clusters_of labels)%Z) labels →
  length strengths = length labels →
  length (rows point_vectors) = length labels →
  length (rows point_locations) = length labels →
  length base_clusters = length labels →
  ∃ acc,
    layer_from_clustering point_vectors point_locations labels strengths
      base_clusters threshold = Ok acc ∧
    ∀ c, (Z.of_nat c < n_clusters_of labels)%Z →
      average_vectors acc !! c
        = Some (weighted_mean strengths point_vectors (members labels c)) ∧
      average_locations acc !! c
        = Some (weighted_mean strengths point_locations (members labels c)) ∧
      pointsets acc !! c
        = Some (list_to_set (confident strengths threshold (members labels c))) ∧
      metaclusters acc !! c
        = Some (finer_labels base_clusters
                  (confident strengths threshold (members labels c))).
Proof.
  intros Hn Hlabels Hs Hv Hl Hb. unfold layer_from_clustering.
  rewrite decide_False by lia.
  set (n := Z.to_nat (n_clusters_of labels)).
  destruct (accumulate_loop point_vectors point_locations labels strengths
              base_clusters threshold Hs Hv Hl Hb n (length labels))
    as (acc & -> & Hacc); [|done|].
  { eapply Forall_impl; [exact Hlabels|]. simpl. lia. }
  simpl. destruct (normalise_loop n acc) as (acc' & -> & Htw & Hps & Hms & Hav).
  { intros c Hc. destruct (Hacc c Hc) as (-> & -> & -> & _). eauto. }
  exists acc'. split; [done|]. intros c Hc.
  assert (Hcn : c < n) by lia.
  destruct (Hacc c Hcn) as (Hv1 & Hl1 & Hw1 & Hp1 & Hm1).
  destruct (Hav c) as [Hv2 Hl2]. rewrite decide_True in Hv2, Hl2 by done.
  rewrite Hv2, Hl2, Hps, Hms, Hv1, Hl1.
  rewrite (list_lookup_total_correct _ _ _ Hw1). done.
Qed.

(** The theorem on three documents: clusters 0 and 1 and an unassigned
    document. *)
Lemma aggregator_weighted_means_example :
  ∃ acc,
    layer_from_clustering line_points line_points [0; 1; -1]%Z
      [1; 1; 1]%float [0; 1; -1]%Z 0.2%float = Ok acc ∧
    average_vectors acc = [[0%float]; [1%float]] ∧
    pointsets acc = [{[0]}; {[1]}].
Proof.
  eexists. split; [vm_compute; reflexivity|]. split; [reflexivity|].
  f_equal.
Qed.

(** ** LayeredClusterBuilder *)

Lemma select_subset {A} (mask : list bool) (l : list A) x :
  x ∈ select mask l → x ∈ l.
Proof.
  revert mask. induction l as [|y l IH]; intros [|b mask]; simpl;
    try (by intros ?%elem_of_nil).
  destruct b; [intros [->|?]%elem_of_cons|intros ?]; [left|right; eauto..].
Qed.

Lemma select_by_test {A} (p : A → bool) (l : list A) x :
  x ∈ select (map p l) l → p x = true.
Proof.
  induction l as [|y l IH]; simpl; [by intros ?%elem_of_nil|].
  destruct (p y) eqn:E; [intros [->|?]%elem_of_cons|]; auto.
Qed.

Section AggregatorMetaclusters.
Context `{Numeric F}.
Variables (point_vectors point_locations : matrix F).
Variable cluster_label_vector : list Z.
Variable cluster_membership_vector : list F.
Variable base_clusters : list Z.
Variable membership_strength_threshold : F.

Lemma accumulate_from_base i acc acc' :
  from_base base_clusters acc →
  accumulate point_vectors point_locations cluster_label_vector
    cluster_membership_vector base_clusters membership_strength_threshold
    i acc = Ok acc' →
  from_base base_clusters acc'.
Proof.
  unfold from_base, accumulate, record_member. intros Hacc.
  repeat step_result; intros [= <-]; simpl; try done.
  match goal with
  | Hu : update (metaclusters acc) _ _ = Ok _ |- _ =>
      apply update_Ok in Hu as (s & Hs & ->)
  end.
  apply Forall_insert; [done|].
  intros m [Hm| ->%elem_of_singleton]%elem_of_union.
  - eapply (Forall_lookup_1 _ _ _ _ Hacc Hs); eauto.
  - match goal with
    | Hg : get base_clusters i = Ok _ |- _ => apply get_Ok in Hg
    end.
    split; [eapply list_elem_of_lookup_2; eauto | done].
Qed.

Lemma normalise_metaclusters c (acc acc' : accumulators F) :
  normalise c acc = Ok acc' → metaclusters acc' = metaclusters acc.
Proof.
  unfold normalise. repeat step_result; intros [= <-]; done.
Qed.

Lemma layer_from_clustering_from_base acc :
  layer_from_clustering point_vectors point_locations cluster_label_vector
    cluster_membership_vector base_clusters membership_strength_threshold
  = Ok acc →
  from_base base_clusters acc.
Proof.
  unfold layer_from_clustering.
  destruct (decide _); [done|].
  intros (acc0 & Hloop & Hnorm)%bind_Ok.
  eapply (for_each_invariant (from_base base_clusters)) in Hloop.
  - eapply (for_each_invariant (from_base base_clusters)); [|exact Hloop|exact Hnorm].
    intros c t t' _ Ht Hc. unfold from_base.
    by rewrite (normalise_metaclusters _ _ _ Hc).
  - intros i t t' _. apply accumulate_from_base.
  - unfold from_base. simpl. apply Forall_replicate. intros m Hm.
    by apply not_elem_of_empty in Hm.
Qed.

End AggregatorMetaclusters.

Section BuilderFacts.
Context `{Numeric F}.
Variable condense : Z → list Z * list F.
Variable int_quantile : list nat → result Z.
Variables (point_vectors point_locations : matrix F).
Variable min_clusters : Z.
Variable base_min_cluster_size : Z.
Variable membership_strength_threshold : F.
Variable base_clusters : list Z.

Lemma next_layer_invariant base_layer clusters point_probs acc acc' ps :
  builder_invariant base_clusters base_layer clusters acc →
  next_layer point_vectors point_locations membership_strength_threshold
    base_layer clusters point_probs base_clusters acc = Ok (acc', ps) →
  ∀ clusters', builder_invariant base_clusters false clusters' acc'.
Proof.
  intros (Hb & Hbase & Hmerge). unfold next_layer.
  intros (a & Ha & [= <- _])%bind_Ok clusters'.
  apply layer_from_clustering_from_base in Ha. unfold from_base in Ha.
  split; [|split]; simpl.
  - split; [by destruct (metacluster_layers acc)|].
    destruct base_layer.
    + destruct Hb as (-> & _ & ->). done.
    + destruct Hb as [_ Hh]. by destruct (label_layers acc).
  - apply Forall_app. split; [done|]. apply Forall_singleton.
    apply Forall_fmap, Forall_forall. intros s Hs. simpl.
    apply Forall_forall. intros m Hm%elem_of_elements.
    rewrite Forall_forall in Ha. apply (Ha s); [|done].
    destruct base_layer; [done|]. by eapply select_subset.
  - unfold coarse_merge in *. simpl. destruct base_layer.
    + destruct Hb as (_ & -> & _). simpl. constructor.
    + destruct Hb as [Hne _].
      destruct (metacluster_layers acc) as [|l0 ls] eqn:E; [done|]. simpl in *.
      apply Forall_app. split; [done|]. apply Forall_singleton.
      apply Forall_fmap, Forall_forall. intros s Hs. simpl.
      split; [|apply NoDup_elements].
      apply (select_by_test (λ x : gset Z, bool_decide (1 < size x))) in Hs.
      apply bool_decide_eq_true in Hs. unfold size, set_size in Hs.
      simpl in Hs. lia.
Qed.

Lemma build_loop_invariant fuel base_layer clusters point_probs n acc c :
  builder_invariant base_clusters base_layer clusters acc →
  build_loop condense int_quantile point_vectors point_locations min_clusters
    membership_strength_threshold fuel base_layer clusters point_probs
    base_clusters n acc = Some (Ok c) →
  ∃ base_layer' clusters',
    builder_invariant base_clusters base_layer' clusters' c.
Proof.
  revert base_layer clusters point_probs n acc.
  induction fuel as [|fuel IH]; intros base_layer clusters point_probs n acc Hinv;
    simpl; destruct (decide _); try done; try (intros [= <-]; eauto).
  destruct (next_layer _ _ _ _ _ _ _ _) as [[acc' ps]|] eqn:En; [|done].
  destruct (int_quantile _); [|done].
  destruct (condense _) as [clusters' probs'].
  destruct (np_max _); [|done].
  apply IH. eapply next_layer_invariant; eauto.
Qed.

End BuilderFacts.

(** C3, as amended: in every layer after the base layer that a terminating
    run returns, every cluster's metacluster set has at least two members
    (the list holds each member once).  The loop itself puts no bound on
    the number of clusters of a layer. *)
Theorem coarse_metaclusters_merge `{Numeric F}
    (condense : Z → list Z * list F) (int_quantile : list nat → result Z)
    (point_vectors point_locations : matrix F)
    (min_clusters base_min_cluster_size : Z) (threshold : F) (fuel : nat)
    (c : cluster_layers F) :
  build_cluster_layers condense int_quantile point_vectors point_locations
    min_clusters base_min_cluster_size threshold fuel = Some (Ok c) →
  ∀ k layer cluster,
    0 < k → metacluster_layers c !! k = Some layer → cluster ∈ layer →
    2 ≤ length cluster ∧ NoDup cluster.
Proof.
  unfold build_cluster_layers.
  destruct (condense base_min_cluster_size) as [clusters probs] eqn:E.
  intros Hrun k layer cluster Hk Hlayer Hcluster.
  apply (build_loop_invariant _ _ _ _ _ _ clusters) in Hrun
    as (b & cl & _ & _ & Hmerge).
  - unfold coarse_merge in Hmerge. destruct k as [|k]; [lia|].
    rewrite Forall_forall in Hmerge.
    assert (Hin : layer ∈ drop 1 (metacluster_layers c)).
    { eapply list_elem_of_lookup_2. rewrite lookup_drop. exact Hlayer. }
    specialize (Hmerge layer Hin). rewrite Forall_forall in Hmerge. eauto.
  - split; [done|]. split; constructor.
Qed.

Lemma coarse_metaclusters_merge_witness :
  nested_run 3 = Some (Ok nested_result) ∧
  ∀ k layer cluster,
    0 < k → metacluster_layers nested_result !! k = Some layer →
    cluster ∈ layer → 2 ≤ length cluster ∧ NoDup cluster.
Proof.
  assert (Hrun : nested_run 3 = Some (Ok nested_result))
    by (vm_compute; reflexivity).
  split; [exact Hrun|].
  exact (coarse_metaclusters_merge nested_condense int_quantile_80
    line_points line_points 2 1 0.2%float 3 nested_result Hrun).
Defined.

(** C3, the counterexample: a terminating run whose third layer has more
    clusters than its second. *)
Lemma cluster_count_can_grow :
  sparse_run 3 = Some (Ok sparse_result) ∧
  length <$> vector_layers sparse_result = [8; 2; 4] ∧
  ¬ (∀ k a b,
       (length <$> vector_layers sparse_result) !! k = Some a →
       (length <$> vector_layers sparse_result) !! S k = Some b →
       b ≤ a).
Proof.
  split; [vm_compute; reflexivity|].
  split; [vm_compute; reflexivity|].
  intros Hmono. specialize (Hmono 1 2 4 eq_refl eq_refl). lia.
Qed.

(** C4, as amended: every member of a metacluster set, in every layer, is a
    cluster label of the base layer's flat clustering, the label vector
    the builder passes to the Aggregator in every iteration. *)
Theorem metaclusters_refer_to_base_layer `{Numeric F}
    (condense : Z → list Z * list F) (int_quantile : list nat → result Z)
    (point_vectors point_locations : matrix F)
    (min_clusters base_min_cluster_size : Z) (threshold : F) (fuel : nat)
    (c : cluster_layers F) :
  build_cluster_layers condense int_quantile point_vectors point_locations
    min_clusters base_min_cluster_size threshold fuel = Some (Ok c) →
  ∀ k layer cluster m,
    metacluster_layers c !! k = Some layer → cluster ∈ layer → m ∈ cluster →
    label_layers c !! 0 = Some (condense base_min_cluster_size).1 ∧
    m ∈ (condense base_min_cluster_size).1 ∧ m ≠ (-1)%Z.
Proof.
  unfold build_cluster_layers.
  destruct (condense base_min_cluster_size) as [clusters probs] eqn:E.
  intros Hrun k layer cluster m Hlayer Hcluster Hm. simpl.
  apply (build_loop_invariant _ _ _ _ _ _ clusters) in Hrun
    as (b & cl & Hb & Hbase & _).
  - split.
    + destruct b.
      * destruct Hb as (_ & Hnil & _). by rewrite Hnil in Hlayer.
      * destruct Hb as [_ Hh]. by destruct (label_layers c).
    + unfold refer_to_base in Hbase. rewrite Forall_forall in Hbase.
      specialize (Hbase layer (list_elem_of_lookup_2 _ _ _ Hlayer)).
      rewrite Forall_forall in Hbase. specialize (Hbase cluster Hcluster).
      rewrite Forall_forall in Hbase. eauto.
  - split; [done|]. split; constructor.
Qed.

Lemma metaclusters_refer_to_base_layer_witness :
  nested_run 3 = Some (Ok nested_result) ∧
  ∀ k layer cluster m,
    metacluster_layers nested_result !! k = Some layer → cluster ∈ layer →
    m ∈ cluster →
    label_layers nested_result !! 0 = Some (nested_condense 1).1 ∧
    m ∈ (nested_condense 1).1 ∧ m ≠ (-1)%Z.
Proof.
  assert (Hrun : nested_run 3 = Some (Ok nested_result))
    by (vm_compute; reflexivity).
  split; [exact Hrun|].
  exact (metaclusters_refer_to_base_layer nested_condense int_quantile_80
    line_points line_points 2 1 0.2%float 3 nested_result Hrun).
Defined.

(** C4, the counterexample: in a nested hierarchy of 8, 4 and 2 clusters,
    the second cluster of the third layer has base label 4 in its
    metacluster set, and 4 is no label of the second layer's clustering. *)
Lemma metacluster_outside_previous_layer :
  nested_run 3 = Some (Ok nested_result) ∧
  ∃ layer cluster labels,
    metacluster_layers nested_result !! 2 = Some layer ∧
    layer !! 1 = Some cluster ∧
    label_layers nested_result !! 1 = Some labels ∧
    4%Z ∈ cluster ∧ 4%Z ∉ labels.
Proof.
  split; [vm_compute; reflexivity|].
  eexists _, _, _. split; [reflexivity|]. split; [reflexivity|].
  split; [reflexivity|]. split.
  - apply (bool_decide_eq_true_1 _). vm_compute. reflexivity.
  - apply (bool_decide_eq_false_1 _). vm_compute. reflexivity.
Qed.

(** ** The lists of a layer describe the same clusters *)

Ltac update_lengths :=
  repeat match goal with
  | Hu : update _ _ _ = Ok _ |- _ => apply update_length in Hu
  end.

Section LayerSizes.
Context `{Numeric F}.
Variables (point_vectors point_locations : matrix F).
Variable cluster_label_vector : list Z.
Variable cluster_membership_vector : list F.
Variable base_clusters : list Z.
Variable membership_strength_threshold : F.

Lemma accumulate_sized n i acc acc' :
  sized n acc →
  accumulate point_vectors point_locations cluster_label_vector
    cluster_membership_vector base_clusters membership_strength_threshold
    i acc = Ok acc' →
  sized n acc'.
Proof.
  unfold sized, accumulate, record_member. intros (? & ? & ? & ? & ?).
  repeat step_result; intros [= <-]; simpl; update_lengths;
    repeat split; congruence.
Qed.

Lemma normalise_sized n c (acc acc' : accumulators F) :
  sized n acc → normalise c acc = Ok acc' → sized n acc'.
Proof.
  unfold sized, normalise. intros (? & ? & ? & ? & ?).
  repeat step_result; intros [= <-]; simpl; update_lengths;
    repeat split; congruence.
Qed.

Lemma layer_from_clustering_sized acc :
  layer_from_clustering point_vectors point_locations cluster_label_vector
    cluster_membership_vector base_clusters membership_strength_threshold
  = Ok acc →
  sized (Z.to_nat (n_clusters_of cluster_label_vector)) acc.
Proof.
  unfold layer_from_clustering.
  destruct (decide _); [done|].
  intros (acc0 & Hloop & Hnorm)%bind_Ok.
  eapply (for_each_invariant
            (sized (Z.to_nat (n_clusters_of cluster_label_vector))));
    [| |exact Hnorm].
  - intros c t t' _. apply normalise_sized.
  - eapply (for_each_invariant
              (sized (Z.to_nat (n_clusters_of cluster_label_vector))));
      [| |exact Hloop].
    + intros i t t' _. apply accumulate_sized.
    + unfold sized. simpl. by rewrite !length_replicate.
Qed.

End LayerSizes.

Lemma select_length {A B} (mask : list bool) (l1 : list A) (l2 : list B) :
  length l1 = length l2 → length (select mask l1) = length (select mask l2).
Proof.
  revert l1 l2. induction mask as [|b mask IH]; intros [|x l1] [|y l2];
    simpl; try done.
  intros [= Hlen]. destruct b; simpl; auto.
Qed.

(** In every layer a run returns, the centroid vectors, the centroid
    locations, the pointsets and the metacluster sets are as many as the
    layer has clusters. *)
Lemma build_cluster_layers_aligned `{Numeric F}
    (condense : Z → list Z * list F) (int_quantile : list nat → result Z)
    (point_vectors point_locations : matrix F)
    (min_clusters base_min_cluster_size : Z) (threshold : F) (fuel : nat)
    (c : cluster_layers F) :
  build_cluster_layers condense int_quantile point_vectors point_locations
    min_clusters base_min_cluster_size threshold fuel = Some (Ok c) →
  aligned c.
Proof.
  unfold build_cluster_layers.
  destruct (condense base_min_cluster_size) as [clusters probs].
  generalize (Z.of_nat (size (list_to_set (filter (λ c0, (0 ≤ c0)%Z) clusters)
                                : gset Z))).
  assert (Hstart : aligned (ClusterLayers (F:=F) [] [] [] [] []))
    by (by repeat split).
  revert Hstart.
  generalize (ClusterLayers (F:=F) [] [] [] [] []).
  generalize true. generalize clusters at 1. generalize probs.
  induction fuel as [|fuel IH]; intros probs' clusters' b acc Hacc n; simpl;
    destruct (decide _); try done; try (by intros [= <-]).
  destruct (next_layer _ _ _ _ _ _ _ _) as [[acc' ps]|] eqn:En; [|done].
  destruct (int_quantile _); [|done].
  destruct (condense _) as [clusters'' probs''].
  destruct (np_max _); [|done].
  apply IH. clear IH.
  unfold next_layer in En.
  apply bind_Ok in En as (agg & Hagg & [= <- _]).
  apply layer_from_clustering_sized in Hagg as (Hv & Hl & _ & Hp & Hm).
  destruct Hacc as (Hav & Hal & Hap).
  unfold aligned. simpl. rewrite !fmap_app, Hav, Hal, Hap. simpl.
  rewrite !length_map.
  destruct b; repeat split; f_equal; f_equal;
    try congruence; apply select_length; congruence.
Qed.

(** ** DiversitySelector *)

Lemma take_rows_in_range {A} (a : list A) (idx : list nat) :
  Forall (λ j, j < length a) idx → ∃ xs, take_rows a idx = Ok xs.
Proof.
  induction 1 as [|j idx Hj _ [xs IH]]; simpl; [eauto|].
  destruct (lookup_lt_is_Some_2 a j Hj) as [x Hx].
  apply get_Ok in Hx. rewrite Hx, IH. simpl. eauto.
Qed.

Section DiversityFacts.
Context `{Numeric F}.
Variable cosine_distance : list F → list F → F.
Variable candidate_neighbor_vectors : list (list F).
Variable distance_to_query : list F.
Variable alpha : F.
Variable max_candidates : Z.

Lemma retained_ok_snoc k retained :
  retained_ok k retained → retained_ok (S k) (retained ++ [k]).
Proof.
  intros (Hhd & Hsorted & Hlt). split; [|split].
  - by destruct retained.
  - apply StronglySorted_app. split; [|split; [done|]].
    + intros i j Hi ->%list_elem_of_singleton.
      rewrite Forall_forall in Hlt. by apply Hlt.
    + repeat constructor.
  - apply Forall_app. split; [|by repeat constructor].
    eapply Forall_impl; [exact Hlt|]. simpl. lia.
Qed.

Lemma retained_ok_skip k retained :
  retained_ok k retained → retained_ok (S k) retained.
Proof.
  intros (Hhd & Hsorted & Hlt). split; [done|]. split; [done|].
  eapply Forall_impl; [exact Hlt|]. simpl. lia.
Qed.

Lemma diversify_loop_spec rest k retained :
  length distance_to_query = length candidate_neighbor_vectors →
  k + length rest = length candidate_neighbor_vectors →
  retained_ok k retained →
  (length retained ≤ 1 ∨ (Z.of_nat (length retained) < max_candidates)%Z) →
  ∃ out,
    diversify_loop cosine_distance candidate_neighbor_vectors
      distance_to_query alpha max_candidates
      (zip (seq k (length rest)) rest) retained = Ok out ∧
    retained_ok (length candidate_neighbor_vectors) out ∧
    (Z.of_nat (length out) ≤ Z.max max_candidates 2)%Z.
Proof.
  intros Hdq. revert k retained.
  induction rest as [|vector rest IH]; intros k retained Hk Hok Hlen; simpl.
  - simpl in Hk. replace (length candidate_neighbor_vectors) with k by lia.
    eexists. split; [done|]. split; [done|]. lia.
  - simpl in Hk.
    destruct (take_rows_in_range candidate_neighbor_vectors retained)
      as [rows_ ->].
    { destruct Hok as (_ & _ & Hlt). eapply Forall_impl; [exact Hlt|].
      simpl. lia. }
    simpl. destruct (lookup_lt_is_Some_2 distance_to_query k) as [d Hd];
      [lia|].
    apply get_Ok in Hd. rewrite Hd. simpl.
    destruct (inner_loop_breaks _ _ _).
    + apply IH; [lia|by apply retained_ok_skip|done].
    + destruct (decide _) as [Hcap|Hcap].
      * eexists. split; [done|]. split.
        -- destruct (retained_ok_snoc k retained Hok) as (? & ? & Hlt).
           split; [done|]. split; [done|].
           eapply Forall_impl; [exact Hlt|]. simpl. lia.
        -- rewrite length_app in *. simpl in *. lia.
      * apply IH; [lia|by apply retained_ok_snoc|]. right. lia.
Qed.

End DiversityFacts.

(** The selector returns for every non-empty candidate sequence; its output
    starts with index 0, is strictly increasing, holds indices of
    candidates only, and is no longer than the larger of the cap and 2. *)
Lemma diversify_total `{Numeric F} (cosine_distance : list F → list F → F)
    (query_vector : list F) (candidate_neighbor_vectors : list (list F))
    (alpha : F) (max_candidates : Z) :
  candidate_neighbor_vectors ≠ [] →
  ∃ out,
    diversify cosine_distance query_vector candidate_neighbor_vectors alpha
      max_candidates = Ok out ∧
    retained_ok (length candidate_neighbor_vectors) out ∧
    (Z.of_nat (length out) ≤ Z.max max_candidates 2)%Z.
Proof.
  intros Hne. unfold diversify.
  destruct candidate_neighbor_vectors as [|v0 rest] eqn:E; [done|].
  rewrite <- E. 
  apply (diversify_loop_spec cosine_distance candidate_neighbor_vectors
           _ alpha max_candidates rest 1 [0]).
  - by rewrite length_map.
  - rewrite E. simpl. lia.
  - split; [done|]. split; repeat constructor.
  - left. simpl. lia.
Qed.

(** C2, as amended: for every non-empty candidate sequence and every cap of
    at least 2 the selector returns a strictly increasing list of
    candidate indices that starts with index 0 and is no longer than the
    cap. *)
Theorem diversify_output `{Numeric F}
    (cosine_distance : list F → list F → F) (query_vector : list F)
    (candidate_neighbor_vectors : list (list F)) (alpha : F)
    (max_candidates : Z) :
  candidate_neighbor_vectors ≠ [] → (2 ≤ max_candidates)%Z →
  ∃ out,
    diversify cosine_distance query_vector candidate_neighbor_vectors alpha
      max_candidates = Ok out ∧
    head out = Some 0 ∧
    StronglySorted lt out ∧
    Forall (λ j, j < length candidate_neighbor_vectors) out ∧
    (Z.of_nat (length out) ≤ max_candidates)%Z.
Proof.
  intros Hne Hcap.
  destruct (diversify_total cosine_distance query_vector
              candidate_neighbor_vectors alpha max_candidates Hne)
    as (out & Hout & (Hhd & Hsorted & Hlt) & Hlen).
  exists out. repeat split; try done. lia.
Qed.

Lemma diversify_output_witness :
  scenario_candidates ≠ [] ∧ (2 ≤ 16)%Z ∧
  ∃ out,
    diversify cosine_distance64 scenario_query scenario_candidates 1%float 16
      = Ok out ∧
    head out = Some 0 ∧
    StronglySorted lt out ∧
    Forall (λ j, j < length scenario_candidates) out ∧
    (Z.of_nat (length out) ≤ 16)%Z.
Proof.
  assert (Hne : scenario_candidates ≠ []) by discriminate.
  assert (Hcap : (2 ≤ 16)%Z) by lia.
  split; [exact Hne|]. split; [exact Hcap|].
  exact (diversify_output cosine_distance64 scenario_query
           scenario_candidates 1%float 16 Hne Hcap).
Defined.

(** C2, the counterexample: with a cap of 1 the selector returns two
    indices.  The cap is compared with the length only after an index has
    been appended. *)
Lemma diversify_exceeds_cap_one :
  ∃ out,
    diversify cosine_distance64 scenario_query scenario_candidates 1%float 1
      = Ok out ∧
    ¬ (Z.of_nat (length out) ≤ 1)%Z.
Proof. exists [0; 1]. split; [vm_compute; reflexivity|simpl; lia]. Qed.

(** C6, as amended: on the scenario the selector returns [[0, 1]].
    Candidate 1 is exactly as far from the retained candidate 0 as from
    the query (the two are the same vector), so the strict test of line
    153 does not reject it; candidate 2, opposite to the query, is closer
    to candidate 1 than to the query and is rejected. *)
Theorem diversify_scenario :
  diversify cosine_distance64 scenario_query scenario_candidates 1%float 16
  = Ok [0; 1].
Proof. vm_compute. reflexivity. Qed.

(** C6, the counterexample: the output is not [[0, 2]]. *)
Lemma diversify_scenario_not_0_2 :
  diversify cosine_distance64 scenario_query scenario_candidates 1%float 16
  ≠ Ok [0; 2].
Proof. vm_compute. discriminate. Qed.

(** ** Neighbour table *)

Section NeighbourFacts.
Context `{Numeric F}.
Variable cosine_distance : list F → list F → F.

(** [np.argsort] returns a permutation of the indices of its argument. *)
Lemma argsort_permutation (row : list F) :
  argsort row ≡ₚ seq 0 (length row).
Proof.
  unfold argsort. rewrite merge_sort_Permutation.
  change (map fst ?l) with (l.*1).
  rewrite fst_zip; [done|]. by rewrite length_seq.
Qed.

(** With an order on the values in which any two of them compare, the
    indices stand in ascending order of value. *)
Lemma argsort_sorted (row : list F) :
  (∀ a b : F, fltb b a = false ∨ fltb a b = false) →
  Sorted key_le (merge_sort key_le (zip (seq 0 (length row)) row)).
Proof.
  intros Htotal. apply Sorted_merge_sort.
  intros [i a] [j b]. unfold key_le. simpl. apply Htotal.
Qed.


End NeighbourFacts.

(** *** Merge sort on values that the comparison orders

    [merge_sort] compares members of its argument only, so it sorts when
    the relation is total and transitive on them. *)

Section MergeSortOn.
Context {A : Type} (R : relation A) `{∀ x y, Decision (R x y)}.
Variable P : A → Prop.
Hypothesis total_on : ∀ x y, P x → P y → R x y ∨ R y x.
Hypothesis trans_on : ∀ x y z, P x → P y → P z → R x y → R y z → R x z.

Local Notation "'sorted_on' l" := (StronglySorted R l ∧ Forall P l)
  (at level 10, l at level 9).


Local Notation "'stack_on' st" :=
  (Forall (λ o : option (list A),
             match o with Some l => sorted_on l | None => True end) st)
  (at level 10, st at level 9).





End MergeSortOn.

Section RankingFacts.
Context `{Numeric F}.


End RankingFacts.





(** ** [longest_keyphrases] *)

Section KeyphraseFacts.
Context {A : Type} `{EqDecision A}.
Variable extends : A → A → bool.
Hypothesis extends_irrefl : ∀ a, extends a a = false.
Hypothesis extends_trans :
  ∀ a b c, extends a b = true → extends b c = true → extends a c = true.

Lemma scan_snoc (l : list A) (o p : A) :
  scan extends (l ++ [o]) p
  = if extends (scan extends l p) o then o else scan extends l p.
Proof using Type. unfold scan. by rewrite fold_left_app. Qed.

(** The inner loop returns its start value or a member of the list. *)
Lemma scan_elem_of (l : list A) (p : A) :
  scan extends l p = p ∨ scan extends l p ∈ l.
Proof using Type.
  induction l as [|o l IH] using rev_ind; [by left|].
  rewrite scan_snoc. destruct (extends _ o).
  - right. apply elem_of_app. right. left.
  - destruct IH as [->|IH]; [by left|]. right. apply elem_of_app. by left.
Qed.

(** No member of the list extends what the inner loop returns. *)
Lemma scan_maximal (l : list A) (p o : A) :
  o ∈ l → extends (scan extends l p) o = false.
Proof using extends_irrefl extends_trans.
  revert o. induction l as [|o' l IH] using rev_ind; intros o Ho.
  - by apply elem_of_nil in Ho.
  - rewrite scan_snoc. destruct (extends (scan extends l p) o') eqn:E.
    + apply elem_of_app in Ho as [Ho| ->%list_elem_of_singleton]; [|done].
      destruct (extends o' o) eqn:E'; [|done].
      rewrite <- (IH o Ho). symmetry. eapply extends_trans; eauto.
    + apply elem_of_app in Ho as [Ho| ->%list_elem_of_singleton]; auto.
Qed.

(** A phrase that no member of the list extends is returned unchanged. *)
Lemma scan_fixed (l : list A) (p : A) :
  (∀ o, o ∈ l → extends p o = false) → scan extends l p = p.
Proof using Type.
  intros Hp. induction l as [|o l IH] using rev_ind; [done|].
  rewrite scan_snoc, IH.
  - rewrite Hp; [done|]. apply elem_of_app. right. left.
  - intros o' Ho'. apply Hp, elem_of_app. by left.
Qed.

Lemma longest_keyphrases_loop_invariant (todo visited result : list A) :
  keyphrase_invariant extends visited todo result →
  keyphrase_invariant extends
    (longest_keyphrases_loop extends visited todo result).1 []
    (longest_keyphrases_loop extends visited todo result).2.
Proof using extends_irrefl extends_trans.
  revert visited result.
  induction todo as [|phrase0 todo IH]; intros visited result Hinv; [done|].
  destruct Hinv as (Hnodup & Hvisited & Hmax). simpl.
  set (phrase := scan extends (visited ++ phrase0 :: todo) phrase0).
  destruct (decide (phrase ∈ result)) as [Hin|Hnew]; apply IH.
  - split; [done|]. split.
    + intros r Hr. apply elem_of_app. left. auto.
    + intros r o Hr Ho. apply Hmax; [done|].
      by rewrite <- app_assoc in Ho.
  - assert (Hphrase : phrase ∈ visited ++ phrase0 :: todo).
    { destruct (scan_elem_of (visited ++ phrase0 :: todo) phrase0)
        as [Heq|Hin]; [|done].
      fold phrase in Heq. rewrite Heq. apply elem_of_app. right. left. }
    assert (Hsub : ∀ o, o ∈ (visited ++ [phrase]) ++ todo →
                        o ∈ visited ++ phrase0 :: todo).
    { intros o [[Ho| ->%list_elem_of_singleton]%elem_of_app|Ho]%elem_of_app.
      - apply elem_of_app. by left.
      - done.
      - apply elem_of_app. right. by right. }
    split; [|split].
    + apply NoDup_app. split; [done|]. split; [|apply NoDup_singleton].
      intros r Hr ->%list_elem_of_singleton. done.
    + intros r [Hr| ->%list_elem_of_singleton]%elem_of_app;
        apply elem_of_app; [left; auto|right; left].
    + intros r o [Hr| ->%list_elem_of_singleton]%elem_of_app Ho.
      * apply Hmax; auto.
      * apply scan_maximal. auto.
Qed.

(** The returned phrases are distinct and none of them extends another. *)
Lemma longest_keyphrases_antichain (l : list A) :
  let result := (longest_keyphrases_gen extends l).2 in
  NoDup result ∧ ∀ r o, r ∈ result → o ∈ result → extends r o = false.
Proof using extends_irrefl extends_trans.
  destruct (longest_keyphrases_loop_invariant l [] [])
    as (Hnodup & Hvisited & Hmax).
  { split; [constructor|].
    split; [intros r Hr|intros r o Hr]; by apply elem_of_nil in Hr. }
  split; [done|]. intros r o Hr Ho. apply Hmax; [done|].
  rewrite app_nil_r. by apply Hvisited.
Qed.

(** On such a list the loop changes no slot and returns every phrase. *)
Lemma longest_keyphrases_loop_fixed (todo visited : list A) :
  NoDup (visited ++ todo) →
  (∀ r o, r ∈ visited ++ todo → o ∈ visited ++ todo → extends r o = false) →
  longest_keyphrases_loop extends visited todo visited
  = (visited ++ todo, visited ++ todo).
Proof using Type.
  revert visited. induction todo as [|phrase0 todo IH]; intros visited Hnodup Hmax.
  - simpl. by rewrite app_nil_r.
  - simpl. rewrite scan_fixed.
    + destruct (decide (phrase0 ∈ visited)) as [Hin|_].
      * apply NoDup_app in Hnodup as (_ & Hdisj & _).
        destruct (Hdisj phrase0 Hin). left.
      * rewrite IH; rewrite <- app_assoc; done.
    + intros o Ho. apply Hmax; [|done]. apply elem_of_app. right. left.
Qed.

Lemma longest_keyphrases_gen_idempotent (l : list A) :
  let result := (longest_keyphrases_gen extends l).2 in
  longest_keyphrases_gen extends result = (result, result).
Proof using extends_irrefl extends_trans.
  intros result. destruct (longest_keyphrases_antichain l) as [Hnodup Hmax].
  fold result in Hnodup, Hmax.
  apply (longest_keyphrases_loop_fixed result []); simpl; auto.
Qed.

End KeyphraseFacts.

(** Substrings of Python strings. *)

Lemma append_cons (x : ascii) (a b : string) :
  String x a +:+ b = String x (a +:+ b).
Proof. reflexivity. Qed.

Lemma append_assoc (a b c : string) : (a +:+ b) +:+ c = a +:+ (b +:+ c).
Proof.
  induction a as [|x a IH]; [done|]. rewrite !append_cons. by rewrite IH.
Qed.

Lemma append_empty_r (a : string) : a +:+ EmptyString = a.
Proof.
  induction a as [|x a IH]; [done|]. rewrite append_cons. by rewrite IH.
Qed.

Lemma length_append (a b : string) :
  String.length (a +:+ b) = String.length a + String.length b.
Proof.
  induction a as [|x a IH]; [done|]. rewrite append_cons. simpl.
  by rewrite IH.
Qed.

Lemma starts_with_spec (s t : string) :
  starts_with s t = true ↔ ∃ q, t = s +:+ q.
Proof.
  revert t. induction s as [|a s IH]; intros t; simpl.
  - split; [by exists t|done].
  - destruct t as [|b t]; [split; [done|intros [q [=]]]|].
    destruct (decide (a = b)) as [->|Hne].
    + rewrite IH. split; intros [q Hq]; exists q.
      * rewrite append_cons. congruence.
      * rewrite append_cons in Hq. congruence.
    + split; [done|]. intros [q Hq]. rewrite append_cons in Hq. congruence.
Qed.

Lemma contains_spec (s t : string) :
  contains s t = true ↔ ∃ p q, t = p +:+ (s +:+ q).
Proof.
  split.
  - induction t as [|b t IH].
    + simpl. rewrite orb_false_r. intros [q Hq]%starts_with_spec.
      by exists EmptyString, q.
    + simpl. intros [[q Hq]%starts_with_spec|Ht]%orb_true_iff.
      * by exists EmptyString, q.
      * destruct (IH Ht) as (p & q & ->). by exists (String b p), q.
  - intros (p & q & ->). induction p as [|b p IH].
    + change (EmptyString +:+ (s +:+ q)) with (s +:+ q).
      assert (Hs : starts_with s (s +:+ q) = true)
        by (apply starts_with_spec; eauto).
      destruct (s +:+ q); simpl; by rewrite Hs.
    + rewrite append_cons. simpl. by rewrite IH, orb_true_r.
Qed.

Lemma contains_length (s t : string) :
  contains s t = true → String.length s ≤ String.length t.
Proof.
  intros (p & q & ->)%contains_spec. rewrite !length_append. lia.
Qed.

Lemma contains_trans (a b c : string) :
  contains a b = true → contains b c = true → contains a c = true.
Proof.
  intros (p & q & ->)%contains_spec (p' & q' & ->)%contains_spec.
  apply contains_spec. exists (p' +:+ p), (q +:+ q').
  by rewrite !append_assoc.
Qed.

Lemma extended_by_contains (a b : string) :
  extended_by a b = true → contains a b = true.
Proof.
  unfold extended_by. intros [Hc|Hc]%orb_true_iff;
    (eapply contains_trans; [|exact Hc]); apply contains_spec.
  - exists " "%string, EmptyString. by rewrite append_empty_r.
  - by exists EmptyString, " "%string.
Qed.

Lemma extended_by_irrefl (a : string) : extended_by a a = false.
Proof.
  apply not_true_is_false. unfold extended_by.
  intros [Hc|Hc]%orb_true_iff; apply contains_length in Hc.
  - simpl in Hc. lia.
  - rewrite length_append in Hc. simpl in Hc. lia.
Qed.

Lemma extended_by_trans (a b c : string) :
  extended_by a b = true → extended_by b c = true → extended_by a c = true.
Proof.
  intros Hab Hbc%extended_by_contains. unfold extended_by in *.
  apply orb_true_iff in Hab as [Hab|Hab]; apply orb_true_iff; [left|right];
    eapply contains_trans; eauto.
Qed.

(** C8: running [longest_keyphrases] on the list it returned returns that
    list again, with the same phrases in the same order, and leaves the
    argument list as it was. *)
Theorem longest_keyphrases_idempotent (candidate_keyphrases : list string) :
  let result := (longest_keyphrases candidate_keyphrases).2 in
  longest_keyphrases result = (result, result).
Proof.
  apply longest_keyphrases_gen_idempotent.
  - apply extended_by_irrefl.
  - apply extended_by_trans.
Qed.

(** A run of the function: the phrase [a] is replaced by the first phrase
    that has it as a word, which is then extended no further; the slot of
    a replaced phrase is overwritten in the argument list. *)
Example longest_keyphrases_run :
  longest_keyphrases ["a"; "x a b"; "a b"; "c"; "a"]
  = (["x a b"; "x a b"; "a b"; "c"; "a"], ["x a b"; "c"]).
Proof. vm_compute. reflexivity. Qed.

(** ** The shrink-and-retry loop of [fit_base_level_prompts] *)

Section PromptFacts.
Context {token : Type}.
Variable tokenize : string → list token.
Variable detokenize : list token → string.
Variable n_ctx : nat.
Variable build_base_prompt : nat → Z → string.

Local Notation "'too_long' c q" :=
  (n_ctx < length (tokenize (build_base_prompt c q)))
  (at level 10, c at level 9, q at level 9).

(** While every prompt the loop can build is too long, it does not exit:
    [prompt_length] is the length of the prompt before truncation. *)
Lemma shrink_loop_diverges cluster_id max_docs :
  (∀ q, (0 ≤ q ≤ max_docs)%Z → too_long cluster_id q) →
  ∀ fuel reduced prompt prompt_length,
    (0 ≤ reduced ≤ max_docs)%Z → n_ctx < prompt_length →
    shrink_loop tokenize detokenize n_ctx build_base_prompt fuel cluster_id
      reduced prompt prompt_length = None.
Proof.
  intros Hlong. induction fuel as [|fuel IH];
    intros reduced prompt prompt_length Hr Hlen; simpl;
    destruct (decide (n_ctx < prompt_length)); try done.
  assert (0 ≤ reduced `div` 2 ≤ max_docs)%Z.
  { split; [apply Z.div_pos; lia|].
    transitivity reduced; [|lia]. apply Z.div_le_upper_bound; lia. }
  apply IH; auto.
Qed.

Lemma base_prompt_diverges cluster_id max_docs :
  (0 ≤ max_docs)%Z →
  (∀ q, (0 ≤ q ≤ max_docs)%Z → too_long cluster_id q) →
  ∀ fuel,
    base_prompt tokenize detokenize n_ctx build_base_prompt fuel max_docs
      cluster_id = None.
Proof.
  intros Hpos Hlong fuel. unfold base_prompt.
  eapply shrink_loop_diverges; eauto; [lia|]. apply Hlong. lia.
Qed.

(** When the prompt without any document fits the context window, the loop
    exits after at most one iteration per halving and one more. *)
Lemma shrink_loop_terminates cluster_id :
  ¬ too_long cluster_id 0 →
  ∀ bound reduced, (0 ≤ reduced)%Z → Z.to_nat reduced ≤ bound →
    ∃ fuel, ∀ prompt prompt_length,
      is_Some (shrink_loop tokenize detokenize n_ctx build_base_prompt fuel
                 cluster_id reduced prompt prompt_length).
Proof.
  intros Hfit. induction bound as [|bound IH]; intros reduced Hpos Hb.
  - exists 1. intros prompt prompt_length. simpl.
    destruct (decide (n_ctx < prompt_length)); [|eauto].
    replace reduced with 0%Z by lia. change (0 `div` 2)%Z with 0%Z.
    destruct (decide (n_ctx < _)); [done|eauto].
  - destruct (decide (reduced = 0%Z)) as [->|Hne]; [apply IH; simpl; lia|].
    destruct (IH (reduced `div` 2)%Z) as [fuel Hfuel].
    { apply Z.div_pos; lia. }
    { assert (reduced `div` 2 < reduced)%Z by (apply Z.div_lt; lia). lia. }
    exists (S fuel). intros prompt prompt_length. simpl.
    destruct (decide (n_ctx < prompt_length)); [|eauto]. apply Hfuel.
Qed.

End PromptFacts.

Lemma length_list_ascii_of_string (s : string) :
  length (list_ascii_of_string s) = String.length s.
Proof. induction s as [|a s IH]; simpl; [done|]. by rewrite IH. Qed.

(** C9, the failing input: one cluster whose prompt has sixteen tokens even
    without any document, and a context window of four tokens.  The loop
    halves the quota down to zero and truncates the prompt, but tests the
    length from before the truncation again: for no number of iterations
    does it exit, and no prompt is produced. *)
Theorem prompt_loop_never_exits (fuel : nat) :
  fit_base_level_prompts char_tokenize char_detokenize 4 line_prompt fuel 1 100
  = None.
Proof.
  unfold fit_base_level_prompts. simpl.
  rewrite base_prompt_diverges; [done|lia|].
  intros q _. unfold char_tokenize, line_prompt.
  rewrite length_list_ascii_of_string, length_append. simpl. lia.
Qed.

(** ** EvidenceSelectors: the selector of sentences *)

Lemma take_rows_total `{Inhabited A} (a : list A) (idx : list nat) :
  Forall (λ j, j < length a) idx →
  take_rows a idx = Ok ((a !!!.) <$> idx).
Proof.
  induction 1 as [|j idx Hj _ IH]; simpl; [done|].
  rewrite get_lookup_total by done. by rewrite IH.
Qed.

Lemma take_rows_Ok_inv {A} (a : list A) (idx : list nat) xs :
  take_rows a idx = Ok xs →
  Forall (λ j, j < length a) idx ∧ Forall2 (λ j x, a !! j = Some x) idx xs.
Proof.
  revert xs. induction idx as [|j idx IH]; intros xs; simpl.
  - intros [= <-]. by split.
  - destruct (get a j) as [x|] eqn:Ex; [|done]. simpl.
    destruct (take_rows a idx) as [xs'|]; [|done]. simpl. intros [= <-].
    apply get_Ok in Ex. destruct (IH xs' eq_refl) as [Hlt Hall].
    split; constructor; try done. by eapply lookup_lt_Some.
Qed.

Lemma slice_to_prefix {A} (n : Z) (l : list A) : slice_to n l `prefix_of` l.
Proof. unfold slice_to. destruct (decide _); apply prefix_take. Qed.

Lemma slice_to_length {A} (n : Z) (l : list A) :
  (0 ≤ n)%Z → (Z.of_nat (length (slice_to n l)) ≤ n)%Z.
Proof.
  intros Hn. unfold slice_to. rewrite decide_True by done.
  rewrite length_take. lia.
Qed.

(** Indexing a list without repetition at distinct positions gives distinct
    entries. *)
Lemma NoDup_lookups `{Inhabited A} (l : list A) (idx : list nat) :
  NoDup l → NoDup idx → Forall (λ j, j < length l) idx →
  NoDup ((l !!!.) <$> idx).
Proof.
  intros Hl. induction 1 as [|j idx Hj Hidx IH]; intros Hlt; [constructor|].
  apply Forall_cons in Hlt as [Hjl Hlt]. rewrite fmap_cons.
  constructor; [|by apply IH].
  intros (j' & Heq & Hj')%list_elem_of_fmap. apply Hj.
  rewrite Forall_forall in Hlt. specialize (Hlt j' Hj').
  replace j with j'; [done|].
  apply (NoDup_lookup l j' j (l !!! j) Hl).
  - rewrite Heq. by apply list_lookup_lookup_total_lt.
  - by apply list_lookup_lookup_total_lt.
Qed.

(** The positions that a selector keeps: distinct entries of the ranking. *)
Lemma ranked_positions (ranking retained : list nat) (bound : nat) :
  NoDup ranking → Forall (λ p, p < bound) ranking →
  retained_ok (length ranking) retained →
  ∀ kept, kept `prefix_of` retained →
    NoDup ((ranking !!!.) <$> kept) ∧
    Forall (λ p, p < bound) ((ranking !!!.) <$> kept) ∧
    Forall (λ j, j < length ranking) kept.
Proof.
  intros Hnd Hbound (_ & Hsorted & Hlt) kept [tl ->].
  apply Forall_app in Hlt as [Hlt _].
  assert (Hkept : NoDup kept).
  { apply StronglySorted_app in Hsorted as (_ & Hsorted & _).
    clear -Hsorted. induction Hsorted as [|x l _ IH Hx]; constructor;
      [|done].
    intros Hin. rewrite Forall_forall in Hx. specialize (Hx x Hin). lia. }
  split; [by apply NoDup_lookups|]. split; [|done].
  apply Forall_fmap. eapply Forall_impl; [exact Hlt|]. simpl.
  intros j Hj. rewrite Forall_forall in Hbound. apply Hbound.
  apply list_elem_of_lookup_total_2. done.
Qed.

Lemma argsort_NoDup `{Numeric F} (row : list F) : NoDup (argsort row).
Proof. rewrite argsort_permutation. apply NoDup_seq. Qed.

Lemma argsort_in_range `{Numeric F} (row : list F) :
  Forall (λ p, p < length row) (argsort row).
Proof.
  rewrite argsort_permutation. apply Forall_forall.
  intros p Hp%elem_of_seq. lia.
Qed.

Lemma argsort_length `{Numeric F} (row : list F) :
  length (argsort row) = length row.
Proof. by rewrite argsort_permutation, length_seq. Qed.

(** The selector of sentences on a pointset of document indices. *)
Lemma topical_sentences_returns `{Numeric F}
    (cosine_distance : list F → list F → F) (alpha_default : F)
    (docs : list string) (vector_array : list (list F))
    (pointset : list nat) (centroid_vector : list F)
    (n_sentence_examples : Z) :
  pointset ≠ [] →
  Forall (λ i, i < length docs) pointset →
  Forall (λ i, i < length vector_array) pointset →
  ∃ positions,
    topical_sentences_for_cluster cosine_distance alpha_default docs
      vector_array pointset centroid_vector n_sentence_examples
    = Ok ((λ p, docs !!! (pointset !!! p)) <$> positions) ∧
    NoDup positions ∧
    Forall (λ p, p < length pointset) positions ∧
    length positions ≤ 16 ∧
    ((0 ≤ n_sentence_examples)%Z →
     (Z.of_nat (length positions) ≤ n_sentence_examples)%Z) ∧
    ((1 ≤ n_sentence_examples)%Z → positions ≠ []).
Proof.
  intros Hne Hdocs Hvectors. unfold topical_sentences_for_cluster.
  rewrite (take_rows_total docs) by done.
  rewrite (take_rows_total vector_array) by done. simpl.
  set (sentences := (docs !!!.) <$> pointset).
  set (sent_vectors := (vector_array !!!.) <$> pointset).
  assert (Hlen : length sent_vectors = length pointset)
    by apply length_fmap.
  destruct sent_vectors as [|v0 vs] eqn:Esv;
    [by destruct pointset|]. rewrite <- Esv in *. clear Esv v0 vs.
  set (ranking := argsort (map (cosine_distance centroid_vector) sent_vectors)).
  assert (Hrl : length ranking = length pointset).
  { unfold ranking. by rewrite argsort_length, length_map. }
  assert (Hrange : Forall (λ p, p < length pointset) ranking).
  { unfold ranking. rewrite <- Hlen, <- (length_map (cosine_distance centroid_vector)).
    apply argsort_in_range. }
  rewrite (take_rows_total sent_vectors)
    by (by rewrite Hlen).
  simpl.
  destruct (diversify_total cosine_distance centroid_vector
              ((sent_vectors !!!.) <$> ranking) alpha_default 16)
    as (retained & -> & Hok & Hcap).
  { intros Hnil%(f_equal length). rewrite length_fmap, Hrl in Hnil.
    by destruct pointset. }
  simpl. rewrite length_fmap in Hok.
  destruct (ranked_positions ranking retained (length pointset)
              (argsort_NoDup _) Hrange Hok
              (slice_to n_sentence_examples retained)
              (slice_to_prefix _ _)) as (Hnd & Hlt & Hkept).
  rewrite (take_rows_total ranking) by done. simpl.
  rewrite (take_rows_total sentences)
    by (by unfold sentences; rewrite length_fmap).
  exists ((ranking !!!.) <$> slice_to n_sentence_examples retained).
  split; [|split; [done|split; [done|split; [|split]]]].
  - f_equal. apply Forall_fmap_ext_1.
    eapply Forall_impl; [exact Hlt|]. simpl. intros p Hp.
    unfold sentences.
    by rewrite (list_lookup_total_fmap (λ i, docs !!! i) pointset p Hp).
  - rewrite length_fmap.
    pose proof (prefix_length _ _ (slice_to_prefix n_sentence_examples retained)).
    lia.
  - intros Hn. rewrite length_fmap. by apply slice_to_length.
  - intros Hn Hnil%(f_equal length). rewrite length_fmap in Hnil.
    destruct Hok as (Hhd & _). destruct retained as [|r0 retained]; [done|].
    unfold slice_to in Hnil. rewrite decide_True in Hnil by lia.
    rewrite length_take in Hnil. simpl in Hnil. lia.
Qed.

Lemma get_z_lookup_total `{Inhabited A} (l : list A) (z : Z) :
  (0 ≤ z < Z.of_nat (length l))%Z → get_z l z = Ok (l !!! Z.to_nat z).
Proof.
  intros Hz. unfold get_z. rewrite decide_True by lia.
  apply get_lookup_total. lia.
Qed.


(** ** TopicDeduplicator *)

Lemma names_after_nil names : names_after names [] = names.
Proof. unfold names_after. set_solver. Qed.

Lemma names_after_cons names e log :
  names_after names (e :: log)
  = names_after (names ∪ {[committed_name e]}) log.
Proof. unfold names_after. set_solver. Qed.

Lemma names_after_app names log1 log2 :
  names_after names (log1 ++ log2)
  = names_after (names_after names log1) log2.
Proof. unfold names_after. rewrite fmap_app. set_solver. Qed.

Lemma log_ok_app names log1 log2 :
  log_ok names (log1 ++ log2) ↔
  log_ok names log1 ∧ log_ok (names_after names log1) log2.
Proof.
  revert names. induction log1 as [|e log1 IH]; intros names; simpl.
  - rewrite names_after_nil. tauto.
  - rewrite IH, names_after_cons. tauto.
Qed.

Section DeduplicatorFacts.
Context `{Numeric F}.
Variable cosine_distance : list F → list F → F.
Variable alpha_default : F.
Variable llm : nat → string → string.
Variable choice : nat → list string → list string.
Variable documents : list string.
Variable document_vectors : list (list F).
Variable vector_layers : list (list (list F)).
Variables (document_type corpus_description : string).

Local Notation "'remedy_loop_'" :=
  (remedy_loop cosine_distance alpha_default llm choice documents
     document_vectors vector_layers document_type corpus_description).
Local Notation "'clean_cluster_'" :=
  (clean_cluster cosine_distance alpha_default llm choice documents
     document_vectors vector_layers document_type corpus_description).
Local Notation "'clean_layer_'" :=
  (clean_layer cosine_distance alpha_default llm choice documents
     document_vectors vector_layers document_type corpus_description).
Local Notation "'ready_'" :=
  (remedy_ready documents document_vectors vector_layers).

(** The remedy prompt is built for a pointset with a document. *)
Lemma create_final_remedy_prompt_returns (draw : list string → list string)
    (original_topic_names : list string) (indices : list nat)
    (centroid_vector : list F) :
  indices ≠ [] →
  Forall (λ d, d < length documents) indices →
  Forall (λ d, d < length document_vectors) indices →
  original_topic_names ≠ [] →
  ∃ text,
    create_final_remedy_prompt cosine_distance alpha_default draw
      original_topic_names documents document_vectors indices
      centroid_vector document_type corpus_description = Ok text.
Proof.
  intros Hne Hdocs Hvectors Hnames. unfold create_final_remedy_prompt.
  destruct (topical_sentences_returns cosine_distance alpha_default
              documents document_vectors indices centroid_vector 64
              Hne Hdocs Hvectors)
    as (positions & -> & _).
  cbn [mbind result_bind].
  assert (Hlast : ∃ last_name, get_z original_topic_names (-1) = Ok last_name).
  { unfold get_z. rewrite decide_False by lia.
    destruct original_topic_names as [|t0 ts]; [done|].
    rewrite decide_True by (simpl; lia).
    destruct (lookup_lt_is_Some_2 (t0 :: ts)
                (length (t0 :: ts) - Z.to_nat (- -1))) as [x Hx];
      [simpl; lia|].
    apply get_Ok in Hx. eauto. }
  destruct Hlast as [last_name ->]. cbn [mbind result_bind]. eauto.
Qed.

Lemma remedy_loop_S fuel names n i indices unique_name tried n_attempts
    calls :
  remedy_loop_ (S fuel) names n i indices unique_name tried n_attempts calls
  = if bool_decide (unique_name ∈ names) && (n_attempts <? 8) then
      layer_vectors ← get vector_layers n;
      centroid_vector ← get layer_vectors i;
      prompt_text ←
        create_final_remedy_prompt cosine_distance alpha_default
          (choice calls) tried documents document_vectors indices
          centroid_vector document_type corpus_description;
      remedy_loop_ fuel names n i indices
        (name_of_completion (llm calls prompt_text))
        (tried ++ [name_of_completion (llm calls prompt_text)])
        (S n_attempts) (S calls)
    else Ok (unique_name, n_attempts, calls).
Proof. reflexivity. Qed.

(** What the loop has settled when it ends. *)
Lemma remedy_loop_spec fuel names n i indices unique_name tried n_attempts
    calls u att c :
  n_attempts + fuel = 8 →
  remedy_loop_ fuel names n i indices unique_name tried n_attempts calls
    = Ok (u, att, c) →
  n_attempts ≤ att ≤ 8 ∧
  (att < 8 → u ∉ names) ∧
  (unique_name ∈ names → n_attempts < 8 → n_attempts < att) ∧
  (unique_name ∉ names → u = unique_name ∧ att = n_attempts) ∧
  c + n_attempts = calls + att ∧
  (u = unique_name ∨ ∃ text, u = name_of_completion text).
Proof.
  revert unique_name tried n_attempts calls.
  induction fuel as [|fuel IH]; intros unique_name tried n_attempts calls Hsum.
  - simpl. intros [= <- <- <-]. repeat split; try lia; try done. by left.
  - rewrite remedy_loop_S.
    destruct (bool_decide (unique_name ∈ names)) eqn:Hin; simpl.
    + destruct (n_attempts <? 8) eqn:Hlt; [|apply Nat.ltb_ge in Hlt; lia].
      apply bool_decide_eq_true in Hin.
      intros (lv & _ & (v & _ & (text & _ & Hrun)%bind_Ok)%bind_Ok)%bind_Ok.
      apply IH in Hrun as (? & ? & _ & _ & ? & Hname); [|lia].
      repeat split; try lia; try done.
      right. destruct Hname as [->|?]; eauto.
    + apply bool_decide_eq_false in Hin. intros [= <- <- <-].
      repeat split; try lia; try done. by left.
Qed.

(** The loop ends for a cluster that a remedy prompt can be built for. *)
Lemma remedy_loop_returns fuel names n i indices unique_name tried n_attempts
    calls :
  ready_ n i indices → tried ≠ [] →
  ∃ r, remedy_loop_ fuel names n i indices unique_name tried n_attempts calls
       = Ok r.
Proof.
  intros (Hne & Hdocs & Hvectors & Hcentroid).
  revert unique_name tried n_attempts calls.
  induction fuel as [|fuel IH]; intros unique_name tried n_attempts calls Htried;
    [simpl; eauto|].
  rewrite remedy_loop_S. destruct (_ && _); [|eauto].
  destruct Hcentroid as [v Hv].
  destruct (vector_layers !! n) as [lv|] eqn:Hlv; [|done]. simpl in Hv.
  apply get_Ok in Hlv, Hv. rewrite Hlv. cbn [mbind result_bind].
  rewrite Hv. cbn [mbind result_bind].
  destruct (create_final_remedy_prompt_returns (choice calls) tried indices v
              Hne Hdocs Hvectors Htried) as [text ->].
  cbn [mbind result_bind]. apply IH. by destruct tried.
Qed.

Lemma assign_in_range (a : list string) indices v :
  Forall (λ j, j < length a) indices →
  ∃ a', assign a indices v = Ok a' ∧ length a' = length a.
Proof.
  unfold assign. revert a.
  induction indices as [|j indices IH]; intros a Hj; simpl; [eauto|].
  apply Forall_cons in Hj as [Hj Hrest].
  destruct (lookup_lt_is_Some_2 a j Hj) as [x Hx].
  unfold update. apply get_Ok in Hx. rewrite Hx. simpl.
  destruct (IH (<[j:=v]> a)) as (a' & Ha' & Hlen).
  { by rewrite length_insert. }
  exists a'. split; [done|]. by rewrite Hlen, length_insert.
Qed.

(** What settling one cluster does to the state, when it returns. *)
Lemma clean_cluster_Ok n i name indices st st' :
  clean_cluster_ n (i, (name, indices)) st = Ok st' →
  ∃ u att labels labels',
    layer_clusters st !! n = Some labels ∧
    assign labels indices u = Ok labels' ∧
    layer_clusters st' = <[n:=labels']> (layer_clusters st) ∧
    committed st' = committed st ++ [Commit n i name u att] ∧
    unique_names st' = unique_names st ∪ {[u]} ∧
    calls st' = calls st + att ∧
    (u = recap name ∨ ∃ text, u = name_of_completion text) ∧
    commit_ok (unique_names st) (Commit n i name u att).
Proof.
  unfold clean_cluster.
  intros ([[u att] c] & Hloop & Hrest)%bind_Ok.
  apply remedy_loop_spec in Hloop
    as (Hatt & Hfresh & Hused & Hfirst & Hcalls & Hname); [|done].
  apply bind_Ok in Hrest as (labels & Hlabels%get_Ok & Hrest).
  apply bind_Ok in Hrest as (labels' & Hassign & [= <-]).
  exists u, att, labels, labels'. simpl.
  do 5 (split; [done|]). split; [lia|]. split; [done|].
  unfold commit_ok. simpl. split; [lia|]. split; [done|]. split; [|done].
  intros Hin. specialize (Hused Hin). lia.
Qed.

Lemma clean_cluster_spec n_layers n_docs n i name indices st :
  labels_ok n_layers n_docs st → n < n_layers →
  Forall (λ j, j < n_docs) indices →
  ready_ n i indices →
  ∃ st' e,
    clean_cluster_ n (i, (name, indices)) st = Ok st' ∧
    committed st' = committed st ++ [e] ∧
    unique_names st' = unique_names st ∪ {[committed_name e]} ∧
    layer e = n ∧ cluster e = i ∧ raw_name e = name ∧
    commit_ok (unique_names st) e ∧
    labels_ok n_layers n_docs st'.
Proof.
  intros [Hlen Hrows] Hn Hidx Hready.
  destruct (remedy_loop_returns 8 (unique_names st) n i indices (recap name)
              [recap name] 0 (calls st) Hready) as [[[u att] c] Hloop];
    [done|].
  destruct (lookup_lt_is_Some_2 (layer_clusters st) n) as [a Ha]; [lia|].
  assert (Hla : length a = n_docs).
  { rewrite Forall_forall in Hrows. apply Hrows.
    eapply list_elem_of_lookup_2; eauto. }
  destruct (assign_in_range a indices u) as (a' & Hassign & Hla');
    [by rewrite Hla|].
  assert (Hrun : ∃ st',
            clean_cluster_ n (i, (name, indices)) st = Ok st').
  { unfold clean_cluster. rewrite Hloop. cbn [mbind result_bind].
    apply get_Ok in Ha. rewrite Ha. cbn [mbind result_bind].
    rewrite Hassign. cbn [mbind result_bind]. eauto. }
  destruct Hrun as [st' Hrun]. exists st'.
  destruct (clean_cluster_Ok _ _ _ _ _ _ Hrun)
    as (u' & att' & labels & labels' & Hl & Has & Hlc & Hlog & Hnames & _
        & _ & Hok).
  eexists. split; [done|]. split; [exact Hlog|]. split; [exact Hnames|].
  do 3 (split; [done|]). split; [done|].
  assert (labels = a) as -> by congruence.
  split; rewrite Hlc.
  - by rewrite length_insert.
  - apply Forall_insert; [done|].
    destruct (assign_in_range a indices u') as (a'' & Has' & Hlen');
      [by rewrite Hla|].
    assert (a'' = labels') as -> by congruence. congruence.
Qed.

Lemma clean_clusters_spec n_layers n_docs n entries st :
  labels_ok n_layers n_docs st → n < n_layers →
  Forall (λ entry, Forall (λ j, j < n_docs) entry.2.2 ∧
                   ready_ n entry.1 entry.2.2) entries →
  ∃ st' log,
    for_each entries (clean_cluster_ n) st = Ok st' ∧
    committed st' = committed st ++ log ∧
    unique_names st' = names_after (unique_names st) log ∧
    logged n entries log ∧
    log_ok (unique_names st) log ∧
    labels_ok n_layers n_docs st'.
Proof.
  intros Hst Hn. revert st Hst.
  induction entries as [|[i [name indices]] entries IH]; intros st Hst Hidx.
  - exists st, []. simpl. rewrite app_nil_r, names_after_nil.
    repeat split; try done; try apply Hst. constructor.
  - apply Forall_cons in Hidx as [[Hi Hready] Hrest]. simpl in Hi, Hready.
    rewrite for_each_cons.
    destruct (clean_cluster_spec n_layers n_docs n i name indices st)
      as (st1 & e & -> & Hlog & Hnames & Hl & Hc & Hr & Hok & Hst1); try done.
    cbn [mbind result_bind]. destruct (IH st1 Hst1 Hrest)
      as (st' & log & -> & Hlog' & Hnames' & Hlogged & Hok' & Hst').
    exists st', (e :: log). split; [done|].
    rewrite Hlog', Hlog, <- app_assoc. split; [done|].
    rewrite names_after_cons, <- Hnames. split; [done|].
    split; [by constructor|]. split; [|done].
    simpl. by rewrite <- Hnames.
Qed.

End DeduplicatorFacts.

(** Facts about logs. *)

Lemma names_after_elem_of names log e :
  e ∈ log → committed_name e ∈ names_after names log.
Proof.
  intros He. unfold names_after. apply elem_of_union. right.
  apply elem_of_list_to_set, list_elem_of_fmap. eauto.
Qed.

Lemma names_after_take_mono names log p q :
  p ≤ q → names_after names (take p log) ⊆ names_after names (take q log).
Proof.
  intros Hpq. rewrite <- (take_drop p (take q log)), take_take.
  replace (p `min` q) with p by lia. rewrite names_after_app.
  unfold names_after at 2. set_solver.
Qed.

Lemma log_ok_lookup names log q e :
  log_ok names log → log !! q = Some e →
  commit_ok (names_after names (take q log)) e.
Proof.
  intros Hok He. rewrite <- (take_drop_middle log q e He) in Hok.
  apply log_ok_app in Hok as [_ [Hok _]]. done.
Qed.

(** Two clusters of one log, the first settled before the second. *)
Lemma log_ok_pair names log p q ci cj :
  log_ok names log → log !! p = Some ci → log !! q = Some cj → p < q →
  attempts ci ≤ 8 ∧ attempts cj ≤ 8 ∧
  (attempts cj < 8 → committed_name ci ≠ committed_name cj) ∧
  (recap (raw_name ci) = recap (raw_name cj) → 1 ≤ attempts cj).
Proof.
  intros Hok Hi Hj Hpq.
  destruct (log_ok_lookup names log p ci Hok Hi) as (Hai & _ & _ & Hfirst).
  destruct (log_ok_lookup names log q cj Hok Hj) as (Haj & Hfresh & Hused & _).
  assert (Hseen : ci ∈ take q log).
  { eapply list_elem_of_lookup_2. rewrite lookup_take_lt; eauto. }
  split; [done|]. split; [done|]. split.
  - intros Hlt Heq. apply (Hfresh Hlt). rewrite <- Heq.
    by apply names_after_elem_of.
  - intros Heq. apply Hused. rewrite <- Heq.
    destruct (decide (recap (raw_name ci) ∈ names_after names (take p log)))
      as [Hin|Hout].
    + eapply names_after_take_mono; [|exact Hin]. lia.
    + destruct (Hfirst Hout) as [<- _]. by apply names_after_elem_of.
Qed.

Section PassFacts.
Context `{Numeric F}.
Variable cosine_distance : list F → list F → F.
Variable alpha_default : F.
Variable llm : nat → string → string.
Variable choice : nat → list string → list string.
Variable documents : list string.
Variable document_vectors : list (list F).
Variable vector_layers : list (list (list F)).
Variables (document_type corpus_description : string).

Local Notation "'remedy_loop_'" :=
  (remedy_loop cosine_distance alpha_default llm choice documents
     document_vectors vector_layers document_type corpus_description).
Local Notation "'clean_cluster_'" :=
  (clean_cluster cosine_distance alpha_default llm choice documents
     document_vectors vector_layers document_type corpus_description).
Local Notation "'clean_layer_'" :=
  (clean_layer cosine_distance alpha_default llm choice documents
     document_vectors vector_layers document_type corpus_description).
Local Notation "'ready_'" :=
  (remedy_ready documents document_vectors vector_layers).
Variable n_docs : nat.
Variable topic_name_layers : list (list string).
Variable pointset_layers : list (list (list nat)).

Hypothesis enough_pointset_layers :
  length topic_name_layers ≤ length pointset_layers.
Hypothesis documents_in_range :
  Forall (Forall (Forall (λ d, d < n_docs))) pointset_layers.
Hypothesis documents_length : length documents = n_docs.
Hypothesis vectors_length : length document_vectors = n_docs.
Hypothesis clusters_ready :
  Forall2 (Forall2 (λ (ps : list nat) (v : list F), ps ≠ []))
    pointset_layers vector_layers.

Local Notation "'n_layers'" := (length topic_name_layers).

Lemma entries_ready n names pointsets :
  pointset_layers !! n = Some pointsets →
  Forall (λ entry, Forall (λ j, j < n_docs) entry.2.2 ∧
                   ready_ n entry.1 entry.2.2)
    (layer_entries names pointsets).
Proof using documents_in_range documents_length vectors_length
  clusters_ready.
  intros Hps. apply Forall_forall.
  intros [i [name indices]] [k Hk]%list_elem_of_lookup. simpl.
  unfold layer_entries in Hk.
  apply lookup_zip_with_Some in Hk as (? & ? & [= <- <-] & Hi & Hentry).
  apply lookup_seq in Hi as [-> _]. simpl in *.
  apply lookup_zip_with_Some in Hentry as (? & ? & [= <- <-] & _ & Hind).
  assert (Hrange : Forall (λ j, j < n_docs) indices).
  { rewrite Forall_forall in documents_in_range.
    specialize (documents_in_range pointsets
                  (list_elem_of_lookup_2 _ _ _ Hps)).
    rewrite Forall_forall in documents_in_range.
    apply documents_in_range. by eapply list_elem_of_lookup_2. }
  destruct (Forall2_lookup_l _ _ _ _ _ clusters_ready Hps)
    as (vs & Hvs & Hlayer).
  destruct (Forall2_lookup_l _ _ _ _ _ Hlayer Hind) as (v & Hv & Hne).
  split; [done|]. unfold remedy_ready.
  rewrite documents_length, vectors_length, Hvs. simpl. rewrite Hv.
  by repeat split.
Qed.

Lemma clean_layer_spec n names pointsets st :
  labels_ok n_layers n_docs st →
  topic_name_layers !! n = Some names →
  pointset_layers !! n = Some pointsets →
  ∃ st' log,
    clean_layer_ topic_name_layers pointset_layers n st = Ok st' ∧
    committed st' = committed st ++ log ∧
    unique_names st' = names_after (unique_names st) log ∧
    logged n (layer_entries names pointsets) log ∧
    log_ok (unique_names st) log ∧
    labels_ok n_layers n_docs st'.
Proof using documents_in_range documents_length vectors_length
  clusters_ready.
  intros Hst Hnames Hps. unfold clean_layer.
  apply get_Ok in Hnames as Hg1. apply get_Ok in Hps as Hg2.
  rewrite Hg1, Hg2. cbn [mbind result_bind].
  apply (clean_clusters_spec cosine_distance alpha_default llm choice
           documents document_vectors vector_layers document_type
           corpus_description n_layers n_docs);
    [done|by eapply lookup_lt_Some|].
  by apply entries_ready.
Qed.

Lemma clean_layers_spec (ns : list nat) st :
  labels_ok n_layers n_docs st →
  Forall (λ n, n < n_layers) ns →
  ∃ st' logs,
    for_each ns (clean_layer_ topic_name_layers pointset_layers) st
      = Ok st' ∧
    committed st' = committed st ++ concat logs ∧
    unique_names st' = names_after (unique_names st) (concat logs) ∧
    log_ok (unique_names st) (concat logs) ∧
    Forall2 (λ n log, ∃ names pointsets,
               topic_name_layers !! n = Some names ∧
               pointset_layers !! n = Some pointsets ∧
               logged n (layer_entries names pointsets) log) ns logs.
Proof using enough_pointset_layers documents_in_range documents_length
  vectors_length clusters_ready.
  revert st. induction ns as [|n0 ns IH]; intros st Hst Hns.
  - exists st, []. simpl. rewrite app_nil_r, names_after_nil.
    repeat split; done.
  - apply Forall_cons in Hns as [Hn0 Hns]. rewrite for_each_cons.
    destruct (lookup_lt_is_Some_2 topic_name_layers n0 Hn0) as [names0 Hnames0].
    destruct (lookup_lt_is_Some_2 pointset_layers n0) as [ps0 Hps0]; [lia|].
    destruct (clean_layer_spec n0 names0 ps0 st Hst Hnames0 Hps0)
      as (st1 & log1 & -> & Hlog1 & Hnames1 & Hlogged1 & Hok1 & Hst1).
    cbn [mbind result_bind]. destruct (IH st1 Hst1 Hns)
      as (st' & logs & -> & Hlog2 & Hnames2 & Hok2 & Hall).
    exists st', (log1 :: logs). split; [done|]. simpl.
    split; [by rewrite Hlog2, Hlog1, <- app_assoc|].
    split; [by rewrite names_after_app, <- Hnames1|].
    split; [apply log_ok_app; by rewrite <- Hnames1|].
    constructor; [|done]. eauto.
Qed.

(** The pass returns, and its log is made of one stretch per layer, from
    the last layer down. *)
Lemma clean_topic_names_spec :
  ∃ st logs,
    clean_topic_names cosine_distance alpha_default llm choice documents
      document_vectors vector_layers document_type corpus_description
      n_docs topic_name_layers pointset_layers = Ok st ∧
    committed st = concat logs ∧
    unique_names st = names_after ∅ (concat logs) ∧
    log_ok ∅ (concat logs) ∧
    Forall2 (λ n log, ∃ names pointsets,
               topic_name_layers !! n = Some names ∧
               pointset_layers !! n = Some pointsets ∧
               logged n (layer_entries names pointsets) log)
      (rev (seq 0 n_layers)) logs.
Proof using enough_pointset_layers documents_in_range documents_length
  vectors_length clusters_ready.
  unfold clean_topic_names.
  apply (clean_layers_spec (rev (seq 0 n_layers))
           {| unique_names := ∅;
              layer_clusters :=
                replicate n_layers (replicate n_docs "Unlabelled");
              calls := 0;
              committed := [] |}).
  - split; simpl; [by rewrite length_replicate|].
    apply Forall_replicate. by rewrite length_replicate.
  - apply Forall_forall. intros m Hm.
    rewrite list_elem_of_In, <- in_rev, <- list_elem_of_In, elem_of_seq in Hm.
    lia.
Qed.

End PassFacts.

(** A stretch of a concatenation stands in it at an offset. *)
Lemma concat_lookup_stretch {A} (ls : list (list A)) k l :
  ls !! k = Some l →
  ∃ before after, concat ls = before ++ l ++ after.
Proof.
  intros Hk. rewrite <- (take_drop_middle ls k l Hk), concat_app. simpl.
  eauto.
Qed.

Lemma logged_lookup n names pointsets log i name :
  logged n (layer_entries names pointsets) log →
  names !! i = Some name → i < length pointsets →
  ∃ e, log !! i = Some e ∧ layer e = n ∧ cluster e = i ∧ raw_name e = name.
Proof.
  intros Hlogged Hname Hi.
  destruct (lookup_lt_is_Some_2 pointsets i Hi) as [indices Hindices].
  assert (Hentry : layer_entries names pointsets !! i
                   = Some (i, (name, indices))).
  { unfold layer_entries. apply lookup_zip_with_Some.
    exists i, (name, indices). split; [done|]. split.
    - apply lookup_seq. split; [done|]. rewrite length_zip.
      apply lookup_lt_Some in Hname. lia.
    - apply lookup_zip_with_Some. eauto. }
  destruct (Forall2_lookup_l _ _ _ _ _ Hlogged Hentry)
    as (e & He & Hl & Hc & Hr).
  eauto.
Qed.

(** C7, as amended: when two clusters [i < j] of one layer both have the
    raw name Research, the pass returns, given pointsets that index the
    documents and, for every cluster, a pointset with a document and a
    centroid (what the remedy prompt is built from); both committed names
    are in the set of used names; each cluster made at most 8 attempts and
    the second at least one; and the two committed names differ whenever
    the second cluster stopped before its eighth attempt.  A name that is
    still taken after 8 attempts is committed as it is. *)
Theorem dedup_same_raw_name `{Numeric F}
    (cosine_distance : list F → list F → F) (alpha_default : F)
    (llm : nat → string → string) (choice : nat → list string → list string)
    (documents : list string) (document_vectors : list (list F))
    (vector_layers : list (list (list F)))
    (document_type corpus_description : string)
    (n_docs : nat) (topic_name_layers : list (list string))
    (pointset_layers : list (list (list nat)))
    (n : nat) (names : list string) (pointsets : list (list nat))
    (i j : nat) :
  length topic_name_layers ≤ length pointset_layers →
  Forall (Forall (Forall (λ d, d < n_docs))) pointset_layers →
  length documents = n_docs → length document_vectors = n_docs →
  Forall2 (Forall2 (λ (ps : list nat) (v : list F), ps ≠ []))
    pointset_layers vector_layers →
  topic_name_layers !! n = Some names →
  pointset_layers !! n = Some pointsets →
  names !! i = Some "Research" → names !! j = Some "Research" →
  i < j → j < length pointsets →
  ∃ st ci cj,
    clean_topic_names cosine_distance alpha_default llm choice documents
      document_vectors vector_layers document_type corpus_description
      n_docs topic_name_layers pointset_layers = Ok st ∧
    ci ∈ committed st ∧ cj ∈ committed st ∧
    layer ci = n ∧ cluster ci = i ∧ layer cj = n ∧ cluster cj = j ∧
    committed_name ci ∈ unique_names st ∧
    committed_name cj ∈ unique_names st ∧
    attempts ci ≤ 8 ∧ 1 ≤ attempts cj ≤ 8 ∧
    (attempts cj < 8 → committed_name ci ≠ committed_name cj).
Proof.
  intros Hlayers Hdocs Hdl Hvl Hready Hnames Hps Hi Hj Hij Hjlen.
  destruct (clean_topic_names_spec cosine_distance alpha_default llm choice
              documents document_vectors vector_layers document_type
              corpus_description n_docs topic_name_layers pointset_layers
              Hlayers Hdocs Hdl Hvl Hready)
    as (st & logs & Hrun & Hlog & Hused & Hok & Hall).
  assert (Hn : n ∈ rev (seq 0 (length topic_name_layers))).
  { rewrite list_elem_of_In, <- in_rev, <- list_elem_of_In, elem_of_seq.
    apply lookup_lt_Some in Hnames. lia. }
  apply list_elem_of_lookup in Hn as [k Hk].
  destruct (Forall2_lookup_l _ _ _ _ _ Hall Hk)
    as (entries & Hentries & names' & pointsets' & Hnames' & Hps' & Hl).
  assert (names' = names) as -> by congruence.
  assert (pointsets' = pointsets) as -> by congruence.
  destruct (concat_lookup_stretch logs k entries Hentries)
    as (before & after & Hcat).
  rewrite Hcat in Hlog, Hused, Hok.
  destruct (logged_lookup n names pointsets entries i "Research" Hl Hi)
    as (ci & Hci & Hli & Hclu_i & Hraw_i); [lia|].
  destruct (logged_lookup n names pointsets entries j "Research" Hl Hj Hjlen)
    as (cj & Hcj & Hlj & Hclu_j & Hraw_j).
  assert (Hpi : (before ++ entries ++ after) !! (length before + i) = Some ci).
  { rewrite lookup_app_r by lia.
    replace (length before + i - length before) with i by lia.
    by apply lookup_app_l_Some. }
  assert (Hpj : (before ++ entries ++ after) !! (length before + j) = Some cj).
  { rewrite lookup_app_r by lia.
    replace (length before + j - length before) with j by lia.
    by apply lookup_app_l_Some. }
  destruct (log_ok_pair ∅ _ _ _ ci cj Hok Hpi Hpj)
    as (Hai & Haj & Hdiff & Hretry); [lia|].
  exists st, ci, cj. rewrite Hlog, Hused.
  split; [exact Hrun|].
  split; [by eapply list_elem_of_lookup_2|].
  split; [by eapply list_elem_of_lookup_2|].
  do 4 (split; [done|]).
  split; [apply names_after_elem_of; by eapply list_elem_of_lookup_2|].
  split; [apply names_after_elem_of; by eapply list_elem_of_lookup_2|].
  split; [done|]. split; [|done].
  split; [|done]. apply Hretry. by rewrite Hraw_i, Hraw_j.
Qed.

Lemma dedup_same_raw_name_witness :
  (length research_layers ≤ length research_pointsets ∧
   Forall (Forall (Forall (λ d, d < 2))) research_pointsets ∧
   length research_documents = 2 ∧ length research_vectors = 2 ∧
   Forall2 (Forall2 (λ (ps : list nat) (v : list float), ps ≠ []))
     research_pointsets research_centroids ∧
   research_layers !! 0 = Some ["Research"; "Research"] ∧
   research_pointsets !! 0 = Some [[0]; [1]]) ∧
  ∃ st ci cj,
    clean_topic_names cosine_distance64 1%float helpful_llm in_order
      research_documents research_vectors research_centroids
      "titles" "a journal" 2 research_layers research_pointsets = Ok st ∧
    ci ∈ committed st ∧ cj ∈ committed st ∧
    layer ci = 0 ∧ cluster ci = 0 ∧ layer cj = 0 ∧ cluster cj = 1 ∧
    committed_name ci ∈ unique_names st ∧
    committed_name cj ∈ unique_names st ∧
    attempts ci ≤ 8 ∧ 1 ≤ attempts cj ≤ 8 ∧
    (attempts cj < 8 → committed_name ci ≠ committed_name cj).
Proof.
  assert (H1 : length research_layers ≤ length research_pointsets)
    by (simpl; lia).
  assert (H2 : Forall (Forall (Forall (λ d, d < 2))) research_pointsets)
    by (repeat constructor).
  assert (H3 : length research_documents = 2) by reflexivity.
  assert (H4 : length research_vectors = 2) by reflexivity.
  assert (H5 : Forall2 (Forall2 (λ (ps : list nat) (v : list float), ps ≠ []))
                 research_pointsets research_centroids)
    by (repeat constructor; discriminate).
  assert (H6 : research_layers !! 0 = Some ["Research"; "Research"])
    by reflexivity.
  assert (H7 : research_pointsets !! 0 = Some [[0]; [1]]) by reflexivity.
  split; [done|].
  apply (dedup_same_raw_name cosine_distance64 1%float helpful_llm in_order
           research_documents research_vectors research_centroids
           "titles" "a journal" 2 research_layers research_pointsets 0
           ["Research"; "Research"] [[0]; [1]] 0 1 H1 H2 H3 H4 H5 H6 H7);
    [reflexivity|reflexivity|lia|simpl; lia].
Defined.

(** C7, the counterexample: a language model that answers every remedy
    prompt with Research.  The second cluster uses its 8 attempts and is
    committed under the name of the first. *)
Lemma stubborn_model_keeps_duplicate :
  ∃ st,
    clean_topic_names cosine_distance64 1%float stubborn_llm in_order
      research_documents research_vectors research_centroids
      "titles" "a journal" 2 research_layers research_pointsets = Ok st ∧
    committed st = [Commit 0 0 "Research" "Research" 0;
                    Commit 0 1 "Research" "Research" 8] ∧
    ¬ ∃ ci cj, committed st = [ci; cj] ∧ committed_name ci ≠ committed_name cj.
Proof.
  eexists. split; [vm_compute; reflexivity|]. split; [reflexivity|].
  intros (ci & cj & [= <- <-] & Hne). by apply Hne.
Qed.

(** With a model that answers with another name, one attempt is enough. *)
Example helpful_model_renames :
  ∃ st,
    clean_topic_names cosine_distance64 1%float helpful_llm in_order
      research_documents research_vectors research_centroids
      "titles" "a journal" 2 research_layers research_pointsets = Ok st ∧
    committed st = [Commit 0 0 "Research" "Research" 0;
                    Commit 0 1 "Research" "Research Methods" 1] ∧
    layer_clusters st = [["Research"; "Research Methods"]].
Proof.
  eexists. split; [vm_compute; reflexivity|]. split; reflexivity.
Qed.

(** A pointset without documents: no remedy prompt can be built for the
    second cluster, and the pass stops with the [ValueError] of the
    selector of sentences. *)
Example empty_pointset_stops_pass :
  clean_topic_names cosine_distance64 1%float helpful_llm in_order
    research_documents research_vectors research_centroids
    "titles" "a journal" 2 research_layers [[[0]; []]]
  = Raise ValueError.
Proof. vm_compute. reflexivity. Qed.

(** * Part III: further properties of the code *)

(** ** Aggregator: what the pointsets and metacluster sets hold *)

Lemma aggregator_weighted_means_witness :
  ∃ acc,
    layer_from_clustering line_points line_points (grouped 3)
      (replicate 25 1%float) (grouped 3) 0.2%float = Ok acc ∧
    ∀ c, (Z.of_nat c < n_clusters_of (grouped 3))%Z →
      average_vectors acc !! c
        = Some (weighted_mean (replicate 25 1%float) line_points
                  (members (grouped 3) c)) ∧
      average_locations acc !! c
        = Some (weighted_mean (replicate 25 1%float) line_points
                  (members (grouped 3) c)) ∧
      pointsets acc !! c
        = Some (list_to_set
                  (confident (replicate 25 1%float) 0.2%float
                     (members (grouped 3) c))) ∧
      metaclusters acc !! c
        = Some (finer_labels (grouped 3)
                  (confident (replicate 25 1%float) 0.2%float
                     (members (grouped 3) c))).
Proof.
  apply (aggregator_weighted_means line_points line_points (grouped 3)
           (replicate 25 1%float) (grouped 3) 0.2%float).
  - vm_compute. discriminate.
  - apply (bool_decide_unpack _). vm_compute. exact I.
  - reflexivity.
  - reflexivity.
  - reflexivity.
  - reflexivity.
Defined.

Section MembersSound.
Context `{Numeric F}.
Variables (point_vectors point_locations : matrix F).
Variable labels : list Z.
Variable strengths : list F.
Variable base : list Z.
Variable threshold : F.

Lemma accumulate_members_sound i acc acc' :
  members_sound labels strengths base threshold acc →
  accumulate point_vectors point_locations labels strengths base threshold
    i acc = Ok acc' →
  members_sound labels strengths base threshold acc'.
Proof.
  unfold accumulate. intros [Hps Hms].
  destruct (get labels i) as [cl|] eqn:Hcl; simpl; [|done].
  destruct (decide (0 ≤ cl)%Z) as [Hpos|]; [|by intros [= <-]].
  destruct (get strengths i) as [w|] eqn:Hw; simpl; [|done].
  destruct (get (rows point_vectors) i); simpl; [|done].
  destruct (update (average_vectors acc) _ _); simpl; [|done].
  destruct (get (rows point_locations) i); simpl; [|done].
  destruct (update (average_locations acc) _ _); simpl; [|done].
  destruct (update (total_weights acc) _ _); simpl; [|done].
  unfold record_member. rewrite Hw. simpl.
  apply get_Ok in Hcl, Hw.
  destruct (fgtb w threshold) eqn:Hconf; [|by intros [= <-]].
  destruct (update (pointsets acc) _ _) as [ps|] eqn:Hu; simpl; [|done].
  apply update_Ok in Hu as (s0 & Hs0 & ->).
  assert (Hps' : ∀ c s j,
    <[Z.to_nat cl:=s0 ∪ {[i]}]> (pointsets acc) !! c = Some s → j ∈ s →
    labels !! j = Some (Z.of_nat c) ∧
    ∃ w', strengths !! j = Some w' ∧ fgtb w' threshold = true).
  { intros c s j Hs Hj.
    destruct (decide (Z.to_nat cl = c)) as [<-|Hne].
    - rewrite list_lookup_insert_eq in Hs by (by eapply lookup_lt_Some).
      injection Hs as <-.
      apply elem_of_union in Hj as [Hj| ->%elem_of_singleton]; [eauto|].
      rewrite Z2Nat.id by done. eauto.
    - rewrite list_lookup_insert_ne in Hs by done. eauto. }
  assert (Hgrow : ∀ c ps0 j, pointsets acc !! c = Some ps0 → j ∈ ps0 →
    ∃ ps1, <[Z.to_nat cl:=s0 ∪ {[i]}]> (pointsets acc) !! c = Some ps1 ∧
           j ∈ ps1).
  { intros c ps0 j Hc Hj. destruct (decide (Z.to_nat cl = c)) as [<-|Hne].
    - rewrite list_lookup_insert_eq by (by eapply lookup_lt_Some).
      rewrite Hs0 in Hc. injection Hc as <-.
      eexists. split; [done|]. apply elem_of_union. by left.
    - rewrite list_lookup_insert_ne by done. eauto. }
  destruct (get base i) as [sub|] eqn:Hsub; simpl; [|done].
  apply get_Ok in Hsub.
  destruct (decide (sub ≠ (-1)%Z)) as [Hnoise|Hnoise].
  - destruct (update (metaclusters acc) _ _) as [ms|] eqn:Hu; simpl; [|done].
    apply update_Ok in Hu as (m0 & Hm0 & ->). intros [= <-].
    split; simpl; [done|]. intros c ms m Hc Hm.
    destruct (decide (Z.to_nat cl = c)) as [<-|Hne].
    + rewrite list_lookup_insert_eq in Hc by (by eapply lookup_lt_Some).
      injection Hc as <-.
      apply elem_of_union in Hm as [Hm| ->%elem_of_singleton].
      * destruct (Hms _ _ _ Hm0 Hm) as (? & ps0 & j & Hc & Hj & Hb).
        split; [done|]. destruct (Hgrow _ _ _ Hc Hj) as (ps1 & ? & ?). eauto.
      * split; [done|]. exists (s0 ∪ {[i]}), i.
        rewrite list_lookup_insert_eq by (by eapply lookup_lt_Some).
        split; [done|]. split; [|done]. apply elem_of_union. right.
        by apply elem_of_singleton.
    + rewrite list_lookup_insert_ne in Hc by done.
      destruct (Hms _ _ _ Hc Hm) as (? & ps0 & j & Hc' & Hj & Hb).
      split; [done|]. destruct (Hgrow _ _ _ Hc' Hj) as (ps1 & ? & ?). eauto.
  - intros [= <-]. split; simpl; [done|]. intros c ms m Hc Hm.
    destruct (Hms _ _ _ Hc Hm) as (? & ps0 & j & Hc' & Hj & Hb).
    split; [done|]. destruct (Hgrow _ _ _ Hc' Hj) as (ps1 & ? & ?). eauto.
Qed.

Lemma normalise_members_sound c (acc acc' : accumulators F) :
  members_sound labels strengths base threshold acc →
  normalise c acc = Ok acc' →
  members_sound labels strengths base threshold acc'.
Proof.
  unfold normalise, members_sound.
  repeat step_result; intros ? [= <-]; done.
Qed.

Lemma layer_from_clustering_members_sound acc :
  layer_from_clustering point_vectors point_locations labels strengths base
    threshold = Ok acc →
  members_sound labels strengths base threshold acc.
Proof.
  unfold layer_from_clustering. destruct (decide _); [done|].
  intros (acc0 & Hloop & Hnorm)%bind_Ok.
  eapply (for_each_invariant (members_sound labels strengths base threshold));
    [| |exact Hnorm].
  - intros c t t' _. apply normalise_members_sound.
  - eapply (for_each_invariant
              (members_sound labels strengths base threshold));
      [| |exact Hloop].
    + intros i t t' _. apply accumulate_members_sound.
    + split; simpl; intros c s i Hc Hi;
        apply lookup_replicate in Hc as [-> _];
        by apply not_elem_of_empty in Hi.
Qed.

End MembersSound.

(** X2: whenever the Aggregator returns, a document in the pointset of
    cluster [c] has label [c] and a strength above the threshold; so the
    pointsets of two clusters share no document. *)
Theorem aggregator_pointsets_sound `{Numeric F}
    (point_vectors point_locations : matrix F) (labels : list Z)
    (strengths : list F) (base_clusters : list Z) (threshold : F)
    (acc : accumulators F) :
  layer_from_clustering point_vectors point_locations labels strengths
    base_clusters threshold = Ok acc →
  (∀ c s i, pointsets acc !! c = Some s → i ∈ s →
     labels !! i = Some (Z.of_nat c) ∧
     ∃ w, strengths !! i = Some w ∧ fgtb w threshold = true) ∧
  (∀ c1 c2 s1 s2, c1 ≠ c2 →
     pointsets acc !! c1 = Some s1 → pointsets acc !! c2 = Some s2 →
     s1 ## s2).
Proof.
  intros [Hps _]%layer_from_clustering_members_sound.
  split; [done|]. intros c1 c2 s1 s2 Hne H1 H2 i Hi1 Hi2.
  destruct (Hps _ _ _ H1 Hi1) as [Hl1 _].
  destruct (Hps _ _ _ H2 Hi2) as [Hl2 _].
  rewrite Hl1 in Hl2. injection Hl2 as Heq. lia.
Qed.

Lemma aggregator_pointsets_sound_witness :
  ∃ acc,
    layer_from_clustering line_points line_points (grouped 3)
      (replicate 25 1%float) (grouped 3) 0.2%float = Ok acc ∧
    (∀ c s i, pointsets acc !! c = Some s → i ∈ s →
       grouped 3 !! i = Some (Z.of_nat c) ∧
       ∃ w, replicate 25 1%float !! i = Some w ∧
            fgtb w 0.2%float = true) ∧
    (∀ c1 c2 s1 s2, c1 ≠ c2 →
       pointsets acc !! c1 = Some s1 → pointsets acc !! c2 = Some s2 →
       s1 ## s2).
Proof.
  destruct (layer_from_clustering line_points line_points (grouped 3)
              (replicate 25 1%float) (grouped 3) 0.2%float)
    as [acc|e] eqn:E; [|vm_compute in E; discriminate].
  exists acc. split; [reflexivity|].
  exact (aggregator_pointsets_sound line_points line_points (grouped 3)
           (replicate 25 1%float) (grouped 3) 0.2%float acc E).
Defined.

(** X3: whenever the Aggregator returns, its five arrays have
    [n_clusters] slots, and every member of the metacluster set of
    cluster [c] is the finer-layer label, other than -1, of a document in
    the pointset of [c]. *)
Theorem aggregator_metaclusters_sound `{Numeric F}
    (point_vectors point_locations : matrix F) (labels : list Z)
    (strengths : list F) (base_clusters : list Z) (threshold : F)
    (acc : accumulators F) :
  layer_from_clustering point_vectors point_locations labels strengths
    base_clusters threshold = Ok acc →
  (length (average_vectors acc) = Z.to_nat (n_clusters_of labels) ∧
   length (average_locations acc) = Z.to_nat (n_clusters_of labels) ∧
   length (pointsets acc) = Z.to_nat (n_clusters_of labels) ∧
   length (metaclusters acc) = Z.to_nat (n_clusters_of labels)) ∧
  ∀ c ms m, metaclusters acc !! c = Some ms → m ∈ ms →
    m ≠ (-1)%Z ∧
    ∃ ps i, pointsets acc !! c = Some ps ∧ i ∈ ps ∧
            base_clusters !! i = Some m.
Proof.
  intros Hrun. split.
  - apply layer_from_clustering_sized in Hrun as (? & ? & ? & ? & ?). done.
  - by apply layer_from_clustering_members_sound in Hrun as [_ Hms].
Qed.

Lemma aggregator_metaclusters_sound_witness :
  ∃ acc,
    layer_from_clustering line_points line_points (grouped 6)
      (replicate 25 1%float) (grouped 3) 0.2%float = Ok acc ∧
    (length (average_vectors acc) = Z.to_nat (n_clusters_of (grouped 6)) ∧
     length (average_locations acc) = Z.to_nat (n_clusters_of (grouped 6)) ∧
     length (pointsets acc) = Z.to_nat (n_clusters_of (grouped 6)) ∧
     length (metaclusters acc) = Z.to_nat (n_clusters_of (grouped 6))) ∧
    ∀ c ms m, metaclusters acc !! c = Some ms → m ∈ ms →
      m ≠ (-1)%Z ∧
      ∃ ps i, pointsets acc !! c = Some ps ∧ i ∈ ps ∧
              grouped 3 !! i = Some m.
Proof.
  destruct (layer_from_clustering line_points line_points (grouped 6)
              (replicate 25 1%float) (grouped 3) 0.2%float)
    as [acc|e] eqn:E; [|vm_compute in E; discriminate].
  exists acc. split; [reflexivity|].
  exact (aggregator_metaclusters_sound line_points line_points (grouped 6)
           (replicate 25 1%float) (grouped 3) 0.2%float acc E).
Defined.

(** ** LayeredClusterBuilder and [fit_clusters]: shape of the layers *)

Section BuilderInduction.
Context `{Numeric F}.
Variable condense : Z → list Z * list F.
Variable int_quantile : list nat → result Z.
Variables (point_vectors point_locations : matrix F).
Variable min_clusters : Z.
Variable base_min_cluster_size : Z.
Variable membership_strength_threshold : F.

(** A property of the layers that appending a layer keeps holds of what a
    run returns. *)
Lemma build_loop_preserves (P : cluster_layers F → Prop) :
  (∀ b clusters probs base acc acc' ps,
     P acc →
     next_layer point_vectors point_locations membership_strength_threshold
       b clusters probs base acc = Ok (acc', ps) →
     P acc') →
  ∀ fuel b clusters probs base n acc c,
    P acc →
    build_loop condense int_quantile point_vectors point_locations
      min_clusters membership_strength_threshold fuel b clusters probs base
      n acc = Some (Ok c) →
    P c.
Proof.
  intros Hstep. induction fuel as [|fuel IH];
    intros b clusters probs base n acc c Hacc; simpl;
    destruct (decide _); try done; try (by intros [= <-]).
  destruct (next_layer _ _ _ _ _ _ _ _) as [[acc' ps]|] eqn:En; [|done].
  destruct (int_quantile _); [|done].
  destruct (condense _) as [clusters' probs'].
  destruct (np_max _); [|done].
  apply IH. eauto.
Qed.

Lemma build_cluster_layers_preserves (P : cluster_layers F → Prop) fuel c :
  (∀ b clusters probs base acc acc' ps,
     P acc →
     next_layer point_vectors point_locations membership_strength_threshold
       b clusters probs base acc = Ok (acc', ps) →
     P acc') →
  P (ClusterLayers [] [] [] [] []) →
  build_cluster_layers condense int_quantile point_vectors point_locations
    min_clusters base_min_cluster_size membership_strength_threshold fuel
  = Some (Ok c) →
  P c.
Proof.
  intros Hstep Hstart. unfold build_cluster_layers.
  destruct (condense base_min_cluster_size) as [clusters probs].
  by apply build_loop_preserves.
Qed.

End BuilderInduction.

Lemma select_fmap {A B} (f : A → B) (mask : list bool) (l : list A) :
  f <$> select mask l = select mask (f <$> l).
Proof.
  revert mask. induction l as [|x l IH]; intros [|b mask]; simpl; try done.
  destruct b; simpl; by rewrite IH.
Qed.

Lemma select_Forall2 {A B} (R : A → B → Prop) (mask : list bool) l k :
  Forall2 R l k → Forall2 R (select mask l) (select mask k).
Proof.
  intros HR. revert mask. induction HR as [|x y l k Hxy _ IH];
    intros [|b mask]; simpl; try constructor.
  destruct b; [constructor|]; auto.
Qed.

Lemma select_sorted {A} (R : relation A) (mask : list bool) l :
  StronglySorted R l → StronglySorted R (select mask l).
Proof.
  intros HR. revert mask. induction HR as [|x l _ IH Hx];
    intros [|b mask]; simpl; try constructor.
  destruct b; [constructor|]; auto.
  apply Forall_forall. intros y Hy%select_subset.
  rewrite Forall_forall in Hx. auto.
Qed.

Lemma sorted_lookup_lt (ids : list nat) i j a b :
  StronglySorted lt ids → i < j → ids !! i = Some a → ids !! j = Some b →
  a < b.
Proof.
  intros Hs. revert i j. induction Hs as [|x ids _ IH Hx]; intros i j Hij Ha Hb.
  - done.
  - destruct j as [|j]; [lia|]. simpl in Hb. destruct i as [|i].
    + injection Ha as <-. rewrite Forall_forall in Hx.
      apply Hx. by eapply list_elem_of_lookup_2.
    + simpl in Ha. apply (IH i j); [lia|done..].
Qed.

(** X4: in what a run returns, the pointsets of every layer belong to
    distinct clusters of the flat clustering the layer was aggregated
    from: a pointset lists documents of one non-negative label, each once,
    and two pointsets of a layer share no document. *)
Theorem layer_pointsets_disjoint `{Numeric F}
    (condense : Z → list Z * list F) (int_quantile : list nat → result Z)
    (point_vectors point_locations : matrix F)
    (min_clusters base_min_cluster_size : Z) (threshold : F) (fuel : nat)
    (c : cluster_layers F) :
  build_cluster_layers condense int_quantile point_vectors point_locations
    min_clusters base_min_cluster_size threshold fuel = Some (Ok c) →
  length (pointset_layers c) = length (label_layers c) ∧
  ∀ k layer labels,
    pointset_layers c !! k = Some layer → label_layers c !! k = Some labels →
    (∀ i ps, layer !! i = Some ps →
       NoDup ps ∧
       ∃ cl, (0 ≤ cl)%Z ∧ ∀ d, d ∈ ps → labels !! d = Some cl) ∧
    (∀ i j p q d, i ≠ j → layer !! i = Some p → layer !! j = Some q →
       d ∈ p → d ∉ q).
Proof.
  intros Hrun.
  assert (Hall : Forall2 layer_pointsets_ok (label_layers c)
                   (pointset_layers c)).
  { eapply (build_cluster_layers_preserves _ _ _ _ _ _ _
              (λ c0, Forall2 layer_pointsets_ok (label_layers c0)
                       (pointset_layers c0))); [|constructor|exact Hrun].
    intros b clusters probs base acc acc' ps Hacc.
    unfold next_layer. intros (a & Ha & [= <- _])%bind_Ok. simpl.
    apply Forall2_app; [done|]. constructor; [|constructor].
    apply layer_from_clustering_sized in Ha as Hsized.
    destruct Hsized as (_ & _ & _ & Hlen & _).
    apply layer_from_clustering_members_sound in Ha as [Hps _].
    assert (Hbase : Forall2
      (λ c0 ps0, NoDup ps0 ∧
                 ∀ d, d ∈ ps0 → clusters !! d = Some (Z.of_nat c0))
      (seq 0 (length (pointsets a))) (elements <$> pointsets a)).
    { apply Forall2_same_length_lookup_2.
      - by rewrite length_seq, length_fmap.
      - intros i c0 ps0 [-> _]%lookup_seq Hps0. simpl.
        apply list_lookup_fmap_Some in Hps0 as (s & -> & Hs).
        split; [apply NoDup_elements|].
        intros d Hd%elem_of_elements. by apply (Hps _ _ _ Hs Hd). }
    destruct b.
    - exists (seq 0 (length (pointsets a))). split; [|done].
      clear. generalize 0. induction (length (pointsets a)) as [|n IH];
        intros k; simpl; constructor; [apply IH|].
      apply Forall_forall. intros x Hx%elem_of_seq. lia.
    - set (mask := map (λ x : gset Z, bool_decide (1 < size x))
                     (metaclusters a)).
      exists (select mask (seq 0 (length (pointsets a)))). split.
      + apply select_sorted. clear. generalize 0.
        induction (length (pointsets a)) as [|n IH];
          intros k; simpl; constructor; [apply IH|].
        apply Forall_forall. intros x Hx%elem_of_seq. lia.
      + change (map elements ?l) with (elements <$> l).
        rewrite select_fmap. by apply select_Forall2. }
  split; [symmetry; by eapply Forall2_length|].
  intros k layer labels Hlayer Hlabels.
  destruct (Forall2_lookup_lr _ _ _ _ _ _ Hall Hlabels Hlayer)
    as (ids & Hsorted & Hids).
  split.
  - intros i ps Hps.
    destruct (Forall2_lookup_r _ _ _ _ _ Hids Hps) as (c0 & _ & Hnd & Hc0).
    split; [done|]. exists (Z.of_nat c0). split; [lia|done].
  - intros i j p q d Hne Hp Hq Hdp Hdq.
    destruct (Forall2_lookup_r _ _ _ _ _ Hids Hp) as (ci & Hci & _ & Hi).
    destruct (Forall2_lookup_r _ _ _ _ _ Hids Hq) as (cj & Hcj & _ & Hj).
    specialize (Hi d Hdp). specialize (Hj d Hdq).
    rewrite Hi in Hj. injection Hj as Heq.
    destruct (decide (i < j)).
    + pose proof (sorted_lookup_lt ids i j ci cj Hsorted ltac:(lia) Hci Hcj).
      lia.
    + pose proof (sorted_lookup_lt ids j i cj ci Hsorted ltac:(lia) Hcj Hci).
      lia.
Qed.

Lemma layer_pointsets_disjoint_witness :
  nested_run 3 = Some (Ok nested_result) ∧
  length (pointset_layers nested_result)
    = length (label_layers nested_result) ∧
  ∀ k layer labels,
    pointset_layers nested_result !! k = Some layer →
    label_layers nested_result !! k = Some labels →
    (∀ i ps, layer !! i = Some ps →
       NoDup ps ∧
       ∃ cl, (0 ≤ cl)%Z ∧ ∀ d, d ∈ ps → labels !! d = Some cl) ∧
    (∀ i j p q d, i ≠ j → layer !! i = Some p → layer !! j = Some q →
       d ∈ p → d ∉ q).
Proof.
  assert (Hrun : nested_run 3 = Some (Ok nested_result))
    by (vm_compute; reflexivity).
  split; [exact Hrun|].
  exact (layer_pointsets_disjoint nested_condense int_quantile_80
           line_points line_points 2 1 0.2%float 3 nested_result Hrun).
Defined.



Section FitClustersFacts.
Context `{Numeric F}.
Variable cosine_distance : list F → list F → F.

Lemma layer_neighbours_rows (layer : list (list F)) table :
  layer_neighbours cosine_distance layer = Ok table →
  layer ≠ [] ∧ length table = length layer ∧
  ∀ i row, table !! i = Some row →
    length row = Nat.min 16 (length layer) ∧ NoDup row ∧
    Forall (λ j, j < length layer) row.
Proof.
  unfold layer_neighbours. destruct layer as [|x0 layer'] eqn:E; [done|].
  rewrite <- E. intros [= <-]. split; [by rewrite E|]. split.
  { unfold pairwise_distances. by rewrite length_map, length_imap. }
  intros i row Hrow. change (map ?f ?l) with (f <$> l) in Hrow.
  apply list_lookup_fmap_Some in Hrow as (distances & -> & Hd).
  assert (Hlen : length distances = length layer).
  { unfold pairwise_distances in Hd.
    apply list_lookup_imap_Some in Hd as (x & _ & ->).
    by rewrite length_imap. }
  pose proof (argsort_permutation distances) as Hperm. rewrite Hlen in Hperm.
  split; [|split].
  - by rewrite length_take, Hperm, length_seq.
  - eapply sublist_NoDup; [|apply sublist_take].
    rewrite Hperm. apply NoDup_seq.
  - apply Forall_take. rewrite Hperm. apply Forall_forall.
    intros j Hj%elem_of_seq. lia.
Qed.

Lemma layer_cluster_neighbours_Ok (layers : list (list (list F))) tables :
  layer_cluster_neighbours cosine_distance layers = Ok tables ↔
  Forall2 (λ layer table, layer_neighbours cosine_distance layer = Ok table)
    layers tables.
Proof.
  revert tables. induction layers as [|layer layers IH]; intros tables; simpl.
  - split; [intros [= <-]; constructor|by intros ->%Forall2_nil_inv_l].
  - split.
    + intros (t & Ht & (ts & Hts & [= <-])%bind_Ok)%bind_Ok.
      constructor; [done|]. by apply IH.
    + intros (t & ts & Ht & Hts & ->)%Forall2_cons_inv_l.
      apply IH in Hts. rewrite Ht. simpl. by rewrite Hts.
Qed.

(** A layer without clusters makes the neighbour table raise. *)
Lemma layer_cluster_neighbours_empty_layer (layers : list (list (list F))) :
  [] ∈ layers →
  layer_cluster_neighbours cosine_distance layers = Raise ValueError.
Proof.
  induction layers as [|layer layers IH]; [by intros ?%elem_of_nil|].
  intros [<-|Hin]%elem_of_cons; simpl; [done|].
  destruct (layer_neighbours cosine_distance layer) as [t|e] eqn:Ht; simpl.
  - by rewrite IH.
  - unfold layer_neighbours in Ht. destruct layer; [|done]. congruence.
Qed.

End FitClustersFacts.

(** X6: when [fit_clusters] returns, the neighbour table has one table per
    layer and one row per cluster; no layer is empty; a row lists distinct
    clusters of its layer, as many as the layer has, up to 16. *)
Theorem fit_clusters_tables `{Numeric F}
    (condense : Z → list Z * list F) (int_quantile : list nat → result Z)
    (cosine_distance : list F → list F → F)
    (document_vectors document_map : matrix F) (threshold : F)
    (base_min_cluster_size min_clusters : Z) (fuel : nat)
    (c : cluster_layers F) (neighbours : list (list (list nat))) :
  fit_clusters condense int_quantile cosine_distance document_vectors
    document_map threshold base_min_cluster_size min_clusters fuel
  = Some (Ok (c, neighbours)) →
  length neighbours = length (vector_layers c) ∧
  ∀ k layer table,
    vector_layers c !! k = Some layer → neighbours !! k = Some table →
    layer ≠ [] ∧ length table = length layer ∧
    ∀ i row, table !! i = Some row →
      length row = Nat.min 16 (length layer) ∧ NoDup row ∧
      Forall (λ j, j < length layer) row.
Proof.
  unfold fit_clusters.
  destruct (build_cluster_layers _ _ _ _ _ _ _ _) as [[c'|]|]; [|done..].
  destruct (layer_cluster_neighbours _ _) as [ts|] eqn:E; simpl; [|done].
  intros [= <- <-]. apply layer_cluster_neighbours_Ok in E.
  split; [symmetry; by eapply Forall2_length|].
  intros k layer table Hlayer Htable.
  apply (layer_neighbours_rows cosine_distance).
  exact (Forall2_lookup_lr _ _ _ _ _ _ E Hlayer Htable).
Qed.

Lemma fit_clusters_tables_witness :
  ∃ c neighbours,
    fit_clusters nested_condense int_quantile_80 cosine_distance64
      line_points line_points 0.2%float 1 2 3 = Some (Ok (c, neighbours)) ∧
    length neighbours = length (vector_layers c) ∧
    ∀ k layer table,
      vector_layers c !! k = Some layer → neighbours !! k = Some table →
      layer ≠ [] ∧ length table = length layer ∧
      ∀ i row, table !! i = Some row →
        length row = Nat.min 16 (length layer) ∧ NoDup row ∧
        Forall (λ j, j < length layer) row.
Proof.
  destruct (fit_clusters nested_condense int_quantile_80 cosine_distance64
              line_points line_points 0.2%float 1 2 3)
    as [[[c neighbours]|e]|] eqn:E;
    [|vm_compute in E; discriminate..].
  exists c, neighbours. split; [reflexivity|].
  exact (fit_clusters_tables nested_condense int_quantile_80
           cosine_distance64 line_points line_points 0.2%float 1 2 3
           c neighbours E).
Defined.

(** X7: when the base clustering has fewer than [min_clusters] clusters,
    [fit_clusters] raises nothing: it returns a hierarchy without layers
    and an empty neighbour table, whatever the fuel. *)
Theorem fit_clusters_empty_hierarchy `{Numeric F}
    (condense : Z → list Z * list F) (int_quantile : list nat → result Z)
    (cosine_distance : list F → list F → F)
    (document_vectors document_map : matrix F) (threshold : F)
    (base_min_cluster_size min_clusters : Z) (fuel : nat) :
  (Z.of_nat (size (list_to_set
     (filter (λ l, (0 ≤ l)%Z) (condense base_min_cluster_size).1) : gset Z))
   < min_clusters)%Z →
  fit_clusters condense int_quantile cosine_distance document_vectors
    document_map threshold base_min_cluster_size min_clusters fuel
  = Some (Ok (ClusterLayers [] [] [] [] [], [])).
Proof.
  intros Hfew. unfold fit_clusters, build_cluster_layers.
  destruct (condense base_min_cluster_size) as [clusters probs].
  simpl in Hfew. destruct fuel; simpl; by rewrite decide_False by lia.
Qed.

Lemma fit_clusters_empty_hierarchy_witness :
  (Z.of_nat (size (list_to_set
     (filter (λ l, (0 ≤ l)%Z) (nested_condense 1).1) : gset Z)) < 9)%Z ∧
  fit_clusters nested_condense int_quantile_80 cosine_distance64
    line_points line_points 0.2%float 1 9 0
  = Some (Ok (ClusterLayers [] [] [] [] [], [])).
Proof.
  assert (Hfew : (Z.of_nat (size (list_to_set
     (filter (λ l, (0 ≤ l)%Z) (nested_condense 1).1) : gset Z)) < 9)%Z)
    by (vm_compute; reflexivity).
  split; [exact Hfew|].
  exact (fit_clusters_empty_hierarchy nested_condense int_quantile_80
           cosine_distance64 line_points line_points 0.2%float 1 9 0 Hfew).
Defined.

(** ** DiversitySelector: what is retained and what is dropped *)

Section GreedyFacts.
Context `{Numeric F}.
Variable cosine_distance : list F → list F → F.
Variable query_vector : list F.
Variable candidate_neighbor_vectors : list (list F).
Variable alpha : F.
Variable max_candidates : Z.

Local Notation "'redundant_'" :=
  (redundant cosine_distance query_vector candidate_neighbor_vectors alpha).
Local Notation "'distance_to_query_'" :=
  (map (cosine_distance query_vector) candidate_neighbor_vectors).

Lemma inner_loop_breaks_redundant k retained :
  k < length candidate_neighbor_vectors →
  inner_loop_breaks alpha (distance_to_query_ !!! k)
    (map (cosine_distance (candidate_neighbor_vectors !!! k))
       ((candidate_neighbor_vectors !!!.) <$> retained))
  = existsb (redundant_ k) retained.
Proof.
  intros Hk. unfold inner_loop_breaks.
  change (map (cosine_distance query_vector) candidate_neighbor_vectors)
    with (cosine_distance query_vector <$> candidate_neighbor_vectors).
  rewrite (list_lookup_total_fmap (cosine_distance query_vector)) by done.
  induction retained as [|j retained IH]; [done|].
  rewrite fmap_cons. cbn [map existsb]. by rewrite IH.
Qed.

Lemma diversify_loop_greedy rest k retained out :
  drop k candidate_neighbor_vectors = rest →
  k ≤ length candidate_neighbor_vectors →
  Forall (λ j, j < k) retained →
  (∀ i j, i ∈ retained → j ∈ retained → j < i → redundant_ i j = false) →
  (∀ i, i < k → i ∉ retained →
        ∃ j, j ∈ retained ∧ j < i ∧ redundant_ i j = true) →
  diversify_loop cosine_distance candidate_neighbor_vectors
    distance_to_query_ alpha max_candidates
    (zip (seq k (length rest)) rest) retained = Ok out →
  (∀ i j, i ∈ out → j ∈ out → j < i → redundant_ i j = false) ∧
  (∀ i, i < length candidate_neighbor_vectors → i ∉ out →
        (∃ j, j ∈ out ∧ j < i ∧ redundant_ i j = true) ∨
        ((max_candidates ≤ Z.of_nat (length out))%Z ∧
         ∀ j, j ∈ out → j < i)).
Proof.
  revert k retained.
  induction rest as [|vector rest IH];
    intros k retained Hdrop Hk Hlt Hkeep Hskip; simpl.
  - intros [= <-]. split; [done|]. intros i Hi Hout. left.
    apply Hskip; [|done].
    apply (f_equal length) in Hdrop. rewrite length_drop in Hdrop.
    simpl in Hdrop. lia.
  - assert (Hvec : candidate_neighbor_vectors !! k = Some vector).
    { assert (Hhd : drop k candidate_neighbor_vectors !! 0 = Some vector)
        by (by rewrite Hdrop).
      by rewrite lookup_drop, Nat.add_0_r in Hhd. }
    assert (Hk' : k < length candidate_neighbor_vectors)
      by (by eapply lookup_lt_Some).
    rewrite take_rows_total
      by (eapply Forall_impl; [exact Hlt|]; simpl; lia).
    simpl. rewrite get_lookup_total by (by rewrite length_map). simpl.
    assert (Hrest : drop (S k) candidate_neighbor_vectors = rest).
    { rewrite (drop_S _ _ _ Hvec) in Hdrop. by injection Hdrop. }
    clear Hdrop.
    replace vector with (candidate_neighbor_vectors !!! k)
      by (by apply list_lookup_total_correct).
    rewrite inner_loop_breaks_redundant by done.
    destruct (existsb _ _) eqn:Eb.
    + apply IH; try done.
      * eapply Forall_impl; [exact Hlt|]. simpl. lia.
      * intros i Hi Hni. destruct (decide (i = k)) as [->|]; [|apply Hskip; [lia|done]].
        apply existsb_exists in Eb as (j & Hj & Hred).
        apply list_elem_of_In in Hj. exists j. split; [done|]. split; [|done].
        rewrite Forall_forall in Hlt. by apply Hlt.
    + assert (Hlt' : Forall (λ j, j < S k) (retained ++ [k])).
      { apply Forall_app. split; [|by repeat constructor].
        eapply Forall_impl; [exact Hlt|]. simpl. lia. }
      assert (Hkeep' : ∀ i j, i ∈ retained ++ [k] → j ∈ retained ++ [k] →
                j < i → redundant_ i j = false).
      { intros i j [Hi| ->%list_elem_of_singleton]%elem_of_app
                 [Hj| ->%list_elem_of_singleton]%elem_of_app Hji.
        - by apply Hkeep.
        - rewrite Forall_forall in Hlt. specialize (Hlt i Hi). lia.
        - destruct (redundant_ k j) eqn:Ered; [|done].
          assert (existsb (redundant_ k) retained = true); [|congruence].
          apply existsb_exists. exists j. by rewrite <- list_elem_of_In.
        - lia. }
      assert (Hskip' : ∀ i, i < S k → i ∉ retained ++ [k] →
                ∃ j, j ∈ retained ++ [k] ∧ j < i ∧ redundant_ i j = true).
      { intros i Hi Hni. rewrite elem_of_app, list_elem_of_singleton in Hni.
        destruct (Hskip i) as (j & Hj & Hji & Hred); [lia|tauto|].
        exists j. rewrite elem_of_app. tauto. }
      destruct (decide _) as [Hcap|Hcap]; [|by apply IH].
      intros [= <-]. split; [done|]. intros i Hi Hni.
      destruct (decide (i < S k)) as [Hik|Hik]; [left; by apply Hskip'|].
      right. split; [done|]. intros j Hj.
      rewrite Forall_forall in Hlt'. specialize (Hlt' j Hj). simpl in Hlt'.
      lia.
Qed.

Lemma diversify_loop_prefix (distance_to_query : list F) todo retained out :
  diversify_loop cosine_distance candidate_neighbor_vectors
    distance_to_query alpha max_candidates todo retained = Ok out →
  retained `prefix_of` out.
Proof.
  revert retained. induction todo as [|[i vector] todo IH];
    intros retained; simpl.
  - by intros [= <-].
  - destruct (take_rows _ _) as [rows_|]; [|done]. simpl.
    destruct (get _ _) as [d|]; [|done]. simpl.
    destruct (inner_loop_breaks _ _ _); [by apply IH|].
    destruct (decide _).
    + intros [= <-]. by apply prefix_app_r.
    + intros Hrun%IH. etrans; [|exact Hrun]. by apply prefix_app_r.
Qed.

End GreedyFacts.

Section CapFacts.
Context `{Numeric F}.
Variable cosine_distance : list F → list F → F.
Variable candidate_neighbor_vectors : list (list F).
Variable distance_to_query : list F.
Variable alpha : F.

(** Raising the cap only lengthens the output: a run with a cap holds the
    first entries of the run with a larger cap. *)
Lemma diversify_loop_cap (cap1 cap2 : Z) todo retained out1 out2 :
  (cap1 ≤ cap2)%Z →
  diversify_loop cosine_distance candidate_neighbor_vectors
    distance_to_query alpha cap1 todo retained = Ok out1 →
  diversify_loop cosine_distance candidate_neighbor_vectors
    distance_to_query alpha cap2 todo retained = Ok out2 →
  out1 = take (Z.to_nat (Z.max cap1 (Z.of_nat (length retained + 1)))) out2.
Proof.
  intros Hcaps. revert retained.
  induction todo as [|[i vector] todo IH]; intros retained; simpl.
  - intros [= <-] [= <-]. rewrite take_ge; [done|lia].
  - destruct (take_rows _ _) as [rows_|]; [|done]. simpl.
    destruct (get _ _) as [d|]; [|done]. simpl.
    destruct (inner_loop_breaks _ _ _); [by apply IH|].
    rewrite length_app. simpl.
    destruct (decide (cap1 ≤ _)%Z) as [H1|H1];
      destruct (decide (cap2 ≤ _)%Z) as [H2|H2]; try lia.
    + intros [= <-] [= <-]. rewrite take_ge; [done|].
      rewrite length_app. simpl. lia.
    + intros [= <-] [tl ->]%diversify_loop_prefix.
      rewrite take_app_length'; [done|]. rewrite length_app. simpl. lia.
    + intros Hrun1 Hrun2. rewrite (IH _ Hrun1 Hrun2), length_app. simpl.
      f_equal. lia.
Qed.

End CapFacts.

(** X8 ([diversify], lines 142-160): what the selector retains and what it
    drops.  No retained candidate is redundant with a candidate retained
    before it, where a candidate [i] is redundant with [j] when [alpha]
    times its distance to the query exceeds its distance to [j].  A
    candidate that is not retained is redundant with a candidate retained
    before it, or stands after the last retained one and the cap has been
    reached. *)
Theorem diversify_greedy `{Numeric F} (cosine_distance : list F → list F → F)
    (query_vector : list F) (candidate_neighbor_vectors : list (list F))
    (alpha : F) (max_candidates : Z) (out : list nat) :
  diversify cosine_distance query_vector candidate_neighbor_vectors alpha
    max_candidates = Ok out →
  (∀ i j, i ∈ out → j ∈ out → j < i →
     redundant cosine_distance query_vector candidate_neighbor_vectors
       alpha i j = false) ∧
  (∀ i, i < length candidate_neighbor_vectors → i ∉ out →
     (∃ j, j ∈ out ∧ j < i ∧
           redundant cosine_distance query_vector candidate_neighbor_vectors
             alpha i j = true) ∨
     ((max_candidates ≤ Z.of_nat (length out))%Z ∧ ∀ j, j ∈ out → j < i)).
Proof.
  unfold diversify.
  destruct candidate_neighbor_vectors as [|v0 rest] eqn:E; [done|].
  rewrite <- E. intros Hrun.
  apply (diversify_loop_greedy cosine_distance query_vector
           candidate_neighbor_vectors alpha max_candidates rest 1 [0]);
    try done.
  - by rewrite E.
  - rewrite E. simpl. lia.
  - repeat constructor.
  - intros i j ->%list_elem_of_singleton ->%list_elem_of_singleton. lia.
  - intros i Hi Hni. replace i with 0 in Hni by lia.
    by apply not_elem_of_cons in Hni as [? _].
Qed.

Lemma diversify_greedy_witness :
  ∃ out,
    diversify cosine_distance64 scenario_query scenario_candidates 1%float 16
      = Ok out ∧
    (∀ i j, i ∈ out → j ∈ out → j < i →
       redundant cosine_distance64 scenario_query scenario_candidates
         1%float i j = false) ∧
    (∀ i, i < length scenario_candidates → i ∉ out →
       (∃ j, j ∈ out ∧ j < i ∧
             redundant cosine_distance64 scenario_query scenario_candidates
               1%float i j = true) ∨
       ((16 ≤ Z.of_nat (length out))%Z ∧ ∀ j, j ∈ out → j < i)).
Proof.
  destruct (diversify cosine_distance64 scenario_query scenario_candidates
              1%float 16) as [out|e] eqn:E; [|vm_compute in E; discriminate].
  exists out. split; [reflexivity|].
  exact (diversify_greedy cosine_distance64 scenario_query
           scenario_candidates 1%float 16 out E).
Defined.

(** X9 ([diversify], lines 142-160): the cap only cuts the output short.
    Of two runs on the same candidates, the one with the smaller cap
    returns the first entries of the other: as many as its cap, and two
    when its cap is below 2. *)
Theorem diversify_cap_prefix `{Numeric F}
    (cosine_distance : list F → list F → F) (query_vector : list F)
    (candidate_neighbor_vectors : list (list F)) (alpha : F)
    (cap1 cap2 : Z) (out1 out2 : list nat) :
  (cap1 ≤ cap2)%Z →
  diversify cosine_distance query_vector candidate_neighbor_vectors alpha
    cap1 = Ok out1 →
  diversify cosine_distance query_vector candidate_neighbor_vectors alpha
    cap2 = Ok out2 →
  out1 = take (Z.to_nat (Z.max cap1 2)) out2.
Proof.
  intros Hcaps. unfold diversify.
  destruct candidate_neighbor_vectors as [|v0 rest]; [done|].
  intros Hrun1 Hrun2.
  exact (diversify_loop_cap cosine_distance _ _ alpha cap1 cap2 _ [0] out1
           out2 Hcaps Hrun1 Hrun2).
Qed.

Lemma diversify_cap_prefix_witness :
  ∃ out1 out2,
    (2 ≤ 16)%Z ∧
    diversify cosine_distance64 spread_query spread_candidates 1%float 2
      = Ok out1 ∧
    diversify cosine_distance64 spread_query spread_candidates 1%float 16
      = Ok out2 ∧
    out1 = take (Z.to_nat (Z.max 2 2)) out2.
Proof.
  assert (Hcaps : (2 ≤ 16)%Z) by lia.
  destruct (diversify cosine_distance64 spread_query spread_candidates
              1%float 2) as [out1|e] eqn:E1;
    [|vm_compute in E1; discriminate].
  destruct (diversify cosine_distance64 spread_query spread_candidates
              1%float 16) as [out2|e] eqn:E2;
    [|vm_compute in E2; discriminate].
  exists out1, out2. split; [exact Hcaps|]. split; [reflexivity|].
  split; [reflexivity|].
  exact (diversify_cap_prefix cosine_distance64 spread_query
           spread_candidates 1%float 2 16 out1 out2 Hcaps E1 E2).
Defined.

(** ** EvidenceSelectors: sentences and subtopics near the centroid *)

(** X10 ([topical_sentences_for_cluster], lines 162-174): for a non-empty
    pointset of document indices the selector returns the documents at
    distinct positions of the pointset: no position is used twice.  It
    returns at most 16 of them, whatever [n_sentence_examples] is, at most
    [n_sentence_examples] when that is not negative, and at least one when
    [n_sentence_examples] is positive. *)
Theorem topical_sentences_from_pointset `{Numeric F}
    (cosine_distance : list F → list F → F) (alpha_default : F)
    (docs : list string) (vector_array : list (list F))
    (pointset : list nat) (centroid_vector : list F)
    (n_sentence_examples : Z) :
  pointset ≠ [] →
  Forall (λ i, i < length docs) pointset →
  Forall (λ i, i < length vector_array) pointset →
  ∃ positions,
    topical_sentences_for_cluster cosine_distance alpha_default docs
      vector_array pointset centroid_vector n_sentence_examples
    = Ok ((λ p, docs !!! (pointset !!! p)) <$> positions) ∧
    NoDup positions ∧
    Forall (λ p, p < length pointset) positions ∧
    length positions ≤ 16 ∧
    ((0 ≤ n_sentence_examples)%Z →
     (Z.of_nat (length positions) ≤ n_sentence_examples)%Z) ∧
    ((1 ≤ n_sentence_examples)%Z → positions ≠ []).
Proof.
  apply topical_sentences_returns.
Qed.

Lemma topical_sentences_from_pointset_witness :
  title_pointset ≠ [] ∧
  Forall (λ i, i < length title_docs) title_pointset ∧
  Forall (λ i, i < length title_vectors) title_pointset ∧
  ∃ positions,
    topical_sentences_for_cluster cosine_distance64 1%float title_docs
      title_vectors title_pointset [1%float; 1%float] 2
    = Ok ((λ p, title_docs !!! (title_pointset !!! p)) <$> positions) ∧
    NoDup positions ∧
    Forall (λ p, p < length title_pointset) positions ∧
    length positions ≤ 16 ∧
    ((0 ≤ 2)%Z → (Z.of_nat (length positions) ≤ 2)%Z) ∧
    ((1 ≤ 2)%Z → positions ≠ []).
Proof.
  assert (Hne : title_pointset ≠ []) by discriminate.
  assert (Hdocs : Forall (λ i, i < length title_docs) title_pointset)
    by (repeat constructor).
  assert (Hvectors : Forall (λ i, i < length title_vectors) title_pointset)
    by (repeat constructor).
  split; [exact Hne|]. split; [exact Hdocs|]. split; [exact Hvectors|].
  exact (topical_sentences_from_pointset cosine_distance64 1%float
           title_docs title_vectors title_pointset [1%float; 1%float] 2
           Hne Hdocs Hvectors).
Defined.

Lemma slice_to_fmap {A B} (f : A → B) (n : Z) (l : list A) :
  slice_to n (f <$> l) = f <$> slice_to n l.
Proof.
  unfold slice_to. rewrite length_fmap.
  destruct (decide _); by rewrite fmap_take.
Qed.

(** A loop that appends one value per element computes a [map]. *)
Lemma for_each_append {A B} (l : list A) (body : A → list B → result (list B))
    (g : A → B) (acc : list B) :
  Forall (λ x, ∀ acc', body x acc' = Ok (acc' ++ [g x])) l →
  for_each l body acc = Ok (acc ++ (g <$> l)).
Proof.
  intros Hl. revert acc. induction Hl as [|x l Hx _ IH]; intros acc; simpl.
  - by rewrite app_nil_r.
  - rewrite Hx. simpl. rewrite IH. by rewrite <- app_assoc.
Qed.

(** The selector of subtopics on a metacluster of base topic labels. *)
Lemma topical_subtopics_returns `{Numeric F}
    (cosine_distance : list F → list F → F) (alpha_066 : F)
    (mean_rows : list (list F) → list F)
    (metacluster : list Z) (pointset : list nat)
    (doc_vectors : list (list F)) (base_layer_topic_names : list string)
    (base_layer_pointsets : list (list nat)) (n_subtopics : Z) :
  metacluster ≠ [] → pointset ≠ [] →
  (1 ≤ n_subtopics)%Z →
  Forall (λ n, (0 ≤ n < Z.of_nat (length base_layer_pointsets))%Z ∧
               (n < Z.of_nat (length base_layer_topic_names))%Z ∧
               base_layer_pointsets !! Z.to_nat n ≠ Some [])
    metacluster →
  Forall (λ i, i < length doc_vectors) pointset →
  Forall (Forall (λ i, i < length doc_vectors)) base_layer_pointsets →
  ∃ positions,
    topical_subtopics_for_cluster cosine_distance alpha_066 mean_rows
      metacluster pointset doc_vectors base_layer_topic_names
      base_layer_pointsets n_subtopics
    = Ok ((λ p, base_layer_topic_names !!! Z.to_nat (metacluster !!! p))
            <$> positions) ∧
    NoDup positions ∧
    Forall (λ p, p < length metacluster) positions ∧
    (Z.of_nat (length positions) ≤ n_subtopics)%Z.
Proof.
  intros Hne Hpne Hn Hlabels Hpointset Hbase.
  unfold topical_subtopics_for_cluster.
  rewrite (take_rows_total doc_vectors) by done. cbn [mbind result_bind].
  set (centroid_vector := mean_rows _).
  rewrite (for_each_append metacluster _
             (λ n, (doc_vectors !!!.) <$>
                     (base_layer_pointsets !!! Z.to_nat n))).
  2:{ eapply Forall_impl; [exact Hlabels|]. simpl. intros n (Hn1 & Hn2 & _) acc.
      rewrite get_z_lookup_total by done. cbn [mbind result_bind].
      rewrite (take_rows_total doc_vectors); [done|].
      rewrite Forall_forall in Hbase. apply Hbase.
      apply list_elem_of_lookup_total_2. lia. }
  cbn [mbind result_bind app]. set (selections := _ <$> metacluster).
  set (subtopic_vectors := map mean_rows selections).
  assert (Hlen : length subtopic_vectors = length metacluster).
  { unfold subtopic_vectors, selections. by rewrite length_map, length_fmap. }
  assert (Hcond : no_rows ((doc_vectors !!!.) <$> pointset)
                  || no_rows subtopic_vectors
                  || existsb no_rows selections = false).
  { apply orb_false_intro; [apply orb_false_intro|].
    - by destruct pointset.
    - destruct subtopic_vectors; [by destruct metacluster|done].
    - apply not_true_is_false. intros (sel & Hin & Hnil)%existsb_exists.
      apply list_elem_of_In in Hin.
      apply list_elem_of_fmap in Hin as (n & -> & Hin).
      rewrite Forall_forall in Hlabels.
      destruct (Hlabels n Hin) as (Hn1 & _ & Hfull). apply Hfull.
      rewrite (list_lookup_lookup_total_lt base_layer_pointsets (Z.to_nat n))
        by lia.
      f_equal. by destruct (base_layer_pointsets !!! Z.to_nat n). }
  rewrite Hcond.
  set (full := argsort (map (cosine_distance centroid_vector) subtopic_vectors)).
  set (ranking := slice_to (2 * n_subtopics) full).
  assert (Hfl : length full = length metacluster).
  { unfold full. by rewrite argsort_length, length_map. }
  assert (Hpre : ranking `prefix_of` full) by apply slice_to_prefix.
  assert (Hnd : NoDup ranking).
  { assert (Hfull : NoDup full) by apply argsort_NoDup.
    destruct Hpre as [tl Htl]. rewrite Htl in Hfull.
    by apply NoDup_app in Hfull as [? _]. }
  assert (Hrange : Forall (λ p, p < length metacluster) ranking).
  { assert (Hfull : Forall (λ p, p < length metacluster) full).
    { unfold full.
      rewrite <- Hlen, <- (length_map (cosine_distance centroid_vector)).
      apply argsort_in_range. }
    destruct Hpre as [tl Htl]. rewrite Htl in Hfull.
    by apply Forall_app in Hfull as [? _]. }
  assert (Hrne : ranking ≠ []).
  { unfold ranking, slice_to. rewrite decide_True by lia.
    intros Hnil%(f_equal length). rewrite length_take, Hfl in Hnil.
    destruct metacluster; [done|]. simpl in Hnil. lia. }
  rewrite (take_rows_total subtopic_vectors) by (by rewrite Hlen). simpl.
  destruct (diversify_total cosine_distance centroid_vector
              ((subtopic_vectors !!!.) <$> ranking) alpha_066 n_subtopics)
    as (retained & -> & Hok & Hcap).
  { intros Hnil%(f_equal length). rewrite length_fmap in Hnil.
    by destruct ranking. }
  simpl. rewrite length_fmap in Hok.
  destruct (ranked_positions ranking retained (length metacluster)
              Hnd Hrange Hok (slice_to n_subtopics retained)
              (slice_to_prefix _ _)) as (Hnd' & Hlt & Hkept).
  rewrite (take_rows_total ranking)
    by (by destruct Hok as (_ & _ & ?)).
  simpl. rewrite slice_to_fmap.
  rewrite (for_each_append _ _
             (λ p, base_layer_topic_names !!! Z.to_nat (metacluster !!! p))).
  2:{ eapply Forall_impl; [exact Hlt|]. simpl. intros p Hp acc.
      rewrite get_lookup_total by done. simpl.
      rewrite Forall_forall in Hlabels.
      destruct (Hlabels (metacluster !!! p)) as (Hn1 & Hn2 & _);
        [by apply list_elem_of_lookup_total_2|].
      rewrite get_z_lookup_total by lia. done. }
  exists ((ranking !!!.) <$> slice_to n_subtopics retained).
  split; [done|]. split; [done|]. split; [done|].
  rewrite length_fmap. apply slice_to_length. lia.
Qed.

(** X11 ([topical_subtopics_for_cluster], lines 270-283): for a non-empty
    metacluster of base topic labels, a pointset with a document, base
    pointsets with a document for the members of the metacluster, and at
    least one requested subtopic, the selector returns the names of base
    topics at distinct positions of the metacluster, and at most
    [n_subtopics] of them.  (The mean of no documents is NaN, which the
    distance computation rejects.) *)
Theorem topical_subtopics_from_metacluster `{Numeric F}
    (cosine_distance : list F → list F → F) (alpha_066 : F)
    (mean_rows : list (list F) → list F)
    (metacluster : list Z) (pointset : list nat)
    (doc_vectors : list (list F)) (base_layer_topic_names : list string)
    (base_layer_pointsets : list (list nat)) (n_subtopics : Z) :
  metacluster ≠ [] → pointset ≠ [] →
  (1 ≤ n_subtopics)%Z →
  Forall (λ n, (0 ≤ n < Z.of_nat (length base_layer_pointsets))%Z ∧
               (n < Z.of_nat (length base_layer_topic_names))%Z ∧
               base_layer_pointsets !! Z.to_nat n ≠ Some [])
    metacluster →
  Forall (λ i, i < length doc_vectors) pointset →
  Forall (Forall (λ i, i < length doc_vectors)) base_layer_pointsets →
  ∃ positions,
    topical_subtopics_for_cluster cosine_distance alpha_066 mean_rows
      metacluster pointset doc_vectors base_layer_topic_names
      base_layer_pointsets n_subtopics
    = Ok ((λ p, base_layer_topic_names !!! Z.to_nat (metacluster !!! p))
            <$> positions) ∧
    NoDup positions ∧
    Forall (λ p, p < length metacluster) positions ∧
    (Z.of_nat (length positions) ≤ n_subtopics)%Z.
Proof.
  apply topical_subtopics_returns.
Qed.

Lemma topical_subtopics_from_metacluster_witness :
  animal_metacluster ≠ [] ∧ animal_pointset ≠ [] ∧ (1 ≤ 2)%Z ∧
  ∃ positions,
    topical_subtopics_for_cluster cosine_distance64 0.66%float mean_rows64
      animal_metacluster animal_pointset title_vectors animal_topics
      animal_pointsets 2
    = Ok ((λ p, animal_topics !!! Z.to_nat (animal_metacluster !!! p))
            <$> positions) ∧
    NoDup positions ∧
    Forall (λ p, p < length animal_metacluster) positions ∧
    (Z.of_nat (length positions) ≤ 2)%Z.
Proof.
  assert (Hne : animal_metacluster ≠ []) by discriminate.
  assert (Hpne : animal_pointset ≠ []) by discriminate.
  assert (Hn : (1 ≤ 2)%Z) by lia.
  split; [exact Hne|]. split; [exact Hpne|]. split; [exact Hn|].
  apply (topical_subtopics_from_metacluster cosine_distance64 0.66%float
           mean_rows64 animal_metacluster animal_pointset title_vectors
           animal_topics animal_pointsets 2 Hne Hpne Hn).
  - repeat constructor; simpl; try lia; discriminate.
  - repeat constructor.
  - repeat constructor.
Defined.

(** Without a document in the pointset the selector raises. *)
Example topical_subtopics_empty_pointset :
  topical_subtopics_for_cluster cosine_distance64 0.66%float mean_rows64
    animal_metacluster [] title_vectors animal_topics animal_pointsets 2
  = Raise ValueError.
Proof. vm_compute. reflexivity. Qed.

(** ** [longest_keyphrases]: which phrases are returned *)

Section KeyphraseCover.
Context {A : Type} `{EqDecision A}.
Variable extends : A → A → bool.
Hypothesis extends_irrefl : ∀ a, extends a a = false.
Hypothesis extends_trans :
  ∀ a b c, extends a b = true → extends b c = true → extends a c = true.

(** The inner loop returns its start value or a phrase that extends it. *)
Lemma scan_extends (l : list A) (p : A) :
  scan extends l p = p ∨ extends p (scan extends l p) = true.
Proof using extends_trans.
  induction l as [|o l IH] using rev_ind; [by left|].
  rewrite scan_snoc. destruct (extends (scan extends l p) o) eqn:E; [|done].
  right. destruct IH as [<-|IH]; [done|]. by eapply extends_trans.
Qed.

(** [original] is the argument list as the caller passed it, [done_] its
    slots before the index of the outer loop. *)
Lemma longest_keyphrases_loop_cover (original : list A) todo done_ visited
    result :
  original = done_ ++ todo →
  Forall2 (λ p q, q = p ∨ (extends p q = true ∧ q ∈ result)) done_ visited →
  (∀ x, x ∈ visited → x ∈ original) →
  (∀ r, r ∈ result →
        r ∈ original ∧ ∀ o, o ∈ original → extends r o = false) →
  (∀ p, p ∈ done_ → ∃ r, r ∈ result ∧ (r = p ∨ extends p r = true)) →
  let out := longest_keyphrases_loop extends visited todo result in
  Forall2 (λ p q, q = p ∨ (extends p q = true ∧ q ∈ out.2)) original out.1 ∧
  (∀ r, r ∈ out.2 →
        r ∈ original ∧ ∀ o, o ∈ original → extends r o = false) ∧
  (∀ p, p ∈ original → ∃ r, r ∈ out.2 ∧ (r = p ∨ extends p r = true)).
Proof using extends_irrefl extends_trans.
  revert done_ visited result.
  induction todo as [|phrase0 todo IH];
    intros done_ visited result Horig Hslots Hvis Hres Hcov.
  { simpl. rewrite app_nil_r in Horig. by subst. }
  simpl.
  set (cur := visited ++ phrase0 :: todo).
  set (phrase := scan extends cur phrase0).
  assert (Hcur : ∀ x, x ∈ cur → x ∈ original).
  { intros x [Hx|Hx]%elem_of_app; [by apply Hvis|].
    rewrite Horig. apply elem_of_app. by right. }
  assert (Hp0 : phrase0 ∈ cur) by (apply elem_of_app; right; left).
  assert (Hphrase : phrase ∈ original).
  { destruct (scan_elem_of extends cur phrase0) as [Heq|Hin].
    - unfold phrase. rewrite Heq. by apply Hcur.
    - by apply Hcur. }
  assert (Hmax : ∀ o, o ∈ original → extends phrase o = false).
  { intros o Ho. rewrite Horig in Ho.
    apply elem_of_app in Ho as [Ho|Ho].
    - apply list_elem_of_lookup in Ho as [k Hk].
      destruct (Forall2_lookup_l _ _ _ _ _ Hslots Hk) as (q & Hq & Hoq).
      assert (Hqc : q ∈ cur).
      { apply elem_of_app. left. by eapply list_elem_of_lookup_2. }
      pose proof (scan_maximal extends extends_irrefl extends_trans cur
                    phrase0 q Hqc) as Hpq. fold phrase in Hpq.
      destruct Hoq as [->|[Hoq _]]; [done|].
      destruct (extends phrase o) eqn:E; [|done].
      rewrite <- Hpq. symmetry. by eapply extends_trans.
    - apply (scan_maximal extends extends_irrefl extends_trans).
      apply elem_of_app. by right. }
  assert (Hrel : phrase = phrase0 ∨ extends phrase0 phrase = true)
    by apply scan_extends.
  assert (Horig' : original = (done_ ++ [phrase0]) ++ todo)
    by (by rewrite <- app_assoc).
  destruct (decide (phrase ∈ result)) as [Hin|Hnew];
    apply (IH (done_ ++ [phrase0])); try done.
  - apply Forall2_app; [done|]. constructor; [by left|constructor].
  - intros x [Hx| ->%list_elem_of_singleton]%elem_of_app; [by apply Hvis|].
    by apply Hcur.
  - intros p [Hp| ->%list_elem_of_singleton]%elem_of_app; [by apply Hcov|].
    exists phrase. done.
  - apply Forall2_app.
    + eapply Forall2_impl; [exact Hslots|]. simpl.
      intros p q [->|[Hpq Hq]]; [by left|]. right. split; [done|].
      apply elem_of_app. by left.
    + constructor; [|constructor].
      destruct Hrel as [->|Hrel]; [by left|]. right. split; [done|].
      apply elem_of_app. right. left.
  - intros x [Hx| ->%list_elem_of_singleton]%elem_of_app; [by apply Hvis|].
    done.
  - intros r [Hr| ->%list_elem_of_singleton]%elem_of_app; [by apply Hres|].
    done.
  - intros p [Hp| ->%list_elem_of_singleton]%elem_of_app.
    + destruct (Hcov p Hp) as (r & Hr & Hpr). exists r. split; [|done].
      apply elem_of_app. by left.
    + exists phrase. split; [apply elem_of_app; right; left|done].
Qed.

Lemma longest_keyphrases_gen_cover (l : list A) :
  let out := longest_keyphrases_gen extends l in
  Forall2 (λ p q, q = p ∨ (extends p q = true ∧ q ∈ out.2)) l out.1 ∧
  (∀ r, r ∈ out.2 → r ∈ l ∧ ∀ o, o ∈ l → extends r o = false) ∧
  (∀ p, p ∈ l → ∃ r, r ∈ out.2 ∧ (r = p ∨ extends p r = true)).
Proof using extends_irrefl extends_trans.
  apply (longest_keyphrases_loop_cover l l [] [] []);
    [done|constructor|..]; intros x Hx; by apply elem_of_nil in Hx.
Qed.

End KeyphraseCover.

(** X12 ([longest_keyphrases], lines 205-216): the returned list holds,
    once each, the phrases of the argument list that no phrase of the
    argument list extends, and no other phrase.  A phrase extends another
    when it holds the other with a space before it or after it. *)
Theorem longest_keyphrases_maximal (candidate_keyphrases : list string) :
  let result := (longest_keyphrases candidate_keyphrases).2 in
  NoDup result ∧
  ∀ p, p ∈ result ↔
       p ∈ candidate_keyphrases ∧
       ∀ o, o ∈ candidate_keyphrases → extended_by p o = false.
Proof.
  intros result.
  destruct (longest_keyphrases_antichain extended_by extended_by_irrefl
              extended_by_trans candidate_keyphrases) as [Hnodup _].
  destruct (longest_keyphrases_gen_cover extended_by extended_by_irrefl
              extended_by_trans candidate_keyphrases) as (_ & Hmax & Hcov).
  split; [exact Hnodup|]. intros p. split; [apply Hmax|].
  intros [Hp Hpmax]. destruct (Hcov p Hp) as (r & Hr & [->|Hpr]); [done|].
  destruct (Hmax r Hr) as [Hrl _]. rewrite (Hpmax r Hrl) in Hpr. done.
Qed.

(** X13 ([longest_keyphrases], lines 205-216): the call changes the list it
    is given.  The list keeps its length, and a slot holds the phrase it
    held before or a returned phrase that extends it. *)
Theorem longest_keyphrases_overwrites (candidate_keyphrases : list string) :
  let out := longest_keyphrases candidate_keyphrases in
  Forall2 (λ p q, q = p ∨ (extended_by p q = true ∧ q ∈ out.2))
    candidate_keyphrases out.1.
Proof.
  apply (longest_keyphrases_gen_cover extended_by extended_by_irrefl
           extended_by_trans candidate_keyphrases).
Qed.

(** ** [fit_base_level_prompts]: which prompts are returned, and when *)

Section PromptReturn.
Context {token : Type}.
Variable tokenize : string → list token.
Variable detokenize : list token → string.
Variable n_ctx : nat.
Variable build_base_prompt : nat → Z → string.
Variable cluster_id : nat.
Variable max_docs_per_cluster : Z.

Local Notation "'too_long' q" :=
  (n_ctx < length (tokenize (build_base_prompt cluster_id q)))
  (at level 10, q at level 9).
Local Notation "'quota' k" :=
  (max_docs_per_cluster `div` 2 ^ Z.of_nat k)%Z (at level 10, k at level 9).

Lemma quota_S k : (quota (S k) = quota k `div` 2)%Z.
Proof.
  rewrite Nat2Z.inj_succ, Z.pow_succ_r by lia.
  rewrite (Z.mul_comm 2), Z.div_div; [done| |lia].
  apply Z.pow_nonzero; lia.
Qed.

(** The loop exits at the first halving of the quota whose prompt fits, and
    what it returns then has lost no token to [trim_text]. *)
Lemma shrink_loop_exit fuel k prompt out :
  (prompt = build_base_prompt cluster_id (quota k) ∨
   prompt = trim_text tokenize detokenize
              (build_base_prompt cluster_id (quota k)) n_ctx) →
  (∀ j, j < k → too_long (quota j)) →
  shrink_loop tokenize detokenize n_ctx build_base_prompt fuel cluster_id
    (quota k) prompt (length (tokenize (build_base_prompt cluster_id (quota k))))
  = Some out →
  ∃ k', ¬ too_long (quota k') ∧ (∀ j, j < k' → too_long (quota j)) ∧
        (out = build_base_prompt cluster_id (quota k') ∨
         out = detokenize (tokenize (build_base_prompt cluster_id (quota k')))).
Proof.
  revert k prompt. induction fuel as [|fuel IH]; intros k prompt Hprompt Hbefore;
    simpl; destruct (decide _) as [Hlong|Hfit]; try done.
  - intros [= <-]. exists k. split; [done|]. split; [done|].
    destruct Hprompt as [->| ->]; [by left|right].
    unfold trim_text. rewrite take_ge; [done|lia].
  - rewrite <- quota_S. apply IH.
    + destruct (decide _); [by right|by left].
    + intros j Hj. destruct (decide (j = k)) as [->|]; [done|].
      apply Hbefore. lia.
  - intros [= <-]. exists k. split; [done|]. split; [done|].
    destruct Hprompt as [->| ->]; [by left|right].
    unfold trim_text. rewrite take_ge; [done|lia].
Qed.

(** While no halving of the quota gives a prompt that fits, the loop does
    not exit. *)
Lemma shrink_loop_runs_on fuel k prompt :
  (∀ j, too_long (quota j)) →
  shrink_loop tokenize detokenize n_ctx build_base_prompt fuel cluster_id
    (quota k) prompt (length (tokenize (build_base_prompt cluster_id (quota k))))
  = None.
Proof.
  intros Hlong. revert k prompt. induction fuel as [|fuel IH]; intros k prompt;
    simpl; (destruct (decide _) as [_|Hfit]; [|by destruct Hfit]); [done|].
  rewrite <- quota_S. apply IH.
Qed.

(** Once the quota has reached zero the next prompt is the last one. *)
Lemma shrink_loop_returns fuel reduced prompt prompt_length :
  ¬ too_long 0 → (0 ≤ reduced)%Z → Z.to_nat reduced < fuel →
  is_Some (shrink_loop tokenize detokenize n_ctx build_base_prompt fuel
             cluster_id reduced prompt prompt_length).
Proof.
  intros Hfit. revert reduced prompt prompt_length.
  induction fuel as [|fuel IH]; intros reduced prompt prompt_length Hpos Hfuel;
    [lia|].
  simpl. destruct (decide _); [|eauto].
  destruct (decide (reduced `div` 2 = 0)%Z) as [Hz|Hz].
  - rewrite Hz. destruct fuel; simpl; (destruct (decide _); [done|eauto]).
  - assert (0 < reduced)%Z.
    { destruct (decide (reduced = 0)%Z) as [->|]; [done|lia]. }
    assert (reduced `div` 2 < reduced)%Z by (apply Z.div_lt; lia).
    apply IH; [apply Z.div_pos; lia|lia].
Qed.

End PromptReturn.

(** X14 ([fit_base_level_prompts], lines 594-628): what a call that returns
    has stored.  There is one prompt per cluster of the layer.  The prompt
    of a cluster is built with the quota of documents halved [k] times,
    where [k] is the least number of halvings for which the built prompt
    fits the context window; it is that prompt, or that prompt tokenized
    and detokenized again: no token of it is cut off. *)
Theorem base_prompts_fit {token : Type} (tokenize : string → list token)
    (detokenize : list token → string) (n_ctx : nat)
    (build_base_prompt : nat → Z → string) (fuel layer_size : nat)
    (max_docs_per_cluster : Z) (prompts : list string) :
  fit_base_level_prompts tokenize detokenize n_ctx build_base_prompt fuel
    layer_size max_docs_per_cluster = Some prompts →
  length prompts = layer_size ∧
  ∀ cluster_id prompt, prompts !! cluster_id = Some prompt →
    ∃ k, let built :=
           build_base_prompt cluster_id
             (max_docs_per_cluster `div` 2 ^ Z.of_nat k)%Z in
      length (tokenize built) ≤ n_ctx ∧
      (∀ j, j < k →
         n_ctx < length (tokenize
                   (build_base_prompt cluster_id
                      (max_docs_per_cluster `div` 2 ^ Z.of_nat j)%Z))) ∧
      (prompt = built ∨ prompt = detokenize (tokenize built)).
Proof.
  unfold fit_base_level_prompts. intros Hall%mapM_Some.
  split.
  { apply Forall2_length in Hall. by rewrite length_seq in Hall. }
  intros cluster_id prompt Hprompt.
  destruct (Forall2_lookup_r _ _ _ _ _ Hall Hprompt) as (c & Hc & Hrun).
  apply lookup_seq in Hc as [-> _]. simpl in Hrun.
  unfold base_prompt in Hrun.
  assert (Hq0 : (max_docs_per_cluster `div` 2 ^ Z.of_nat 0)%Z
                = max_docs_per_cluster) by apply Z.div_1_r.
  rewrite <- Hq0 in Hrun.
  destruct (shrink_loop_exit tokenize detokenize n_ctx build_base_prompt
              cluster_id max_docs_per_cluster fuel 0 _ prompt
              (or_introl eq_refl) ltac:(lia) Hrun)
    as (k & Hfit & Hbefore & Hout).
  exists k. simpl. split; [lia|]. split; [done|]. done.
Qed.

Lemma base_prompts_fit_witness :
  ∃ prompts,
    fit_base_level_prompts char_tokenize char_detokenize 40 line_prompt 10 2
      100 = Some prompts ∧
    length prompts = 2 ∧
    ∀ cluster_id prompt, prompts !! cluster_id = Some prompt →
      ∃ k, let built :=
             line_prompt cluster_id (100 `div` 2 ^ Z.of_nat k)%Z in
        length (char_tokenize built) ≤ 40 ∧
        (∀ j, j < k →
           40 < length (char_tokenize
                  (line_prompt cluster_id (100 `div` 2 ^ Z.of_nat j)%Z))) ∧
        (prompt = built ∨ prompt = char_detokenize (char_tokenize built)).
Proof.
  destruct (fit_base_level_prompts char_tokenize char_detokenize 40
              line_prompt 10 2 100) as [prompts|] eqn:E;
    [|vm_compute in E; discriminate].
  exists prompts. split; [reflexivity|].
  exact (base_prompts_fit char_tokenize char_detokenize 40 line_prompt 10 2
           100 prompts E).
Defined.

(** X15 ([fit_base_level_prompts], lines 594-628): when the prompt of every
    cluster fits the context window once it is built without documents,
    the loops exit: each after at most as many iterations as the quota is
    large, and one more. *)
Theorem base_prompts_return {token : Type} (tokenize : string → list token)
    (detokenize : list token → string) (n_ctx : nat)
    (build_base_prompt : nat → Z → string) (layer_size : nat)
    (max_docs_per_cluster : Z) :
  (0 ≤ max_docs_per_cluster)%Z →
  (∀ cluster_id, cluster_id < layer_size →
     length (tokenize (build_base_prompt cluster_id 0%Z)) ≤ n_ctx) →
  ∃ prompts,
    fit_base_level_prompts tokenize detokenize n_ctx build_base_prompt
      (S (Z.to_nat max_docs_per_cluster)) layer_size max_docs_per_cluster
    = Some prompts.
Proof.
  intros Hpos Hfit. unfold fit_base_level_prompts.
  apply mapM_is_Some, Forall_forall. intros c Hc%elem_of_seq. simpl.
  unfold base_prompt. apply shrink_loop_returns; [|done|lia].
  specialize (Hfit c ltac:(lia)). lia.
Qed.

Lemma base_prompts_return_witness :
  (0 ≤ 5)%Z ∧
  ∃ prompts,
    fit_base_level_prompts char_tokenize char_detokenize 16 line_prompt
      (S (Z.to_nat 5)) 2 5 = Some prompts.
Proof.
  assert (Hpos : (0 ≤ 5)%Z) by lia.
  split; [exact Hpos|].
  apply (base_prompts_return char_tokenize char_detokenize 16 line_prompt 2
           5 Hpos).
  intros cluster_id _. vm_compute. lia.
Defined.

(** X16 ([fit_base_level_prompts], lines 594-628): when for one cluster of
    the layer no halving of the quota gives a prompt that fits the context
    window, the call does not return, however many iterations it is
    given. *)
Theorem base_prompts_diverge {token : Type} (tokenize : string → list token)
    (detokenize : list token → string) (n_ctx : nat)
    (build_base_prompt : nat → Z → string) (layer_size : nat)
    (max_docs_per_cluster : Z) (cluster_id : nat) :
  cluster_id < layer_size →
  (∀ k, n_ctx < length (tokenize
                  (build_base_prompt cluster_id
                     (max_docs_per_cluster `div` 2 ^ Z.of_nat k)%Z))) →
  ∀ fuel,
    fit_base_level_prompts tokenize detokenize n_ctx build_base_prompt fuel
      layer_size max_docs_per_cluster = None.
Proof.
  intros Hc Hlong fuel. unfold fit_base_level_prompts.
  apply mapM_None_2, Exists_exists. exists cluster_id.
  split; [apply elem_of_seq; lia|].
  unfold base_prompt.
  assert (Hq0 : (max_docs_per_cluster `div` 2 ^ Z.of_nat 0)%Z
                = max_docs_per_cluster) by apply Z.div_1_r.
  rewrite <- Hq0.
  by apply (shrink_loop_runs_on tokenize detokenize n_ctx build_base_prompt
              cluster_id max_docs_per_cluster fuel 0).
Qed.

Lemma base_prompts_diverge_witness :
  1 < 2 ∧
  ∀ fuel,
    fit_base_level_prompts char_tokenize char_detokenize 4 line_prompt fuel
      2 100 = None.
Proof.
  assert (Hc : 1 < 2) by lia.
  split; [exact Hc|].
  apply (base_prompts_diverge char_tokenize char_detokenize 4 line_prompt 2
           100 1 Hc).
  intros k. unfold char_tokenize, line_prompt.
  rewrite length_list_ascii_of_string, length_append. simpl. lia.
Defined.

(** ** TopicDeduplicator: the whole pass *)

Section PassInvariant.
Context `{Numeric F}.
Variable cosine_distance : list F → list F → F.
Variable alpha_default : F.
Variable llm : nat → string → string.
Variable choice : nat → list string → list string.
Variable documents : list string.
Variable document_vectors : list (list F).
Variable vector_layers : list (list (list F)).
Variables (document_type corpus_description : string).
Variable n_docs : nat.
Variable topic_name_layers : list (list string).
Variable pointset_layers : list (list (list nat)).

(** A property of the state that settling a cluster keeps holds when the
    pass returns. *)
Lemma clean_topic_names_invariant (P : dedup_state → Prop) st :
  (∀ n i name indices names pointsets t t',
     topic_name_layers !! n = Some names →
     pointset_layers !! n = Some pointsets →
     names !! i = Some name → pointsets !! i = Some indices →
     P t →
     clean_cluster cosine_distance alpha_default llm choice documents
       document_vectors vector_layers document_type corpus_description
       n (i, (name, indices)) t = Ok t' →
     P t') →
  P {| unique_names := ∅;
       layer_clusters :=
         replicate (length topic_name_layers) (replicate n_docs "Unlabelled");
       calls := 0;
       committed := [] |} →
  clean_topic_names cosine_distance alpha_default llm choice documents
  document_vectors vector_layers document_type corpus_description n_docs
  topic_name_layers pointset_layers = Ok st →
  P st.
Proof.
  intros Hstep Hstart. unfold clean_topic_names.
  apply for_each_invariant; [|done].
  intros n t t' _ Ht. unfold clean_layer.
  intros (names & Hnames%get_Ok & (pointsets & Hps%get_Ok & Hrun)%bind_Ok)%bind_Ok.
  revert Hrun. apply for_each_invariant; [|done].
  intros [i [name indices]] u u' Hin Hu.
  apply list_elem_of_lookup in Hin as [k Hk].
  apply lookup_zip_with_Some in Hk as (i' & [name' indices'] & [= <- <- <-]
                                       & Hi & Hentry).
  apply lookup_seq in Hi as [-> _]. simpl in *.
  apply lookup_zip_with_Some in Hentry as (? & ? & [= <- <-] & Hname & Hind).
  by eapply Hstep.
Qed.

End PassInvariant.

Lemma sum_list_snoc (l : list nat) (x : nat) :
  sum_list (l ++ [x]) = sum_list l + x.
Proof. induction l as [|y l IH]; simpl; lia. Qed.

Lemma assign_lookup (a a' : list string) indices v d :
  assign a indices v = Ok a' →
  length a' = length a ∧
  (d < length a →
   a' !! d = if bool_decide (d ∈ indices) then Some v else a !! d).
Proof.
  unfold assign. revert a.
  induction indices as [|j indices IH]; intros a.
  - intros [= <-]. split; [done|]. intros _.
    case_bool_decide as Hin; [|done]. by apply elem_of_nil in Hin.
  - rewrite for_each_cons.
    intros (a1 & (x & Hx & ->)%update_Ok & Hrest)%bind_Ok.
    destruct (IH _ Hrest) as [Hlen Hlookup].
    rewrite length_insert in Hlen, Hlookup. split; [done|]. intros Hd.
    rewrite (Hlookup Hd).
    destruct (decide (d = j)) as [->|Hne].
    + rewrite (bool_decide_eq_true_2 (j ∈ j :: indices)) by left.
      rewrite list_lookup_insert_eq by done. by destruct (bool_decide _).
    + rewrite list_lookup_insert_ne by done.
      destruct (decide (d ∈ indices)) as [Hin|Hout].
      * rewrite !bool_decide_eq_true_2; [done|by right|done].
      * rewrite !bool_decide_eq_false_2; [done| |done].
        by intros [?|?]%elem_of_cons.
Qed.

(** X17 ([clean_topic_names], lines 767-808): the pass returns when there
    are pointsets for every layer of names that index the documents, and
    every cluster has a pointset with a document and a centroid, which the
    remedy prompt is built from.  The set of used names then holds the
    committed names and no other; no cluster has made more than 8
    attempts; and a cluster that stopped before its eighth attempt has a
    name that no cluster settled before it has. *)
Theorem clean_topic_names_unique `{Numeric F}
    (cosine_distance : list F → list F → F) (alpha_default : F)
    (llm : nat → string → string) (choice : nat → list string → list string)
    (documents : list string) (document_vectors : list (list F))
    (vector_layers : list (list (list F)))
    (document_type corpus_description : string)
    (n_docs : nat) (topic_name_layers : list (list string))
    (pointset_layers : list (list (list nat))) :
  length topic_name_layers ≤ length pointset_layers →
  Forall (Forall (Forall (λ d, d < n_docs))) pointset_layers →
  length documents = n_docs → length document_vectors = n_docs →
  Forall2 (Forall2 (λ (ps : list nat) (v : list F), ps ≠ []))
    pointset_layers vector_layers →
  ∃ st,
    clean_topic_names cosine_distance alpha_default llm choice documents
      document_vectors vector_layers document_type corpus_description n_docs
      topic_name_layers pointset_layers = Ok st ∧
    unique_names st = list_to_set (committed_name <$> committed st) ∧
    Forall (λ e, attempts e ≤ 8) (committed st) ∧
    ∀ p q ci cj,
      p < q → committed st !! p = Some ci → committed st !! q = Some cj →
      attempts cj < 8 → committed_name ci ≠ committed_name cj.
Proof.
  intros Hlayers Hdocs Hdl Hvl Hready.
  destruct (clean_topic_names_spec cosine_distance alpha_default llm choice
              documents document_vectors vector_layers document_type
              corpus_description n_docs topic_name_layers pointset_layers
              Hlayers Hdocs Hdl Hvl Hready)
    as (st & logs & Hrun & Hlog & Hused & Hok & _).
  rewrite <- Hlog in Hused, Hok.
  exists st. split; [exact Hrun|]. split; [|split].
  - rewrite Hused. unfold names_after. by rewrite (left_id_L ∅ (∪)).
  - apply Forall_forall. intros e [q Hq]%list_elem_of_lookup.
    by destruct (log_ok_lookup _ _ _ _ Hok Hq) as (? & _).
  - intros p q ci cj Hpq Hp Hq.
    by destruct (log_ok_pair _ _ _ _ _ _ Hok Hp Hq Hpq) as (_ & _ & ? & _).
Qed.

Lemma clean_topic_names_unique_witness :
  length research_layers ≤ length research_pointsets ∧
  Forall (Forall (Forall (λ d, d < 2))) research_pointsets ∧
  length research_documents = 2 ∧ length research_vectors = 2 ∧
  Forall2 (Forall2 (λ (ps : list nat) (v : list float), ps ≠ []))
    research_pointsets research_centroids ∧
  ∃ st,
    clean_topic_names cosine_distance64 1%float helpful_llm in_order
      research_documents research_vectors research_centroids
      "titles" "a journal" 2 research_layers research_pointsets = Ok st ∧
    unique_names st = list_to_set (committed_name <$> committed st) ∧
    Forall (λ e, attempts e ≤ 8) (committed st) ∧
    ∀ p q ci cj,
      p < q → committed st !! p = Some ci → committed st !! q = Some cj →
      attempts cj < 8 → committed_name ci ≠ committed_name cj.
Proof.
  assert (H1 : length research_layers ≤ length research_pointsets)
    by (simpl; lia).
  assert (H2 : Forall (Forall (Forall (λ d, d < 2))) research_pointsets)
    by (repeat constructor).
  assert (H3 : length research_documents = 2) by reflexivity.
  assert (H4 : length research_vectors = 2) by reflexivity.
  assert (H5 : Forall2 (Forall2 (λ (ps : list nat) (v : list float), ps ≠ []))
                 research_pointsets research_centroids)
    by (repeat constructor; discriminate).
  split; [exact H1|]. split; [exact H2|]. split; [exact H3|].
  split; [exact H4|]. split; [exact H5|].
  exact (clean_topic_names_unique cosine_distance64 1%float helpful_llm in_order
           research_documents research_vectors research_centroids
           "titles" "a journal" 2 research_layers research_pointsets
           H1 H2 H3 H4 H5).
Defined.

(** X18 ([clean_topic_names], lines 767-808): a layer of names without a
    layer of pointsets stops the pass with an [IndexError] before any
    cluster is settled: the pass starts at the last layer of names. *)
Theorem clean_topic_names_missing_pointsets `{Numeric F}
    (cosine_distance : list F → list F → F) (alpha_default : F)
    (llm : nat → string → string) (choice : nat → list string → list string)
    (documents : list string) (document_vectors : list (list F))
    (vector_layers : list (list (list F)))
    (document_type corpus_description : string)
    (n_docs : nat) (topic_name_layers : list (list string))
    (pointset_layers : list (list (list nat))) :
  length pointset_layers < length topic_name_layers →
  clean_topic_names cosine_distance alpha_default llm choice documents
  document_vectors vector_layers document_type corpus_description n_docs
  topic_name_layers pointset_layers = Raise IndexError.
Proof.
  intros Hshort. unfold clean_topic_names.
  destruct (length topic_name_layers) as [|m] eqn:Elen; [lia|].
  rewrite seq_S, rev_app_distr. cbn [rev app Nat.add].
  rewrite for_each_cons. apply bind_Raise. left. unfold clean_layer.
  destruct (lookup_lt_is_Some_2 topic_name_layers m) as [names Hnames];
    [lia|].
  apply get_Ok in Hnames. rewrite Hnames. simpl.
  assert (Hps : get pointset_layers m = Raise IndexError).
  { apply get_Raise. split; [lia|done]. }
  by rewrite Hps.
Qed.

Lemma clean_topic_names_missing_pointsets_witness :
  length (@nil (list (list nat))) < length research_layers ∧
  clean_topic_names cosine_distance64 1%float helpful_llm in_order
    research_documents research_vectors research_centroids
    "titles" "a journal" 2 research_layers []
  = Raise IndexError.
Proof.
  assert (H1 : length (@nil (list (list nat))) < length research_layers)
    by (simpl; lia).
  split; [exact H1|].
  exact (clean_topic_names_missing_pointsets cosine_distance64 1%float
           helpful_llm in_order research_documents research_vectors
           research_centroids "titles" "a journal" 2 research_layers [] H1).
Defined.

(** X19 ([clean_topic_names], lines 767-808): the language model is called
    once per attempt: when the pass returns, the number of completions it
    has asked for is the sum of the attempts of the clusters, at most 8
    per cluster. *)
Theorem clean_topic_names_calls `{Numeric F}
    (cosine_distance : list F → list F → F) (alpha_default : F)
    (llm : nat → string → string) (choice : nat → list string → list string)
    (documents : list string) (document_vectors : list (list F))
    (vector_layers : list (list (list F)))
    (document_type corpus_description : string)
    (n_docs : nat) (topic_name_layers : list (list string))
    (pointset_layers : list (list (list nat))) (st : dedup_state) :
  clean_topic_names cosine_distance alpha_default llm choice documents
  document_vectors vector_layers document_type corpus_description n_docs
  topic_name_layers pointset_layers = Ok st →
  calls st = sum_list (attempts <$> committed st) ∧
  calls st ≤ 8 * length (committed st).
Proof.
  intros Hrun.
  assert (Hinv : calls st = sum_list (attempts <$> committed st) ∧
                 Forall (λ e, attempts e ≤ 8) (committed st)).
  { revert Hrun.
    apply (clean_topic_names_invariant cosine_distance alpha_default llm
             choice documents document_vectors vector_layers document_type
             corpus_description n_docs topic_name_layers pointset_layers
             (λ t, calls t = sum_list (attempts <$> committed t) ∧
                   Forall (λ e, attempts e ≤ 8) (committed t)));
      [|by split].
    intros n i name indices names pointsets t t' _ _ _ _ [Hcalls Hatt] Hstep.
    apply clean_cluster_Ok in Hstep
      as (u & att & labels & labels' & _ & _ & _ & -> & _ & -> & _ & Hok).
    destruct Hok as [Hbound _]. simpl in Hbound.
    rewrite fmap_app, Forall_app. simpl. rewrite sum_list_snoc.
    split; [lia|]. split; [done|]. constructor; [|constructor].
    simpl. lia. }
  destruct Hinv as [Hcalls Hatt]. split; [done|]. rewrite Hcalls.
  clear -Hatt. induction Hatt as [|e log He _ IH]; [simpl; lia|].
  rewrite fmap_cons, length_cons.
  change (attempts e + sum_list (attempts <$> log) ≤ 8 * S (length log)).
  lia.
Qed.

Lemma clean_topic_names_calls_witness :
  ∃ st,
    clean_topic_names cosine_distance64 1%float stubborn_llm in_order
      research_documents research_vectors research_centroids
      "titles" "a journal" 2 research_layers research_pointsets = Ok st ∧
    calls st = sum_list (attempts <$> committed st) ∧
    calls st ≤ 8 * length (committed st).
Proof.
  destruct (clean_topic_names cosine_distance64 1%float stubborn_llm in_order
              research_documents research_vectors research_centroids
              "titles" "a journal" 2 research_layers research_pointsets) as [st|e] eqn:E;
    [|vm_compute in E; discriminate].
  exists st. split; [reflexivity|].
  exact (clean_topic_names_calls cosine_distance64 1%float stubborn_llm in_order
           research_documents research_vectors research_centroids
           "titles" "a journal" 2 research_layers research_pointsets st E).
Defined.

(** X20 ([clean_topic_names], lines 767-808): the labels the pass leaves.
    There is one array per layer of names with one slot per document, and
    the slot of a document holds the name committed for the last cluster
    of the layer whose pointset holds the document, or Unlabelled when no
    pointset of the layer holds it. *)
Theorem clean_topic_names_labels `{Numeric F}
    (cosine_distance : list F → list F → F) (alpha_default : F)
    (llm : nat → string → string) (choice : nat → list string → list string)
    (documents : list string) (document_vectors : list (list F))
    (vector_layers : list (list (list F)))
    (document_type corpus_description : string)
    (n_docs : nat) (topic_name_layers : list (list string))
    (pointset_layers : list (list (list nat))) (st : dedup_state) :
  clean_topic_names cosine_distance alpha_default llm choice documents
  document_vectors vector_layers document_type corpus_description n_docs
  topic_name_layers pointset_layers = Ok st →
  length (layer_clusters st) = length topic_name_layers ∧
  ∀ n labels, layer_clusters st !! n = Some labels →
    length labels = n_docs ∧
    ∀ d, d < n_docs →
      labels !! d = Some (label_of pointset_layers (committed st) n d).
Proof.
  apply (clean_topic_names_invariant cosine_distance alpha_default llm
           choice documents document_vectors vector_layers document_type
           corpus_description n_docs topic_name_layers pointset_layers
           (λ t, length (layer_clusters t) = length topic_name_layers ∧
                 ∀ n labels, layer_clusters t !! n = Some labels →
                   length labels = n_docs ∧
                   ∀ d, d < n_docs →
                     labels !! d
                     = Some (label_of pointset_layers (committed t) n d))).
  - intros n i name indices names pointsets t t' Hnames Hps Hname Hind
      [Hlen Hrows] Hstep.
    apply clean_cluster_Ok in Hstep
      as (u & att & labels & labels' & Hlabels & Hassign & -> & -> & _).
    split; [by rewrite length_insert|].
    intros n' row Hrow. destruct (decide (n' = n)) as [->|Hne].
    + rewrite list_lookup_insert_eq in Hrow
        by (by eapply lookup_lt_Some).
      injection Hrow as <-.
      destruct (Hrows n labels Hlabels) as [Hll Hold].
      split.
      { by destruct (assign_lookup labels labels' indices u 0 Hassign)
          as [-> _]. }
      intros d Hd.
      destruct (assign_lookup labels labels' indices u d Hassign)
        as [_ Hnew].
      rewrite Hnew by lia. unfold label_of. rewrite foldl_app. simpl.
      unfold indices_of. simpl. rewrite Hps. simpl. rewrite Hind. simpl.
      destruct (decide (d ∈ indices)) as [Hin|Hout].
      * rewrite !bool_decide_eq_true_2; done.
      * rewrite !bool_decide_eq_false_2; [by apply Hold|tauto|done].
    + rewrite list_lookup_insert_ne in Hrow by done.
      destruct (Hrows n' row Hrow) as [Hll Hold]. split; [done|].
      intros d Hd. unfold label_of. rewrite foldl_app. simpl.
      rewrite bool_decide_eq_false_2; [by apply Hold|]. intros [? _]. done.
  - simpl. split; [by rewrite length_replicate|].
    intros n labels [-> _]%lookup_replicate.
    split; [by rewrite length_replicate|]. intros d Hd.
    by apply lookup_replicate.
Qed.

Lemma clean_topic_names_labels_witness :
  ∃ st,
    clean_topic_names cosine_distance64 1%float helpful_llm in_order
      research_documents research_vectors research_centroids
      "titles" "a journal" 2 research_layers research_pointsets = Ok st ∧
    length (layer_clusters st) = length research_layers ∧
    ∀ n labels, layer_clusters st !! n = Some labels →
      length labels = 2 ∧
      ∀ d, d < 2 →
        labels !! d = Some (label_of research_pointsets (committed st) n d).
Proof.
  destruct (clean_topic_names cosine_distance64 1%float helpful_llm in_order
              research_documents research_vectors research_centroids
              "titles" "a journal" 2 research_layers research_pointsets) as [st|e] eqn:E;
    [|vm_compute in E; discriminate].
  exists st. split; [reflexivity|].
  exact (clean_topic_names_labels cosine_distance64 1%float helpful_llm in_order
           research_documents research_vectors research_centroids
           "titles" "a journal" 2 research_layers research_pointsets st E).
Defined.

(** X21 ([clean_topic_names], lines 767-808): the order of the pass, when
    there are pointsets for every layer of names that index the documents
    and every cluster has a pointset with a document and a centroid.  The
    layers are settled from the last one down to layer 0, and within a
    layer the clusters in the order of their numbers, as many as the layer
    has both a name and a pointset for; the log of the pass is the
    sequence of these clusters with their names from generation. *)
Theorem clean_topic_names_order `{Numeric F}
    (cosine_distance : list F → list F → F) (alpha_default : F)
    (llm : nat → string → string) (choice : nat → list string → list string)
    (documents : list string) (document_vectors : list (list F))
    (vector_layers : list (list (list F)))
    (document_type corpus_description : string)
    (n_docs : nat) (topic_name_layers : list (list string))
    (pointset_layers : list (list (list nat))) :
  length topic_name_layers ≤ length pointset_layers →
  Forall (Forall (Forall (λ d, d < n_docs))) pointset_layers →
  length documents = n_docs → length document_vectors = n_docs →
  Forall2 (Forall2 (λ (ps : list nat) (v : list F), ps ≠ []))
    pointset_layers vector_layers →
  ∃ st logs,
    clean_topic_names cosine_distance alpha_default llm choice documents
      document_vectors vector_layers document_type corpus_description n_docs
      topic_name_layers pointset_layers = Ok st ∧
    committed st = concat logs ∧
    Forall2 (λ n log, ∃ names pointsets,
               topic_name_layers !! n = Some names ∧
               pointset_layers !! n = Some pointsets ∧
               length log = length names `min` length pointsets ∧
               ∀ i e, log !! i = Some e →
                 layer e = n ∧ cluster e = i ∧ names !! i = Some (raw_name e))
      (rev (seq 0 (length topic_name_layers))) logs.
Proof.
  intros Hlayers Hdocs Hdl Hvl Hready.
  destruct (clean_topic_names_spec cosine_distance alpha_default llm choice
              documents document_vectors vector_layers document_type
              corpus_description n_docs topic_name_layers pointset_layers
              Hlayers Hdocs Hdl Hvl Hready)
    as (st & logs & Hrun & Hlog & _ & _ & Hall).
  exists st, logs. split; [exact Hrun|]. split; [exact Hlog|].
  eapply Forall2_impl; [exact Hall|]. simpl.
  intros n log (names & pointsets & Hnames & Hps & Hlogged).
  exists names, pointsets. split; [done|]. split; [done|].
  unfold logged, layer_entries in Hlogged.
  split.
  - apply Forall2_length in Hlogged.
    rewrite length_zip, length_seq, length_zip in Hlogged. lia.
  - intros i e He.
    destruct (Forall2_lookup_r _ _ _ _ _ Hlogged He)
      as ([i' [name indices]] & Hentry & Hl & Hc & Hr).
    simpl in *.
    apply lookup_zip_with_Some in Hentry
      as (? & ? & [= <- <-] & Hi & Hentry).
    apply lookup_seq in Hi as [-> _]. simpl in *.
    apply lookup_zip_with_Some in Hentry as (? & ? & [= <- <-] & Hname & _).
    rewrite Hr. done.
Qed.

Lemma clean_topic_names_order_witness :
  length research_layers ≤ length research_pointsets ∧
  Forall (Forall (Forall (λ d, d < 2))) research_pointsets ∧
  length research_documents = 2 ∧ length research_vectors = 2 ∧
  Forall2 (Forall2 (λ (ps : list nat) (v : list float), ps ≠ []))
    research_pointsets research_centroids ∧
  ∃ st logs,
    clean_topic_names cosine_distance64 1%float helpful_llm in_order
      research_documents research_vectors research_centroids
      "titles" "a journal" 2 research_layers research_pointsets = Ok st ∧
    committed st = concat logs ∧
    Forall2 (λ n log, ∃ names pointsets,
               research_layers !! n = Some names ∧
               research_pointsets !! n = Some pointsets ∧
               length log = length names `min` length pointsets ∧
               ∀ i e, log !! i = Some e →
                 layer e = n ∧ cluster e = i ∧ names !! i = Some (raw_name e))
      (rev (seq 0 (length research_layers))) logs.
Proof.
  assert (H1 : length research_layers ≤ length research_pointsets)
    by (simpl; lia).
  assert (H2 : Forall (Forall (Forall (λ d, d < 2))) research_pointsets)
    by (repeat constructor).
  assert (H3 : length research_documents = 2) by reflexivity.
  assert (H4 : length research_vectors = 2) by reflexivity.
  assert (H5 : Forall2 (Forall2 (λ (ps : list nat) (v : list float), ps ≠ []))
                 research_pointsets research_centroids)
    by (repeat constructor; discriminate).
  split; [exact H1|]. split; [exact H2|]. split; [exact H3|].
  split; [exact H4|]. split; [exact H5|].
  exact (clean_topic_names_order cosine_distance64 1%float helpful_llm in_order
           research_documents research_vectors research_centroids
           "titles" "a journal" 2 research_layers research_pointsets
           H1 H2 H3 H4 H5).
Defined.

(** ** Topic names: the form [string.capwords] gives them *)

Lemma is_space_upper (c : ascii) : is_space (upper c) = is_space c.
Proof. destruct c as [[] [] [] [] [] [] [] []]; vm_compute; reflexivity. Qed.

Lemma is_space_lower (c : ascii) : is_space (lower c) = is_space c.
Proof. destruct c as [[] [] [] [] [] [] [] []]; vm_compute; reflexivity. Qed.

Lemma upper_upper (c : ascii) : upper (upper c) = upper c.
Proof. destruct c as [[] [] [] [] [] [] [] []]; vm_compute; reflexivity. Qed.

Lemma lower_lower (c : ascii) : lower (lower c) = lower c.
Proof. destruct c as [[] [] [] [] [] [] [] []]; vm_compute; reflexivity. Qed.

Lemma capitalize_idempotent (w : list ascii) :
  capitalize (capitalize w) = capitalize w.
Proof.
  destruct w as [|c w]; simpl; [done|]. rewrite upper_upper, map_map.
  f_equal. apply map_ext. intros a. apply lower_lower.
Qed.

Lemma capitalize_word (w : list ascii) : word w → word (capitalize w).
Proof.
  intros [Hne Hw]. destruct w as [|c w]; [done|]. split; [done|].
  apply Forall_cons in Hw as [Hc Hw]. simpl. constructor.
  - by rewrite is_space_upper.
  - change (map lower w) with (lower <$> w). apply Forall_fmap.
    eapply Forall_impl; [exact Hw|]. simpl. intros a Ha.
    by rewrite is_space_lower.
Qed.

Lemma Forall_rev {A} (P : A → Prop) (l : list A) :
  Forall P l → Forall P (rev l).
Proof.
  rewrite !Forall_forall. intros Hl x Hx. apply Hl.
  by rewrite list_elem_of_In, in_rev, <- list_elem_of_In.
Qed.

Lemma rev_word (w : list ascii) : word w → word (rev w).
Proof.
  intros [Hne Hw]. split; [|by apply Forall_rev].
  intros Hnil. apply Hne. by rewrite <- (rev_involutive w), Hnil.
Qed.

(** [str.split()] returns words. *)
Lemma split_whitespace_words (acc s : list ascii) :
  Forall (λ c, is_space c = false) acc →
  Forall word (split_whitespace acc s).
Proof.
  revert acc. induction s as [|c s IH]; intros acc Hacc; simpl.
  - destruct acc as [|a acc]; [constructor|].
    constructor; [|constructor]. by apply rev_word.
  - destruct (is_space c) eqn:Ec.
    + destruct acc as [|a acc]; [by apply IH|].
      constructor; [by apply rev_word|]. by apply IH.
    + apply IH. by constructor.
Qed.

Lemma split_whitespace_word (acc w rest : list ascii) :
  Forall (λ c, is_space c = false) w →
  split_whitespace acc (w ++ rest) = split_whitespace (rev w ++ acc) rest.
Proof.
  revert acc. induction w as [|c w IH]; intros acc Hw; [done|].
  apply Forall_cons in Hw as [Hc Hw]. simpl. rewrite Hc, IH by done.
  by rewrite <- app_assoc.
Qed.

(** Splitting words that were joined by single spaces gives them back. *)
Lemma split_whitespace_join (words : list (list ascii)) :
  Forall word words → split_whitespace [] (join_spaces words) = words.
Proof.
  induction 1 as [|w words [Hne Hw] Hwords IH]; [done|].
  assert (Hrev : ∃ a t, rev w = a :: t).
  { destruct (rev w) as [|a t] eqn:E; [|eauto].
    destruct Hne. by rewrite <- (rev_involutive w), E. }
  destruct Hrev as (a & t & Hrev).
  destruct words as [|w2 words].
  - simpl. rewrite <- (app_nil_r w) at 1.
    rewrite split_whitespace_word by done. rewrite app_nil_r, Hrev.
    change (split_whitespace (a :: t) []) with [rev (a :: t)].
    by rewrite <- Hrev, rev_involutive.
  - change (join_spaces (w :: w2 :: words))
      with (w ++ " "%char :: join_spaces (w2 :: words)).
    rewrite split_whitespace_word by done. rewrite app_nil_r, Hrev.
    change (split_whitespace (a :: t) (" "%char :: join_spaces (w2 :: words)))
      with (rev (a :: t) :: split_whitespace [] (join_spaces (w2 :: words))).
    by rewrite IH, <- Hrev, rev_involutive.
Qed.

Lemma capwords_words (s : list ascii) :
  ∃ words, capwords s = join_spaces words ∧ Forall word words ∧
           Forall (λ w, capitalize w = w) words.
Proof.
  exists (map capitalize (split_whitespace [] s)). split; [done|].
  change (map capitalize ?l) with (capitalize <$> l).
  split; apply Forall_fmap.
  - eapply Forall_impl; [by apply split_whitespace_words|]. simpl.
    apply capitalize_word.
  - apply Forall_forall. intros w _. apply capitalize_idempotent.
Qed.

Lemma capwords_idempotent (s : list ascii) : capwords (capwords s) = capwords s.
Proof.
  destruct (capwords_words s) as (words & -> & Hwords & Hcap).
  unfold capwords. rewrite split_whitespace_join by done. f_equal.
  clear Hwords. induction Hcap as [|w words Hw _ IH]; [done|].
  simpl. by rewrite Hw, IH.
Qed.

Lemma recap_words (name : string) :
  normalised (recap name) ∧
  ∃ words, list_ascii_of_string (recap name) = join_spaces words ∧
           Forall word words ∧ Forall (λ w, capitalize w = w) words.
Proof.
  unfold normalised, recap. rewrite list_ascii_of_string_of_list_ascii.
  split; [apply capwords_idempotent|apply capwords_words].
Qed.

(** X22 ([get_topic_name], lines 630-642): one name per prompt, each made
    of words of the completion that are capitalised and joined by single
    spaces, so that [string.capwords] leaves the name as it is: a name has
    no line break, no space at either end and no two spaces in a row. *)
Theorem get_topic_name_normalised (llm : nat → string → string)
    (calls : nat) (prompt_layer : list string) :
  length (get_topic_name llm calls prompt_layer) = length prompt_layer ∧
  Forall (λ name,
            normalised name ∧
            ∃ words, list_ascii_of_string name = join_spaces words ∧
                     Forall word words ∧
                     Forall (λ w, capitalize w = w) words)
    (get_topic_name llm calls prompt_layer).
Proof.
  unfold get_topic_name. split; [apply length_imap|].
  apply Forall_forall. intros name [i Hi]%list_elem_of_lookup.
  rewrite list_lookup_imap in Hi.
  destruct (prompt_layer !! i) as [prompt|]; [|done].
  injection Hi as <-. apply recap_words.
Qed.

(** X23 ([clean_topic_names], lines 767-808): every name the pass commits,
    and so every name in the set of used names, is in the form that
    [string.capwords] gives: capitalised words joined by single spaces. *)
Theorem committed_names_normalised `{Numeric F}
    (cosine_distance : list F → list F → F) (alpha_default : F)
    (llm : nat → string → string) (choice : nat → list string → list string)
    (documents : list string) (document_vectors : list (list F))
    (vector_layers : list (list (list F)))
    (document_type corpus_description : string)
    (n_docs : nat) (topic_name_layers : list (list string))
    (pointset_layers : list (list (list nat))) (st : dedup_state) :
  clean_topic_names cosine_distance alpha_default llm choice documents
    document_vectors vector_layers document_type corpus_description n_docs
    topic_name_layers pointset_layers = Ok st →
  Forall (λ e, normalised (committed_name e)) (committed st) ∧
  ∀ name, name ∈ unique_names st → normalised name.
Proof.
  apply (clean_topic_names_invariant cosine_distance alpha_default llm
           choice documents document_vectors vector_layers document_type
           corpus_description n_docs topic_name_layers pointset_layers
           (λ t, Forall (λ e, normalised (committed_name e)) (committed t) ∧
                 ∀ name, name ∈ unique_names t → normalised name)).
  - intros n i name indices names pointsets t t' _ _ _ _ [Hlog Hused] Hstep.
    apply clean_cluster_Ok in Hstep
      as (u & att & labels & labels' & _ & _ & _ & -> & -> & _ & Hu & _).
    assert (Hnorm : normalised u).
    { destruct Hu as [->|[text ->]]; apply recap_words. }
    split.
    + apply Forall_app. split; [done|]. by repeat constructor.
    + intros name' [Hin| ->%elem_of_singleton]%elem_of_union; auto.
  - split; [constructor|]. intros name Hin. by apply elem_of_empty in Hin.
Qed.

Lemma committed_names_normalised_witness :
  ∃ st,
    clean_topic_names cosine_distance64 1%float helpful_llm in_order
      research_documents research_vectors research_centroids
      "titles" "a journal" 2 research_layers research_pointsets = Ok st ∧
    Forall (λ e, normalised (committed_name e)) (committed st) ∧
    ∀ name, name ∈ unique_names st → normalised name.
Proof.
  destruct (clean_topic_names cosine_distance64 1%float helpful_llm in_order
              research_documents research_vectors research_centroids
              "titles" "a journal" 2 research_layers research_pointsets)
    as [st|e] eqn:E; [|vm_compute in E; discriminate].
  exists st. split; [reflexivity|].
  exact (committed_names_normalised cosine_distance64 1%float helpful_llm
           in_order research_documents research_vectors research_centroids
           "titles" "a journal" 2 research_layers research_pointsets st E).
Defined.

(** ** Evidence for the clusters of a hierarchy

    [get_topical_layers] and the topical part of [fit_subtopic_layers] run
    the selectors on what [build_cluster_layers] returned. *)

Section PointsetRows.
Context `{Numeric F}.
Variables (point_vectors point_locations : matrix F).
Variable labels : list Z.
Variable strengths : list F.
Variable base : list Z.
Variable threshold : F.

Local Notation "'n_points'" := (length (rows point_vectors)).

Lemma accumulate_in_rows i acc acc' :
  pointsets_in_rows n_points acc →
  accumulate point_vectors point_locations labels strengths base threshold
    i acc = Ok acc' →
  pointsets_in_rows n_points acc'.
Proof.
  unfold accumulate, pointsets_in_rows. intros Hps.
  destruct (get labels i) as [cl|]; simpl; [|done].
  destruct (decide (0 ≤ cl)%Z) as [Hpos|]; [|by intros [= <-]].
  destruct (get strengths i) as [w|] eqn:Hw; simpl; [|done].
  destruct (get (rows point_vectors) i) as [v|] eqn:Hv; simpl; [|done].
  apply get_Ok, lookup_lt_Some in Hv.
  destruct (update (average_vectors acc) _ _); simpl; [|done].
  destruct (get (rows point_locations) i); simpl; [|done].
  destruct (update (average_locations acc) _ _); simpl; [|done].
  destruct (update (total_weights acc) _ _); simpl; [|done].
  unfold record_member. rewrite Hw. simpl.
  destruct (fgtb w threshold); [|by intros [= <-]].
  destruct (update (pointsets acc) _ _) as [ps|] eqn:Hu; simpl; [|done].
  apply update_Ok in Hu as (s0 & Hs0 & ->).
  assert (Hps' : Forall (λ s : gset nat, ∀ j, j ∈ s → j < n_points)
                   (<[Z.to_nat cl:=s0 ∪ {[i]}]> (pointsets acc))).
  { apply Forall_insert; [done|].
    intros j [Hj| ->%elem_of_singleton]%elem_of_union; [|done].
    by apply (Forall_lookup_1 _ _ _ _ Hps Hs0). }
  destruct (get base i) as [sub|]; simpl; [|done].
  destruct (decide _).
  - destruct (update (metaclusters acc) _ _); simpl; [|done].
    by intros [= <-].
  - by intros [= <-].
Qed.

Lemma normalise_in_rows c (acc acc' : accumulators F) :
  pointsets_in_rows n_points acc → normalise c acc = Ok acc' →
  pointsets_in_rows n_points acc'.
Proof.
  unfold normalise, pointsets_in_rows.
  repeat step_result; intros ? [= <-]; done.
Qed.

Lemma layer_from_clustering_in_rows acc :
  layer_from_clustering point_vectors point_locations labels strengths base
    threshold = Ok acc →
  pointsets_in_rows n_points acc.
Proof.
  unfold layer_from_clustering. destruct (decide _); [done|].
  intros (acc0 & Hloop & Hnorm)%bind_Ok.
  eapply (for_each_invariant (pointsets_in_rows n_points));
    [| |exact Hnorm].
  - intros c t t' _. apply normalise_in_rows.
  - eapply (for_each_invariant (pointsets_in_rows n_points));
      [| |exact Hloop].
    + intros i t t' _. apply accumulate_in_rows.
    + unfold pointsets_in_rows. simpl. apply Forall_replicate.
      intros i Hi. by apply not_elem_of_empty in Hi.
Qed.

(** A run of the Aggregator that returns has met no label beyond its
    arrays. *)
Lemma layer_from_clustering_labels_in_range acc :
  layer_from_clustering point_vectors point_locations labels strengths base
    threshold = Ok acc →
  Forall (λ m, (0 ≤ m)%Z → Z.to_nat m < length (pointsets acc)) labels.
Proof.
  intros Hrun.
  destruct (layer_from_clustering_sized _ _ _ _ _ _ _ Hrun)
    as (_ & _ & _ & Hlen & _).
  apply Forall_forall. intros m [i Hi]%list_elem_of_lookup Hpos.
  destruct (decide (Z.to_nat m < length (pointsets acc))) as [|Hout];
    [done|exfalso].
  unfold layer_from_clustering in Hrun. destruct (decide _); [done|].
  apply bind_Ok in Hrun as (acc0 & Hloop & _).
  rewrite (for_each_raises
    (λ a, length (average_vectors a) = Z.to_nat (n_clusters_of labels))
    _ _ _ IndexError) in Hloop; [done|..].
  - intros x t t' _ Ht Hx. apply accumulate_length in Hx. congruence.
  - intros x t e'. apply accumulate_exn.
  - exists i. split.
    + apply elem_of_seq. apply lookup_lt_Some in Hi. lia.
    + intros t Ht. eapply accumulate_out_of_bounds; eauto. lia.
  - simpl. by rewrite length_replicate.
Qed.

End PointsetRows.

Section HierarchyEvidence.
Context `{Numeric F}.
Variable condense : Z → list Z * list F.
Variable int_quantile : list nat → result Z.
Variables (point_vectors point_locations : matrix F).
Variable min_clusters : Z.
Variable base_min_cluster_size : Z.
Variable membership_strength_threshold : F.

Local Notation "'n_points'" := (length (rows point_vectors)).

Lemma next_layer_evidence b clusters probs base acc acc' ps :
  evidence_ok n_points acc →
  next_layer point_vectors point_locations membership_strength_threshold
    b clusters probs base acc = Ok (acc', ps) →
  evidence_ok n_points acc'.
Proof.
  intros Hacc. unfold next_layer.
  intros (a & Ha & [= <- _])%bind_Ok. unfold evidence_ok. simpl.
  apply Forall2_app; [done|]. constructor; [|constructor].
  assert (Hall : Forall2 (λ (s : gset nat) (ms : gset Z),
                    Forall (λ d, d < n_points) (elements s) ∧
                    (elements ms ≠ [] → elements s ≠ []))
                   (pointsets a) (metaclusters a)).
  { destruct (layer_from_clustering_sized _ _ _ _ _ _ _ Ha)
      as (_ & _ & _ & Hlp & Hlm).
    pose proof (layer_from_clustering_in_rows _ _ _ _ _ _ _ Ha) as Hrows.
    destruct (layer_from_clustering_members_sound _ _ _ _ _ _ _ Ha)
      as [_ Hms].
    apply Forall2_same_length_lookup. split; [congruence|].
    intros c s ms Hs Hm. split.
    - apply Forall_forall. intros d Hd%elem_of_elements.
      by apply (Forall_lookup_1 _ _ _ _ Hrows Hs).
    - intros Hne. destruct (elements ms) as [|m rest] eqn:E; [done|].
      assert (Hin : m ∈ ms) by (apply elem_of_elements; rewrite E; left).
      destruct (Hms c ms m Hm Hin) as (_ & s' & d & Hs' & Hd & _).
      assert (s' = s) as -> by congruence.
      intros Hnil. apply elem_of_elements in Hd. rewrite Hnil in Hd.
      by apply elem_of_nil in Hd. }
  change (map elements ?l) with (elements <$> l).
  apply Forall2_fmap. destruct b; [done|]. by apply select_Forall2.
Qed.

Lemma build_loop_base_range fuel (b : bool) clusters probs base n
    (acc c : cluster_layers F) :
  (if b then clusters = base ∧ pointset_layers acc = []
   else pointset_layers acc ≠ [] ∧ base_in_range base acc) →
  build_loop condense int_quantile point_vectors point_locations min_clusters
    membership_strength_threshold fuel b clusters probs base n acc
  = Some (Ok c) →
  base_in_range base c.
Proof.
  revert b clusters probs n acc.
  induction fuel as [|fuel IH]; intros b clusters probs n acc Hinv; simpl;
    destruct (decide _); try done.
  - intros [= <-]. destruct b; [|by destruct Hinv].
    destruct Hinv as [_ Hnil]. intros ps. by rewrite Hnil.
  - destruct (next_layer _ _ _ _ _ _ _ _) as [[acc' ps]|] eqn:En; [|done].
    destruct (int_quantile _); [|done].
    destruct (condense _) as [clusters' probs'].
    destruct (np_max _); [|done].
    apply IH. unfold next_layer in En.
    apply bind_Ok in En as (agg & Ha & [= <- _]). simpl.
    split; [by destruct (pointset_layers acc)|].
    unfold base_in_range. simpl. destruct b.
    + destruct Hinv as [-> ->]. simpl. intros ps' [= <-].
      rewrite length_map.
      by eapply layer_from_clustering_labels_in_range.
    + destruct Hinv as [Hne Hbase]. intros ps' Hps'. apply Hbase.
      destruct (pointset_layers acc); [done|]. done.
  - intros [= <-]. destruct b; [|by destruct Hinv].
    destruct Hinv as [_ Hnil]. intros ps. by rewrite Hnil.
Qed.

(** What the selectors need of a hierarchy. *)
Lemma build_cluster_layers_evidence fuel c :
  build_cluster_layers condense int_quantile point_vectors point_locations
    min_clusters base_min_cluster_size membership_strength_threshold fuel
  = Some (Ok c) →
  evidence_ok n_points c ∧
  base_in_range (condense base_min_cluster_size).1 c ∧
  refer_to_base (condense base_min_cluster_size).1 c ∧
  coarse_merge c ∧ aligned c.
Proof.
  intros Hrun. split; [|split; [|split; [|split]]].
  - eapply (build_cluster_layers_preserves _ _ _ _ _ _ _
              (evidence_ok n_points)); [|constructor|exact Hrun].
    intros b clusters probs base acc acc' ps. apply next_layer_evidence.
  - unfold build_cluster_layers in Hrun.
    destruct (condense base_min_cluster_size) as [clusters probs]. simpl.
    eapply build_loop_base_range; [|exact Hrun]. done.
  - unfold build_cluster_layers in Hrun.
    destruct (condense base_min_cluster_size) as [clusters probs]. simpl.
    apply (build_loop_invariant _ _ _ _ _ _ clusters) in Hrun
      as (b & cl & _ & Hbase & _); [done|].
    split; [done|]. split; constructor.
  - unfold build_cluster_layers in Hrun.
    destruct (condense base_min_cluster_size) as [clusters probs].
    apply (build_loop_invariant _ _ _ _ _ _ clusters) in Hrun
      as (b & cl & _ & _ & Hmerge); [done|].
    split; [done|]. split; constructor.
  - by eapply build_cluster_layers_aligned.
Qed.

End HierarchyEvidence.

Section LayerEvidence.
Context `{Numeric F}.
Variable cosine_distance : list F → list F → F.
Variables (alpha_default alpha_066 : F).
Variable mean_rows : list (list F) → list F.
Variable documents : list string.
Variable document_vectors : list (list F).

Lemma get_topical_layers_returns (c : cluster_layers F) :
  Forall (Forall (λ ps, ps ≠ [] ∧ Forall (λ d, d < length documents) ps ∧
                        Forall (λ d, d < length document_vectors) ps))
    (pointset_layers c) →
  length <$> vector_layers c = length <$> pointset_layers c →
  ∃ out,
    get_topical_layers cosine_distance alpha_default documents
      document_vectors c = Ok out ∧
    Forall2 (Forall2 (λ ps sentences,
               sentences ≠ [] ∧ length sentences ≤ 16 ∧
               ∀ s, s ∈ sentences → ∃ d, d ∈ ps ∧ documents !! d = Some s))
      (pointset_layers c) out.
Proof.
  intros Hps Hvl.
  set (g_cluster := λ pv : list nat * list F,
         match topical_sentences_for_cluster cosine_distance alpha_default
                 documents document_vectors pv.1 pv.2 16 with
         | Ok s => s
         | Raise _ => []
         end).
  set (g_layer := λ i,
         g_cluster <$> zip (pointset_layers c !!! i) (vector_layers c !!! i)).
  assert (Hcluster : ∀ ps v,
            ps ≠ [] → Forall (λ d, d < length documents) ps →
            Forall (λ d, d < length document_vectors) ps →
            topical_sentences_for_cluster cosine_distance alpha_default
              documents document_vectors ps v 16 = Ok (g_cluster (ps, v)) ∧
            g_cluster (ps, v) ≠ [] ∧ length (g_cluster (ps, v)) ≤ 16 ∧
            ∀ s, s ∈ g_cluster (ps, v) →
                 ∃ d, d ∈ ps ∧ documents !! d = Some s).
  { intros ps v Hne Hd Hv.
    destruct (topical_sentences_returns cosine_distance alpha_default
                documents document_vectors ps v 16 Hne Hd Hv)
      as (positions & Hrun & _ & Hlt & Hlen & _ & Hpos).
    unfold g_cluster. simpl. rewrite Hrun. split; [done|]. split; [|split].
    - intros Hnil%fmap_nil_inv. by apply Hpos.
    - by rewrite length_fmap.
    - intros s (p & -> & Hp)%list_elem_of_fmap.
      rewrite Forall_forall in Hlt. specialize (Hlt p Hp).
      exists (ps !!! p). split; [by apply list_elem_of_lookup_total_2|].
      apply list_lookup_lookup_total_lt.
      rewrite Forall_forall in Hd. apply Hd.
      by apply list_elem_of_lookup_total_2. }
  assert (Hlen : length (vector_layers c) = length (pointset_layers c)).
  { apply (f_equal length) in Hvl. by rewrite !length_fmap in Hvl. }
  exists (g_layer <$> seq 0 (length (pointset_layers c))). split.
  - unfold get_topical_layers.
    rewrite (for_each_append _ _ g_layer); [done|].
    apply Forall_forall. intros i Hi%elem_of_seq layers.
    rewrite !get_lookup_total by lia. simpl.
    rewrite (for_each_append _ _ g_cluster); [done|].
    apply Forall_forall. intros [ps v] Hin%elem_of_zip_l acc.
    rewrite Forall_forall in Hps.
    assert (Hlayer : pointset_layers c !!! i ∈ pointset_layers c)
      by (apply list_elem_of_lookup_total_2; lia).
    specialize (Hps _ Hlayer). rewrite Forall_forall in Hps.
    destruct (Hps ps Hin) as (Hne & Hd & Hv).
    by destruct (Hcluster ps v Hne Hd Hv) as [-> _].
  - apply Forall2_same_length_lookup.
    split; [by rewrite length_fmap, length_seq|].
    intros i layer sentences Hlayer Hout.
    apply list_lookup_fmap_Some in Hout as (i' & -> & Hi').
    apply lookup_seq in Hi' as [-> Hi]. simpl. unfold g_layer.
    rewrite (list_lookup_total_correct _ _ _ Hlayer).
    assert (Hvs : length (vector_layers c !!! i) = length layer).
    { assert (Hl : (length <$> vector_layers c) !! i
                   = (length <$> pointset_layers c) !! i) by by rewrite Hvl.
      rewrite !list_lookup_fmap, Hlayer in Hl.
      destruct (vector_layers c !! i) as [vs|] eqn:E; [|done].
      rewrite (list_lookup_total_correct _ _ _ E). by injection Hl. }
    apply Forall2_same_length_lookup. split.
    { rewrite length_fmap, length_zip. lia. }
    intros j ps sents Hj Hsents.
    apply list_lookup_fmap_Some in Hsents as ([ps' v] & -> & Hz).
    apply lookup_zip_with_Some in Hz as (? & ? & [= <- <-] & Hps' & _).
    assert (ps' = ps) as -> by congruence.
    rewrite Forall_forall in Hps.
    specialize (Hps layer (list_elem_of_lookup_2 _ _ _ Hlayer)).
    rewrite Forall_forall in Hps.
    destruct (Hps ps (list_elem_of_lookup_2 _ _ _ Hj)) as (Hne & Hd & Hv).
    by destruct (Hcluster ps v Hne Hd Hv) as [_ ?].
Qed.

End LayerEvidence.

(** X24 ([get_topical_layers], lines 440-456, on the layers of
    [build_cluster_layers]): when no pointset of the first layer is empty,
    the method returns for every hierarchy the builder returns.  It gives
    every cluster of every layer between 1 and 16 sentences, each a
    document of the cluster's pointset. *)
Theorem topical_layers_on_hierarchy `{Numeric F}
    (condense : Z → list Z * list F) (int_quantile : list nat → result Z)
    (cosine_distance : list F → list F → F) (alpha_default : F)
    (documents : list string) (point_vectors point_locations : matrix F)
    (min_clusters base_min_cluster_size : Z) (threshold : F) (fuel : nat)
    (c : cluster_layers F) :
  build_cluster_layers condense int_quantile point_vectors point_locations
    min_clusters base_min_cluster_size threshold fuel = Some (Ok c) →
  length documents = length (rows point_vectors) →
  (∀ base_pointsets, pointset_layers c !! 0 = Some base_pointsets →
                     Forall (λ ps, ps ≠ []) base_pointsets) →
  ∃ out,
    get_topical_layers cosine_distance alpha_default documents
      (rows point_vectors) c = Ok out ∧
    Forall2 (Forall2 (λ ps sentences,
               sentences ≠ [] ∧ length sentences ≤ 16 ∧
               ∀ s, s ∈ sentences → ∃ d, d ∈ ps ∧ documents !! d = Some s))
      (pointset_layers c) out.
Proof.
  intros Hrun Hdocs Hbase.
  destruct (build_cluster_layers_evidence _ _ _ _ _ _ _ _ _ Hrun)
    as (Hev & _ & _ & Hmerge & Hvl & _ & Hpl).
  apply get_topical_layers_returns; [|congruence].
  apply Forall_forall. intros layer [k Hk]%list_elem_of_lookup.
  apply Forall_forall. intros ps [j Hj]%list_elem_of_lookup.
  unfold evidence_ok in Hev.
  destruct (Forall2_lookup_l _ _ _ _ _ Hev Hk) as (mlayer & Hmk & Hlayer).
  destruct (Forall2_lookup_l _ _ _ _ _ Hlayer Hj) as (ms & Hms & Hrange & Hne).
  split; [|split; [by rewrite Hdocs|done]].
  destruct k as [|k].
  - specialize (Hbase layer Hk). rewrite Forall_forall in Hbase.
    apply Hbase. by eapply list_elem_of_lookup_2.
  - apply Hne. unfold coarse_merge in Hmerge.
    assert (Hin : mlayer ∈ drop 1 (metacluster_layers c)).
    { eapply list_elem_of_lookup_2. rewrite lookup_drop. exact Hmk. }
    rewrite Forall_forall in Hmerge. specialize (Hmerge mlayer Hin).
    rewrite Forall_forall in Hmerge.
    destruct (Hmerge ms (list_elem_of_lookup_2 _ _ _ Hms)) as [Hlen _].
    intros ->. simpl in Hlen. lia.
Qed.

Lemma topical_layers_on_hierarchy_witness :
  nested_run 3 = Some (Ok nested_result) ∧
  ∃ out,
    get_topical_layers cosine_distance64 1%float line_documents
      (rows line_points) nested_result = Ok out ∧
    Forall2 (Forall2 (λ ps sentences,
               sentences ≠ [] ∧ length sentences ≤ 16 ∧
               ∀ s, s ∈ sentences →
                    ∃ d, d ∈ ps ∧ line_documents !! d = Some s))
      (pointset_layers nested_result) out.
Proof.
  assert (Hrun : nested_run 3 = Some (Ok nested_result))
    by (vm_compute; reflexivity).
  split; [exact Hrun|].
  apply (topical_layers_on_hierarchy nested_condense int_quantile_80
           cosine_distance64 1%float line_documents line_points line_points
           2 1 0.2%float 3 nested_result Hrun).
  - vm_compute. reflexivity.
  - intros base_pointsets [= <-]. vm_compute. repeat constructor; discriminate.
Defined.

Section SubtopicEvidence.
Context `{Numeric F}.
Variable cosine_distance : list F → list F → F.
Variable alpha_066 : F.
Variable mean_rows : list (list F) → list F.
Variable document_vectors : list (list F).
Variable base_layer_topics : list string.

Lemma topical_subtopic_layers_returns (c : cluster_layers F) :
  Forall2 (Forall2 (λ (ps : list nat) (ms : list Z),
                      Forall (λ d, d < length document_vectors) ps ∧
                      ps ≠ []))
    (pointset_layers c) (metacluster_layers c) →
  (∀ base_pointsets, pointset_layers c !! 0 = Some base_pointsets →
     Forall (Forall (λ ms,
               ms ≠ [] ∧
               Forall (λ m, (0 ≤ m < Z.of_nat (length base_pointsets))%Z ∧
                            (m < Z.of_nat (length base_layer_topics))%Z) ms))
       (drop 1 (metacluster_layers c))) →
  ∃ out,
    topical_subtopic_layers cosine_distance alpha_066 mean_rows
      document_vectors base_layer_topics c = Ok out ∧
    Forall2 (Forall2 (λ ms names,
               length names ≤ 32 ∧
               ∀ name, name ∈ names →
                 ∃ m, m ∈ ms ∧
                      base_layer_topics !! Z.to_nat m = Some name))
      (drop 1 (metacluster_layers c)) out.
Proof.
  intros Hev Hms.
  set (psl := pointset_layers c) in *.
  set (mls := metacluster_layers c) in *.
  set (g_cluster := λ l k,
         match topical_subtopics_for_cluster cosine_distance alpha_066
                 mean_rows ((mls !!! l) !!! k) ((psl !!! l) !!! k)
                 document_vectors base_layer_topics (psl !!! 0) 32 with
         | Ok s => s
         | Raise _ => []
         end).
  set (g_layer := λ l, g_cluster l <$> seq 0 (length (mls !!! l))).
  assert (Hlen : length psl = length mls) by by eapply Forall2_length.
  assert (Hcluster : ∀ l k layer ms,
            mls !! S l = Some layer → layer !! k = Some ms →
            topical_subtopics_for_cluster cosine_distance alpha_066
              mean_rows ms ((psl !!! S l) !!! k) document_vectors
              base_layer_topics (psl !!! 0) 32 = Ok (g_cluster (S l) k) ∧
            length (g_cluster (S l) k) ≤ 32 ∧
            ∀ name, name ∈ g_cluster (S l) k →
              ∃ m, m ∈ ms ∧ base_layer_topics !! Z.to_nat m = Some name).
  { intros l k layer ms Hlayer Hk.
    destruct (lookup_lt_is_Some_2 psl 0) as [base_ps Hbase].
    { apply lookup_lt_Some in Hlayer. lia. }
    specialize (Hms base_ps Hbase).
    assert (Hin : layer ∈ drop 1 mls).
    { eapply list_elem_of_lookup_2. rewrite lookup_drop. exact Hlayer. }
    rewrite Forall_forall in Hms. specialize (Hms layer Hin).
    rewrite Forall_forall in Hms.
    destruct (Hms ms (list_elem_of_lookup_2 _ _ _ Hk)) as [Hne Hlabels].
    destruct (Forall2_lookup_r _ _ _ _ _ Hev Hlayer)
      as (players & Hpl & Hlayer2).
    destruct (Forall2_lookup_r _ _ _ _ _ Hlayer2 Hk)
      as (ps & Hps & Hrange & Hpne).
    destruct (Forall2_lookup_l _ _ _ _ _ Hev Hbase) as (m0 & _ & Hbase2).
    assert (Hbase_range :
              Forall (Forall (λ d, d < length document_vectors)) base_ps).
    { apply Forall_forall. intros ps0 [j Hj]%list_elem_of_lookup.
      by destruct (Forall2_lookup_l _ _ _ _ _ Hbase2 Hj) as (? & _ & ? & _). }
    assert (Hlabels' :
              Forall (λ m, (0 ≤ m < Z.of_nat (length base_ps))%Z ∧
                           (m < Z.of_nat (length base_layer_topics))%Z ∧
                           base_ps !! Z.to_nat m ≠ Some []) ms).
    { eapply Forall_impl; [exact Hlabels|]. simpl. intros m [Hm1 Hm2].
      split; [done|]. split; [done|]. intros Hnil.
      by destruct (Forall2_lookup_l _ _ _ _ _ Hbase2 Hnil)
        as (? & _ & _ & ?). }
    destruct (topical_subtopics_returns cosine_distance alpha_066 mean_rows
                ms ps document_vectors base_layer_topics base_ps 32 Hne
                Hpne ltac:(lia) Hlabels' Hrange Hbase_range)
      as (positions & Hrun & _ & Hlt & Hcount).
    unfold g_cluster.
    rewrite (list_lookup_total_correct _ _ _ Hlayer),
      (list_lookup_total_correct _ _ _ Hk),
      (list_lookup_total_correct _ _ _ Hpl),
      (list_lookup_total_correct _ _ _ Hps),
      (list_lookup_total_correct _ _ _ Hbase), Hrun.
    split; [done|]. split; [rewrite length_fmap; lia|].
    intros name (p & -> & Hp)%list_elem_of_fmap.
    rewrite Forall_forall in Hlt. specialize (Hlt p Hp).
    exists (ms !!! p).
    assert (Hm : ms !!! p ∈ ms) by by apply list_elem_of_lookup_total_2.
    split; [done|]. apply list_lookup_lookup_total_lt.
    rewrite Forall_forall in Hlabels. specialize (Hlabels _ Hm). lia. }
  exists (g_layer <$> seq 1 (length mls - 1)). split.
  - unfold topical_subtopic_layers. fold mls psl.
    apply (for_each_append _ _ g_layer []).
    apply Forall_forall. intros l Hl%elem_of_seq layers.
    destruct l as [|l]; [lia|].
    destruct (lookup_lt_is_Some_2 mls (S l)) as [layer Hlayer]; [lia|].
    apply get_Ok in Hlayer as Hg1. rewrite !Hg1. cbn [mbind result_bind].
    unfold g_layer. rewrite (list_lookup_total_correct _ _ _ Hlayer).
    rewrite (for_each_append _ _ (g_cluster (S l))); [done|].
    apply Forall_forall. intros k Hk%elem_of_seq acc.
    destruct (lookup_lt_is_Some_2 layer k) as [ms Hms']; [lia|].
    destruct (Forall2_lookup_r _ _ _ _ _ Hev Hlayer)
      as (players & Hpl & Hlayer2).
    destruct (Forall2_lookup_r _ _ _ _ _ Hlayer2 Hms') as (ps & Hps & _).
    apply get_Ok in Hms' as Hg2.
    apply get_Ok in Hpl as Hg3. apply get_Ok in Hps as Hg4.
    rewrite Hg2. cbn [mbind result_bind]. rewrite Hg3.
    cbn [mbind result_bind]. rewrite Hg4. cbn [mbind result_bind].
    rewrite (get_lookup_total psl 0) by lia. cbn [mbind result_bind].
    destruct (Hcluster l k layer ms Hlayer Hms') as [Hrun _].
    rewrite (list_lookup_total_correct _ _ _ Hpl),
      (list_lookup_total_correct _ _ _ Hps) in Hrun.
    by rewrite Hrun.
  - apply Forall2_same_length_lookup. split.
    { rewrite length_fmap, length_seq, length_drop. done. }
    intros i layer names Hlayer Hout. rewrite lookup_drop in Hlayer.
    simpl in Hlayer.
    apply list_lookup_fmap_Some in Hout as (l & -> & Hl).
    apply lookup_seq in Hl as [-> Hi]. unfold g_layer.
    change (1 + i) with (S i).
    rewrite (list_lookup_total_correct _ _ _ Hlayer).
    apply Forall2_same_length_lookup. split.
    { by rewrite length_fmap, length_seq. }
    intros k ms sub Hk Hsub.
    apply list_lookup_fmap_Some in Hsub as (k' & -> & Hk').
    apply lookup_seq in Hk' as [-> _]. simpl.
    by destruct (Hcluster i k layer ms Hlayer Hk) as [_ ?].
Qed.

End SubtopicEvidence.

(** X25 ([fit_subtopic_layers], lines 663-676, on the layers of
    [build_cluster_layers]): when the flat clusterings have no label below
    -1, no pointset of the base layer is empty and the base layer has one
    name per cluster, the topical subtopics are found for every hierarchy
    the builder returns: every cluster of every layer above the base layer
    gets at most 32 names, each the name of a base cluster of its
    metacluster. *)
Theorem topical_subtopics_on_hierarchy `{Numeric F}
    (condense : Z → list Z * list F) (int_quantile : list nat → result Z)
    (cosine_distance : list F → list F → F) (alpha_066 : F)
    (mean_rows : list (list F) → list F) (base_layer_topics : list string)
    (point_vectors point_locations : matrix F)
    (min_clusters base_min_cluster_size : Z) (threshold : F) (fuel : nat)
    (c : cluster_layers F) :
  build_cluster_layers condense int_quantile point_vectors point_locations
    min_clusters base_min_cluster_size threshold fuel = Some (Ok c) →
  Forall (λ m, (-1 ≤ m)%Z) (condense base_min_cluster_size).1 →
  (∀ base_pointsets, pointset_layers c !! 0 = Some base_pointsets →
                     Forall (λ ps, ps ≠ []) base_pointsets ∧
                     length base_layer_topics = length base_pointsets) →
  ∃ out,
    topical_subtopic_layers cosine_distance alpha_066 mean_rows
      (rows point_vectors) base_layer_topics c = Ok out ∧
    Forall2 (Forall2 (λ ms names,
               length names ≤ 32 ∧
               ∀ name, name ∈ names →
                 ∃ m, m ∈ ms ∧
                      base_layer_topics !! Z.to_nat m = Some name))
      (drop 1 (metacluster_layers c)) out.
Proof.
  intros Hrun Hlabels Htopics.
  destruct (build_cluster_layers_evidence _ _ _ _ _ _ _ _ _ Hrun)
    as (Hev & Hrange & Hrefer & Hmerge & _).
  apply topical_subtopic_layers_returns.
  - unfold evidence_ok in Hev. apply Forall2_same_length_lookup.
    split; [by eapply Forall2_length|].
    intros k players mlayer Hk Hmk.
    pose proof (Forall2_lookup_lr _ _ _ _ _ _ Hev Hk Hmk) as Hlayer.
    apply Forall2_same_length_lookup.
    split; [by eapply Forall2_length|].
    intros j ps ms Hj Hms.
    destruct (Forall2_lookup_lr _ _ _ _ _ _ Hlayer Hj Hms) as [Hin Hne].
    split; [done|]. destruct k as [|k].
    + destruct (Htopics players Hk) as [Hbase _].
      rewrite Forall_forall in Hbase. apply Hbase.
      by eapply list_elem_of_lookup_2.
    + apply Hne. unfold coarse_merge in Hmerge.
      assert (Hml : mlayer ∈ drop 1 (metacluster_layers c)).
      { eapply list_elem_of_lookup_2. rewrite lookup_drop. exact Hmk. }
      rewrite Forall_forall in Hmerge. specialize (Hmerge mlayer Hml).
      rewrite Forall_forall in Hmerge.
      destruct (Hmerge ms (list_elem_of_lookup_2 _ _ _ Hms)) as [Hlen _].
      intros ->. simpl in Hlen. lia.
  - intros base_pointsets Hbase. specialize (Hrange _ Hbase).
    destruct (Htopics _ Hbase) as [_ Hcount].
    apply Forall_forall. intros layer Hlayer.
    apply Forall_forall. intros ms Hms.
    unfold coarse_merge in Hmerge. rewrite Forall_forall in Hmerge.
    specialize (Hmerge layer Hlayer). rewrite Forall_forall in Hmerge.
    destruct (Hmerge ms Hms) as [Hlen _].
    split; [intros ->; simpl in Hlen; lia|].
    unfold refer_to_base in Hrefer. rewrite Forall_forall in Hrefer.
    assert (Hin : layer ∈ metacluster_layers c).
    { apply list_elem_of_lookup in Hlayer as [k Hk].
      rewrite lookup_drop in Hk. by eapply list_elem_of_lookup_2. }
    specialize (Hrefer layer Hin). rewrite Forall_forall in Hrefer.
    specialize (Hrefer ms Hms).
    eapply Forall_impl; [exact Hrefer|]. simpl. intros m [Hm Hnoise].
    rewrite Forall_forall in Hlabels, Hrange.
    specialize (Hlabels m Hm). specialize (Hrange m Hm). lia.
Qed.

Lemma topical_subtopics_on_hierarchy_witness :
  nested_run 3 = Some (Ok nested_result) ∧
  ∃ out,
    topical_subtopic_layers cosine_distance64 0.66%float mean_rows64
      (rows line_points) group_topics nested_result = Ok out ∧
    Forall2 (Forall2 (λ ms names,
               length names ≤ 32 ∧
               ∀ name, name ∈ names →
                 ∃ m, m ∈ ms ∧ group_topics !! Z.to_nat m = Some name))
      (drop 1 (metacluster_layers nested_result)) out.
Proof.
  assert (Hrun : nested_run 3 = Some (Ok nested_result))
    by (vm_compute; reflexivity).
  split; [exact Hrun|].
  apply (topical_subtopics_on_hierarchy nested_condense int_quantile_80
           cosine_distance64 0.66%float mean_rows64 group_topics line_points
           line_points 2 1 0.2%float 3 nested_result Hrun).
  - vm_compute. repeat constructor; discriminate.
  - intros base_pointsets [= <-]. split; [|vm_compute; reflexivity].
    vm_compute. repeat constructor; discriminate.
Defined.
